(** * The resilient Data.gov client and the Redis cache manager

    A shallow embedding of [src/external/gov/client.py] (class
    [DataGovClient]) and of [src/cache/redis.py] (class [RedisManager]),
    with the properties the specification states about them.

    Layout: Python values and the effect monad; the [json] and UTF-8
    codecs the two classes call; the two classes, method by method; the
    specification's own notions; then lemmas and theorems. *)

From Equations Require Import Equations.
From Stdlib Require Import ZArith String Ascii List Bool Lia.
From stdpp Require Import gmap strings list fin_maps pretty.

Set Warnings "-register-all".
Local Open Scope string_scope.
Local Open Scope Z_scope.
Local Open Scope list_scope.

(* ===================================================================== *)
(** * Python values *)
(* ===================================================================== *)

(** The values that flow through the two classes.  A [str] is a sequence
    of code points below U+0100, one [ascii] each; [bytes] is a sequence
    of octets.  A [dict] keeps its items in insertion order.  Floats are
    left out. *)
Inductive pyval : Type :=
| PNone
| PBool (b : bool)
| PInt (n : Z)
| PStr (s : string)
| PBytes (b : string)
| PList (items : list pyval)
| PDict (items : list (string * pyval)).

(** Induction over [pyval] that reaches inside lists and dicts. *)
Fixpoint pyval_nested_ind (P : pyval → Prop)
    (HNone : P PNone) (HBool : ∀ b, P (PBool b)) (HInt : ∀ n, P (PInt n))
    (HStr : ∀ s, P (PStr s)) (HBytes : ∀ b, P (PBytes b))
    (HList : ∀ l, Forall P l → P (PList l))
    (HDict : ∀ d, Forall (λ kv, P kv.2) d → P (PDict d))
    (v : pyval) {struct v} : P v :=
  let rec := pyval_nested_ind P HNone HBool HInt HStr HBytes HList HDict in
  match v with
  | PNone => HNone
  | PBool b => HBool b
  | PInt n => HInt n
  | PStr s => HStr s
  | PBytes b => HBytes b
  | PList l =>
      HList l ((fix go (l : list pyval) : Forall P l :=
                  match l with
                  | [] => Forall_nil_2 P
                  | x :: r => Forall_cons_2 P x r (rec x) (go r)
                  end) l)
  | PDict d =>
      HDict d ((fix go (d : list (string * pyval)) : Forall (λ kv, P kv.2) d :=
                  match d with
                  | [] => Forall_nil_2 _
                  | kv :: r => Forall_cons_2 (λ kv, P kv.2) kv r (rec kv.2) (go r)
                  end) d)
  end.

(** Truth value testing ([if x:], [x or y]) and [str(x)]. *)
Class Truthy (A : Type) := truthy : A → bool.
Class PyStr (A : Type) := py_str : A → string.

#[global] Instance string_truthy : Truthy string :=
  λ s, match s with EmptyString => false | String _ _ => true end.
#[global] Instance Z_truthy : Truthy Z := λ n, negb (n =? 0)%Z.
#[global] Instance bool_truthy : Truthy bool := λ b, b.
#[global] Instance list_truthy {A} : Truthy (list A) :=
  λ l, match l with [] => false | _ :: _ => true end.
#[global] Instance option_truthy {A} `{Truthy A} : Truthy (option A) :=
  λ o, match o with None => false | Some a => truthy a end.
#[global] Instance gmap_truthy {V} : Truthy (gmap string V) :=
  λ m, negb (bool_decide (m = ∅)).
#[global] Instance pyval_truthy : Truthy pyval :=
  λ v, match v with
       | PNone => false
       | PBool b => truthy b
       | PInt n => truthy n
       | PStr s => truthy s
       | PBytes b => truthy b
       | PList l => truthy l
       | PDict d => truthy d
       end.

(** [sep.join(strings)]. *)
Fixpoint str_join (sep : string) (l : list string) : string :=
  match l with
  | [] => ""
  | [s] => s
  | s :: rest => s +:+ sep +:+ str_join sep rest
  end.

(** [s.startswith(prefix)]. *)
Fixpoint startswith (s p : string) {struct p} : bool :=
  match p, s with
  | "", _ => true
  | String a p', String b s' => (a =? b)%char && startswith s' p'
  | String _ _, "" => false
  end.

(* ===================================================================== *)
(** * Effects: state and exceptions *)
(* ===================================================================== *)

(** What a call comes to.  The values of [pyval] are a fragment of
    Python's: no float, no [str] with a code point from U+0100 on.  A
    call that would need a value outside the fragment is [Unmodelled]:
    what the program does then - return or raise - is not stated here,
    and nothing is proved about it. *)
Inductive outcome (E A : Type) : Type :=
| Returns (a : A)
| Raises (e : E)
| Unmodelled.
Arguments Returns {E A} a.
Arguments Raises {E A} e.
Arguments Unmodelled {E A}.

(** A computation over a state [S] that returns an [A] or raises an [E]. *)
Definition M (S E A : Type) : Type := S → outcome E A * S.

#[global] Instance M_ret {S E} : MRet (M S E) := λ A a σ, (Returns a, σ).
#[global] Instance M_bind {S E} : MBind (M S E) :=
  λ A B k m σ, match m σ with
               | (Returns a, σ') => k a σ'
               | (Raises e, σ') => (Raises e, σ')
               | (Unmodelled, σ') => (Unmodelled, σ')
               end.
Definition raise {S E A} (e : E) : M S E A := λ σ, (Raises e, σ).
Definition unmodelled {S E A} : M S E A := λ σ, (Unmodelled, σ).
(** A step that does not touch the state. *)
Definition lift {S E A} (o : outcome E A) : M S E A := λ σ, (o, σ).
Definition gets {S E A} (f : S → A) : M S E A := λ σ, (Returns (f σ), σ).
Definition modify {S E} (f : S → S) : M S E unit := λ σ, (Returns tt, f σ).

(** [try: body / except <handled>: ...]: [handler e = None] when the
    clause does not name the class of [e], which then propagates. *)
Definition try_except {S E A} (body : M S E A) (handler : E → option (M S E A))
    : M S E A :=
  λ σ, match body σ with
       | (Returns a, σ') => (Returns a, σ')
       | (Raises e, σ') =>
           match handler e with
           | Some h => h σ'
           | None => (Raises e, σ')
           end
       | (Unmodelled, σ') => (Unmodelled, σ')
       end.

(* ===================================================================== *)
(** * The [json] module of the Python library *)
(* ===================================================================== *)

(** [json.dumps] and [json.loads] with their default arguments
    ([ensure_ascii], separators [", "] and [": "], strict strings), on
    the values of [pyval].  Both classes call them; neither redefines
    them.  [read] is the decoder of the texts whose value is a [pyval];
    [loads] tells, among the texts [read] refuses, those that are not
    JSON from those that may be JSON with a value outside [pyval].  The
    limits of the interpreter - its recursion depth, the digits it
    converts to an integer - are not part of this development. *)
Module json.

Definition dquote : ascii := "034"%char.
Definition backslash : ascii := "092"%char.

Definition hex_char (n : N) : ascii :=
  match n with
  | 0 => "0" | 1 => "1" | 2 => "2" | 3 => "3" | 4 => "4" | 5 => "5"
  | 6 => "6" | 7 => "7" | 8 => "8" | 9 => "9" | 10 => "a" | 11 => "b"
  | 12 => "c" | 13 => "d" | 14 => "e" | _ => "f"
  end%char%N.

(** One character of a string literal: the quote, the backslash and
    everything outside [' '..'~'] is escaped. *)
Definition escape_char (c : ascii) : string :=
  let n := N_of_ascii c in
  if (c =? dquote)%char then String backslash (String dquote "")
  else if (c =? backslash)%char then String backslash (String backslash "")
  else if (n =? 8)%N then String backslash "b"
  else if (n =? 12)%N then String backslash "f"
  else if (n =? 10)%N then String backslash "n"
  else if (n =? 13)%N then String backslash "r"
  else if (n =? 9)%N then String backslash "t"
  else if (32 <=? n)%N && (n <=? 126)%N then String c ""
  else String backslash
         (String "u" (String "0" (String "0"
           (String (hex_char (n / 16)) (String (hex_char (n mod 16)) ""))))).

Fixpoint escape (s : string) : string :=
  match s with
  | "" => ""
  | String c r => escape_char c +:+ escape r
  end.

Definition encode_str (s : string) : string :=
  String dquote (escape s +:+ String dquote "").

Fixpoint encode (v : pyval) : string :=
  match v with
  | PNone => "null"
  | PBool true => "true"
  | PBool false => "false"
  | PInt n => pretty n
  | PStr s => encode_str s
  | PBytes _ => ""
  | PList l => "[" +:+ str_join ", " (map encode l) +:+ "]"
  | PDict d =>
      "{" +:+ str_join ", "
                (map (λ '(k, x), encode_str k +:+ ": " +:+ encode x) d) +:+ "}"
  end.

(** [bytes] is not JSON serializable, at any depth. *)
Fixpoint serializable (v : pyval) : bool :=
  match v with
  | PBytes _ => false
  | PList l => forallb serializable l
  | PDict d => forallb (λ '(_, x), serializable x) d
  | _ => true
  end.

(** [json.dumps(v)]; [None] stands for the [TypeError] it raises. *)
Definition dumps (v : pyval) : option string :=
  if serializable v then Some (encode v) else None.

(** ** Decoding *)

Definition is_ws (c : ascii) : bool :=
  let n := N_of_ascii c in
  (n =? 32)%N || (n =? 9)%N || (n =? 10)%N || (n =? 13)%N.

Fixpoint skip_ws (s : string) : string :=
  match s with
  | "" => ""
  | String c r => if is_ws c then skip_ws r else s
  end.

Definition hex_val (c : ascii) : option N :=
  let n := N_of_ascii c in
  if (48 <=? n)%N && (n <=? 57)%N then Some (n - 48)%N
  else if (97 <=? n)%N && (n <=? 102)%N then Some (n - 87)%N
  else if (65 <=? n)%N && (n <=? 70)%N then Some (n - 55)%N
  else None.

Definition unescape (c : ascii) : option ascii :=
  if (c =? dquote)%char then Some dquote
  else if (c =? backslash)%char then Some backslash
  else if (c =? "/")%char then Some "/"%char
  else if (c =? "b")%char then Some (ascii_of_N 8)
  else if (c =? "f")%char then Some (ascii_of_N 12)
  else if (c =? "n")%char then Some (ascii_of_N 10)
  else if (c =? "r")%char then Some (ascii_of_N 13)
  else if (c =? "t")%char then Some (ascii_of_N 9)
  else None.

Definition cons_char (c : ascii) (p : option (string * string))
    : option (string * string) :=
  match p with
  | Some (s, r) => Some (String c s, r)
  | None => None
  end.

(** The body of a string literal, after its opening quote: the decoded
    text and what follows the closing quote.  [None]: not a literal
    whose text is a [pyval] string - among them the literals with an
    escape for a code point from U+0100 on, which [loads] tells
    apart. *)
Fixpoint scan_string (s : string) : option (string * string) :=
  match s with
  | "" => None
  | String c r =>
      if (c =? dquote)%char then Some ("", r)
      else if (c =? backslash)%char then
        match r with
        | "" => None
        | String e r1 =>
            if (e =? "u")%char then
              match r1 with
              | String h1 (String h2 (String h3 (String h4 r2))) =>
                  match hex_val h1, hex_val h2, hex_val h3, hex_val h4 with
                  | Some a, Some b, Some c', Some d =>
                      let n := (((a * 16 + b) * 16 + c') * 16 + d)%N in
                      if (n <? 256)%N then cons_char (ascii_of_N n) (scan_string r2)
                      else None
                  | _, _, _, _ => None
                  end
              | _ => None
              end
            else
              match unescape e with
              | Some ch => cons_char ch (scan_string r1)
              | None => None
              end
        end
      else if (N_of_ascii c <? 32)%N then None
      else cons_char c (scan_string r)
  end.

Definition digit_val (c : ascii) : option N :=
  let n := N_of_ascii c in
  if (48 <=? n)%N && (n <=? 57)%N then Some (n - 48)%N else None.

Fixpoint scan_digits (acc : N) (s : string) : N * string :=
  match s with
  | "" => (acc, "")
  | String c r =>
      match digit_val c with
      | Some d => scan_digits (10 * acc + d)%N r
      | None => (acc, s)
      end
  end.

(** [0|[1-9][0-9]*]: a leading zero stands alone. *)
Definition scan_nat (s : string) : option (N * string) :=
  match s with
  | "" => None
  | String c r =>
      match digit_val c with
      | Some 0%N => Some (0%N, r)
      | Some _ => Some (scan_digits 0 s)
      | None => None
      end
  end.

Definition float_tail (s : string) : bool :=
  match s with
  | String c _ => (c =? ".")%char || (c =? "e")%char || (c =? "E")%char
  | "" => false
  end.

(** An integer literal.  [None]: not a number whose value is a
    [pyval] - among them the numbers with a fraction or an exponent,
    floats in Python, which [loads] tells apart. *)
Definition scan_number (s : string) : option (pyval * string) :=
  let '(neg, s1) := match s with
                    | String c r => if (c =? "-")%char then (true, r)
                                    else (false, s)
                    | "" => (false, s)
                    end in
  match scan_nat s1 with
  | Some (n, r) =>
      if float_tail r then None
      else Some (PInt (if neg : bool then - Z.of_N n else Z.of_N n), r)
  | None => None
  end.

Fixpoint strip_prefix (p s : string) : option string :=
  match p, s with
  | "", _ => Some s
  | String a p', String b s' => if (a =? b)%char then strip_prefix p' s' else None
  | String _ _, "" => None
  end.

(** [d[k] = v] on an insertion-ordered dict. *)
Fixpoint dict_set (d : list (string * pyval)) (k : string) (v : pyval)
    : list (string * pyval) :=
  match d with
  | [] => [(k, v)]
  | (k', v') :: r =>
      if String.eqb k k' then (k, v) :: r else (k', v') :: dict_set r k v
  end.

(** [dict(pairs)]: a repeated key keeps its first place and its last
    value. *)
Definition dict_of (pairs : list (string * pyval)) : list (string * pyval) :=
  foldl (λ d '(k, v), dict_set d k v) [] pairs.

(** The scanner.  [s] starts at the value; the result is the value and
    the rest of the text, [None] when there is no value of [pyval]
    there.  [fuel] bounds the nesting. *)
Fixpoint parse_value (fuel : nat) (s : string) : option (pyval * string) :=
  match fuel with
  | O => None
  | S fuel =>
      match s with
      | "" => None
      | String c r =>
          if (c =? dquote)%char then
            '(str, r') ← scan_string r; Some (PStr str, r')
          else if (c =? "{")%char then
            match skip_ws r with
            | "" => None
            | String c1 r' =>
                if (c1 =? "}")%char then Some (PDict [], r')
                else '(ms, r'') ← parse_members fuel (String c1 r');
                     Some (PDict (dict_of ms), r'')
            end
          else if (c =? "[")%char then
            match skip_ws r with
            | "" => None
            | String c1 r' =>
                if (c1 =? "]")%char then Some (PList [], r')
                else '(vs, r'') ← parse_items fuel (String c1 r');
                     Some (PList vs, r'')
            end
          else if (c =? "n")%char then
            r' ← strip_prefix "null" s; Some (PNone, r')
          else if (c =? "t")%char then
            r' ← strip_prefix "true" s; Some (PBool true, r')
          else if (c =? "f")%char then
            r' ← strip_prefix "false" s; Some (PBool false, r')
          else scan_number s
      end
  end
with parse_items (fuel : nat) (s : string) : option (list pyval * string) :=
  match fuel with
  | O => None
  | S fuel =>
      '(v, r) ← parse_value fuel s;
      match skip_ws r with
      | "" => None
      | String c r' =>
          if (c =? "]")%char then Some ([v], r')
          else if (c =? ",")%char then
            '(vs, r'') ← parse_items fuel (skip_ws r'); Some (v :: vs, r'')
          else None
      end
  end
with parse_members (fuel : nat) (s : string)
    : option (list (string * pyval) * string) :=
  match fuel with
  | O => None
  | S fuel =>
      match s with
      | "" => None
      | String c r =>
          if (c =? dquote)%char then
            '(k, r1) ← scan_string r;
            match skip_ws r1 with
            | "" => None
            | String c2 r2 =>
                if (c2 =? ":")%char then
                  '(v, r3) ← parse_value fuel (skip_ws r2);
                  match skip_ws r3 with
                  | "" => None
                  | String c4 r4 =>
                      if (c4 =? "}")%char then Some ([(k, v)], r4)
                      else if (c4 =? ",")%char then
                        '(ms, r5) ← parse_members fuel (skip_ws r4);
                        Some ((k, v) :: ms, r5)
                      else None
                  end
                else None
            end
          else None
      end
  end.

(** The value of a text that is JSON for a [pyval], [None] for every
    other text.  Each nesting level costs one character and two units
    of fuel. *)
Definition read (s : string) : option pyval :=
  match parse_value (2 * String.length s + 2) (skip_ws s) with
  | Some (v, r) => match skip_ws r with "" => Some v | _ => None end
  | None => None
  end.

(** What JSON has and [read] does not know: a number with a fraction or
    an exponent (a digit followed by a point or an [e]), the literals
    [NaN], [Infinity] and [-Infinity], and an escape [\uXXXX] for a code
    point from U+0100 on.  [beyond s] holds when [s] has the makings of
    one of them, anywhere; a text without any is JSON only if [read]
    accepts it. *)
Definition is_digit (c : ascii) : bool :=
  let n := N_of_ascii c in (48 <=? n)%N && (n <=? 57)%N.

Definition high_escape (s : string) : bool :=
  match s with
  | String u (String a (String b _)) =>
      (u =? "u")%char && negb ((a =? "0")%char && (b =? "0")%char)
  | String u _ => (u =? "u")%char
  | "" => false
  end.

Fixpoint beyond (s : string) : bool :=
  match s with
  | "" => false
  | String c r =>
      (is_digit c && float_tail r)
      || ((c =? backslash)%char && high_escape r)
      || startswith s "NaN" || startswith s "Infinity"
      || beyond r
  end.

(** [json.loads(s)]: the value, [json.JSONDecodeError], or a text whose
    value, if it has one, is outside [pyval]. *)
Inductive loaded : Type :=
| Value (v : pyval)
| Invalid
| Beyond.

Definition loads (s : string) : loaded :=
  match read s with
  | Some v => Value v
  | None => if beyond s then Beyond else Invalid
  end.

End json.

(* ===================================================================== *)
(** * [src/external/gov/client.py]: class [DataGovClient] *)
(* ===================================================================== *)

Module DataGovClient.

(** What an attempt can raise.  [httpx.HTTPError] is the base class of
    the first three; [OtherError] is anything outside it. *)
Inductive exn : Type :=
| HTTPStatusError (status_code : Z)
| TransportError (detail : string)
| RequestError (message : string)
| JSONDecodeError
| OtherError (name : string).

(** [except (httpx.HTTPError, httpx.NetworkError, httpx.TimeoutException)]:
    the last two are transport errors, themselves [httpx.HTTPError]s. *)
Definition is_HTTPError (e : exn) : bool :=
  match e with
  | HTTPStatusError _ | TransportError _ | RequestError _ => true
  | JSONDecodeError | OtherError _ => false
  end.

(** A response: its status and its body as text, with code points
    below U+0100 as every [str] here. *)
Record Response : Type := mkResponse { status_code : Z; text : string }.

(** [response.json()]. *)
Definition Response_json {S} (r : Response) : M S exn pyval :=
  match json.loads (text r) with
  | json.Value v => mret v
  | json.Invalid => raise JSONDecodeError
  | json.Beyond => unmodelled
  end.

(** What lines 112-113 yield for one attempt: the response, once
    [raise_for_status] has let it through, or the exception raised by
    the transport or by [raise_for_status]. *)
Inductive attempt : Type :=
| Succeeds (r : Response)
| Fails (e : exn).

(** What the client does to the outside: requests sent, with the query
    parameters as they stand in the dict at that moment, and sleeps. *)
Inductive event : Type :=
| Request (method url : string) (params : gmap string pyval)
    (body : option pyval)
| Sleep (delay : Z).

(** The fields set by [__init__]; [self.client] is part of the state. *)
Record config : Type := mkConfig {
  base_url : string;
  api_key : string;
  max_retries : Z;
  retry_delay : Z }.

(** The mutable world of a call: whether [self.client] holds a session,
    the dict objects by address, how many attempts the upstream has
    seen, and the events so far. *)
Record state : Type := mkState {
  client : bool;
  heap : gmap nat (gmap string pyval);
  sent : nat;
  trace : list event }.

Definition set_client (b : bool) (σ : state) : state :=
  mkState b (heap σ) (sent σ) (trace σ).
Definition set_heap (h : gmap nat (gmap string pyval)) (σ : state) : state :=
  mkState (client σ) h (sent σ) (trace σ).
Definition emit (ev : event) (σ : state) : state :=
  mkState (client σ) (heap σ) (sent σ) (trace σ ++ [ev]).
Definition count_attempt (σ : state) : state :=
  mkState (client σ) (heap σ) (S (sent σ)) (trace σ).

(** The keyword arguments handed to the request method: [params] is the
    dict object itself, [json] the body when there is one. *)
Record kwargs : Type := mkKwargs { kw_params : nat; kw_json : option pyval }.

Definition lower_char (c : ascii) : ascii :=
  let n := N_of_ascii c in
  if (65 <=? n)%N && (n <=? 90)%N then ascii_of_N (n + 32) else c.
Fixpoint lower (s : string) : string :=
  match s with
  | "" => ""
  | String c r => String (lower_char c) (lower r)
  end.

(** Allocation of a dict, [d[k] = v] and a read, on the heap. *)
Definition new_dict (d : gmap string pyval) : M state exn nat :=
  λ σ, let l := fresh (dom (heap σ)) in
       (Returns l, set_heap (<[l := d]> (heap σ)) σ).
Definition dict_setitem (l : nat) (k : string) (v : pyval) : M state exn unit :=
  λ σ, (Returns tt,
        set_heap (<[l := <[k := v]> (default ∅ (heap σ !! l))]> (heap σ)) σ).
Definition read_dict (l : nat) : M state exn (gmap string pyval) :=
  gets (λ σ, default ∅ (heap σ !! l)).

Section client.

(** [urllib.parse.urljoin], and the upstream provider: what the
    [i]-th attempt it sees comes to. *)
Variable urljoin : string → string → string.
Variable upstream : nat → attempt.

Variable self : config.

Definition _ensure_client : M state exn unit :=
  modify (λ σ, if client σ then σ else set_client true σ).

Definition close : M state exn unit :=
  modify (λ σ, if client σ then set_client false σ else σ).

(** Entering and leaving [async with]: the session is created if
    there is none, and closed if there is one. *)
Definition __aenter__ : M state exn unit :=
  modify (λ σ, if client σ then σ else set_client true σ).

Definition __aexit__ : M state exn unit :=
  modify (λ σ, if client σ then set_client false σ else σ).

Definition _build_url (endpoint : string) : string :=
  urljoin (base_url self) endpoint.

(** [params = params or {}; params['api-key'] = self.api_key]. *)
Definition _add_api_key (params : option nat) : M state exn nat :=
  params ← match params with
           | Some l =>
               d ← read_dict l;
               if truthy d then mret l else new_dict ∅
           | None => new_dict ∅
           end;
  dict_setitem params "api-key" (PStr (api_key self));;
  mret params.

(** [await request_method(url, **kwargs); response.raise_for_status()]. *)
Definition request_method (method url : string) (kw : kwargs)
    : M state exn Response :=
  λ σ, let ev := Request method url (default ∅ (heap σ !! kw_params kw))
                   (kw_json kw) in
       let σ' := count_attempt (emit ev σ) in
       match upstream (sent σ) with
       | Succeeds r => (Returns r, σ')
       | Fails e => (Raises e, σ')
       end.

(** [await asyncio.sleep(delay)]. *)
Definition sleep (delay : Z) : M state exn unit :=
  λ σ, (Returns tt, emit (Sleep delay) σ).

Definition retryable_status (code : Z) : bool :=
  bool_decide (code ∈ [408; 429; 500; 502; 503; 504]).

(** [isinstance(e, httpx.HTTPStatusError) and e.response.status_code
    not in (408, 429, 500, 502, 503, 504)]. *)
Definition terminal_status (e : exn) : bool :=
  match e with
  | HTTPStatusError code => negb (retryable_status code)
  | _ => false
  end.

(** The [while retries <= self.max_retries] loop of
    [_make_request_with_retry], lines 106-136, from the values of
    [retries] and [last_exception] at the loop test. *)
Equations? retry_loop (method url : string) (kw : kwargs)
    (retries : Z) (last_exception : option exn) (σ : state)
    : outcome exn Response * state
    by wf (Z.to_nat (max_retries self + 1 - retries)) lt :=
  retry_loop method url kw retries last_exception σ
    with Z_le_dec retries (max_retries self) => {
    | right _ =>
        match last_exception with
        | Some e => (Raises e, σ)
        | None =>
            (Raises (RequestError ("Failed to make request to " +:+ url +:+
                                   " after " +:+ pretty (max_retries self) +:+
                                   " retries")), σ)
        end
    | left _ with request_method method url kw σ => {
      | (Returns response, σ1) => (Returns response, σ1)
      | (Unmodelled, σ1) => (Unmodelled, σ1)
      | (Raises e, σ1) with is_HTTPError e => {
        | false => (Raises e, σ1)
        | true with terminal_status e => {
          | true => (Raises e, σ1)
          | false with Z_lt_dec (max_retries self) (retries + 1) => {
            | left _ => (Raises e, σ1)
            | right _ =>
                retry_loop method url kw (retries + 1) (Some e)
                  (sleep (retry_delay self * 2 ^ (retries + 1 - 1)) σ1).2 } } } } }.
Proof. all: lia. Qed.

(** [method] names a request method of the session and [kw] holds what
    that method takes, as in every call of this class ([get] and
    [delete] with [params], [post] and [put] with [params] and [json]):
    line 102 looks the name up on the session, and neither the
    [AttributeError] of [getattr] for a name the session does not have
    nor the [TypeError] of a method handed a body it does not take is
    part of this definition. *)
Definition _make_request_with_retry (method url : string) (kw : kwargs)
    : M state exn Response :=
  _ensure_client;;
  retry_loop (lower method) url kw 0 None.

(** The four public operations.  [except json.JSONDecodeError] logs and
    re-raises. *)
Definition reraise_JSONDecodeError {A} (e : exn) : option (M state exn A) :=
  match e with
  | JSONDecodeError => Some (raise e)
  | _ => None
  end.

Definition get (endpoint : string) (params : option nat) : M state exn pyval :=
  params ← _add_api_key params;
  let url := _build_url endpoint in
  try_except
    (response ← _make_request_with_retry "get" url (mkKwargs params None);
     Response_json response)
    reraise_JSONDecodeError.

Definition post (endpoint : string) (data : option pyval) (params : option nat)
    : M state exn pyval :=
  params ← _add_api_key params;
  let url := _build_url endpoint in
  try_except
    (response ← _make_request_with_retry "post" url (mkKwargs params data);
     Response_json response)
    reraise_JSONDecodeError.

Definition put (endpoint : string) (data : option pyval) (params : option nat)
    : M state exn pyval :=
  params ← _add_api_key params;
  let url := _build_url endpoint in
  try_except
    (response ← _make_request_with_retry "put" url (mkKwargs params data);
     Response_json response)
    reraise_JSONDecodeError.

Definition delete (endpoint : string) (params : option nat) : M state exn pyval :=
  params ← _add_api_key params;
  let url := _build_url endpoint in
  try_except
    (response ← _make_request_with_retry "delete" url (mkKwargs params None);
     Response_json response)
    reraise_JSONDecodeError.

(** [params = query_params or {}], then [get]. *)
Definition get_agricultural_data (dataset_id : string)
    (query_params : option nat) : M state exn pyval :=
  let endpoint := "/api/datasets/" +:+ dataset_id +:+ "/data" in
  params ← match query_params with
           | Some l =>
               d ← read_dict l;
               if truthy d then mret l else new_dict ∅
           | None => new_dict ∅
           end;
  get endpoint (Some params).

(** [if value: params[key] = value], for an optional string filter. *)
Definition add_filter (key : string) (value : option string)
    (params : gmap string pyval) : gmap string pyval :=
  match value with
  | Some v => if truthy v then <[key := PStr v]> params else params
  | None => params
  end.

(** The arguments of [get_mandi_prices]. *)
Record mandi_query : Type := mkQuery {
  format : string;
  offset : Z;
  limit : Z;
  state_ : option string;
  district : option string;
  market : option string;
  commodity : option string;
  variety : option string;
  grade : option string }.

(** The dict [get_mandi_prices] builds, lines 282-300. *)
Definition mandi_params (q : mandi_query) : gmap string pyval :=
  let params : gmap string pyval :=
    <["limit" := PInt (limit q)]>
      (<["offset" := PInt (offset q)]> (<["format" := PStr (format q)]> ∅)) in
  add_filter "filters[grade]" (grade q)
    (add_filter "filters[variety]" (variety q)
      (add_filter "filters[commodity]" (commodity q)
        (add_filter "filters[market]" (market q)
          (add_filter "filters[district]" (district q)
            (add_filter "filters[state.keyword]" (state_ q) params))))).

Definition get_mandi_prices (q : mandi_query) : M state exn pyval :=
  let endpoint := "/resource/9ef84268-d588-465a-a308-a864a43d0070" in
  params ← new_dict (mandi_params q);
  get endpoint (Some params).

End client.
End DataGovClient.

(* ===================================================================== *)
(** * UTF-8, as redis-py encodes a [str] and decodes a reply *)
(* ===================================================================== *)

Module utf8.

(** Code points below U+0080 are one octet, the others of [pyval]'s
    strings (U+0080..U+00FF) two. *)
Definition encode_char (c : ascii) : string :=
  let n := N_of_ascii c in
  if (n <? 128)%N then String c ""
  else String (ascii_of_N (192 + n / 64))
         (String (ascii_of_N (128 + n mod 64)) "").

Fixpoint encode (s : string) : string :=
  match s with
  | "" => ""
  | String c r => encode_char c +:+ encode r
  end.

(** The string of octets that encode code points below U+0100 only;
    [None] for all other octets. *)
Fixpoint decode_low (b : string) : option string :=
  match b with
  | "" => Some ""
  | String c r =>
      let n := N_of_ascii c in
      if (n <? 128)%N then option_map (String c) (decode_low r)
      else if (n =? 194)%N || (n =? 195)%N then
        match r with
        | String c2 r2 =>
            let m := N_of_ascii c2 in
            if (128 <=? m)%N && (m <? 192)%N
            then option_map (String (ascii_of_N ((n - 192) * 64 + (m - 128))))
                   (decode_low r2)
            else None
        | "" => None
        end
      else None
  end.

(** Whether some octet is the first of a code point from U+0100 on:
    [0xC4] to [0xF4].  Octets without any are UTF-8 only if
    [decode_low] accepts them. *)
Fixpoint high (b : string) : bool :=
  match b with
  | "" => false
  | String c r =>
      let n := N_of_ascii c in
      ((196 <=? n)%N && (n <=? 244)%N) || high r
  end.

(** [octets.decode('utf-8')]: the string, [UnicodeDecodeError], or
    octets whose string, if they have one, is outside [pyval]. *)
Inductive decoded : Type :=
| Text (s : string)
| Undecodable
| High.

Definition decode (b : string) : decoded :=
  match decode_low b with
  | Some s => Text s
  | None => if high b then High else Undecodable
  end.

End utf8.

(* ===================================================================== *)
(** * [src/cache/redis.py]: class [RedisManager] *)
(* ===================================================================== *)

Module RedisManager.

(** The exceptions in play.  The first three are [redis.RedisError]s;
    [ConnectionError] is the builtin the [client] property raises. *)
Inductive exn : Type :=
| RedisConnectionError
| RedisResponseError (message : string)
| RedisDataError
| ConnectionError
| TypeError
| UnicodeDecodeError
| IndexError.

(** [except (redis.RedisError, ConnectionError)]. *)
Definition handled (e : exn) : bool :=
  match e with
  | RedisConnectionError | RedisResponseError _ | RedisDataError
  | ConnectionError => true
  | TypeError | UnicodeDecodeError | IndexError => false
  end.

(** ** The Redis server and the redis-py client *)

(** A key of the store: octets and the instant they expire. *)
Record entry : Type := mkEntry { payload : string; expires_at : Z }.

(** Whether [self._client] is set, whether the server answers, the
    server's clock in seconds, and its keys. *)
Record state : Type := mkState {
  _client : bool;
  reachable : bool;
  now : Z;
  db : gmap string entry }.

Definition set__client (c : bool) (σ : state) : state :=
  mkState c (reachable σ) (now σ) (db σ).
Definition set_db (d : gmap string entry) (σ : state) : state :=
  mkState (_client σ) (reachable σ) (now σ) d.
(** Time passing, and the server going away, between two calls. *)
Definition advance (seconds : Z) (σ : state) : state :=
  mkState (_client σ) (reachable σ) (now σ + seconds) (db σ).
Definition unplug (σ : state) : state :=
  mkState (_client σ) false (now σ) (db σ).

(** The octets under [key], unless expired. *)
Definition live (σ : state) (key : string) : option string :=
  match db σ !! key with
  | Some e => if now σ <? expires_at e then Some (payload e) else None
  | None => None
  end.

Inductive command : Type :=
| GET (key : string)
| SET (key value : string) (ex : Z)
| DEL (key : string)
| EXISTS (key : string)
| FLUSHDB.

Inductive reply : Type :=
| Bulk (octets : option string)
| Status_OK
| Integer (n : Z)
| Error (message : string).

Definition count_live (σ : state) (key : string) : Z :=
  match live σ key with
  | Some _ => 1
  | None => 0
  end.

(** The largest [long long] of the server. *)
Definition LLONG_MAX : Z := 9223372036854775807.

(** Whether the server takes [EX ex] at instant [now], as Redis 7
    decides it: [ex] is positive and, in milliseconds, fits a 64-bit
    signed integer, and so does the instant of expiry. *)
Definition expiry_accepted (now ex : Z) : bool :=
  (0 <? ex) && (ex <=? LLONG_MAX / 1000)
  && (0 <? (now + ex) * 1000) && ((now + ex) * 1000 <=? LLONG_MAX).

Definition server (c : command) (σ : state) : reply * state :=
  match c with
  | GET key => (Bulk (live σ key), σ)
  | SET key value ex =>
      if expiry_accepted (now σ) ex
      then (Status_OK, set_db (<[key := mkEntry value (now σ + ex)]> (db σ)) σ)
      else if (ex <? - LLONG_MAX - 1) || (LLONG_MAX <? ex)
      then (Error "ERR value is not an integer or out of range", σ)
      else (Error "ERR invalid expire time in 'set' command", σ)
  | DEL key =>
      (Integer (count_live σ key), set_db (delete key (db σ)) σ)
  | EXISTS key => (Integer (count_live σ key), σ)
  | FLUSHDB => (Status_OK, set_db ∅ σ)
  end.

Section manager.

(** The settings the module reads; [src/config/manager.py] is not part
    of the sources at hand. *)
Variable REDIS_DECODE_RESPONSES : bool.
Variable REDIS_CACHE_EXPIRATION : Z.

(** What redis-py hands back for a reply. *)
Definition parse_reply (r : reply) : outcome exn pyval :=
  match r with
  | Bulk None => Returns PNone
  | Bulk (Some octets) =>
      if REDIS_DECODE_RESPONSES
      then match utf8.decode octets with
           | utf8.Text s => Returns (PStr s)
           | utf8.Undecodable => Raises UnicodeDecodeError
           | utf8.High => Unmodelled
           end
      else Returns (PBytes octets)
  | Status_OK => Returns (PBool true)
  | Integer n => Returns (PInt n)
  | Error message => Raises (RedisResponseError message)
  end.

(** What redis-py sends for an argument. *)
Definition wire (v : pyval) : option string :=
  match v with
  | PStr s => Some (utf8.encode s)
  | PBytes b => Some b
  | PInt n => Some (pretty n)
  | _ => None
  end.

(** One command on an open connection. *)
Definition execute_command (c : command) : M state exn pyval :=
  λ σ, if reachable σ
       then let '(r, σ') := server c σ in (parse_reply r, σ')
       else (Raises RedisConnectionError, σ).

Fixpoint run_all (cs : list command) (σ : state) : list reply * state :=
  match cs with
  | [] => ([], σ)
  | c :: rest =>
      let '(r, σ1) := server c σ in
      let '(rs, σ2) := run_all rest σ1 in
      (r :: rs, σ2)
  end.

Fixpoint parse_all (rs : list reply) : outcome exn (list pyval) :=
  match rs with
  | [] => Returns []
  | r :: rest =>
      match parse_reply r with
      | Returns v =>
          match parse_all rest with
          | Returns vs => Returns (v :: vs)
          | Raises e => Raises e
          | Unmodelled => Unmodelled
          end
      | Raises e => Raises e
      | Unmodelled => Unmodelled
      end
  end.

(** [pipeline.execute()]: with nothing queued it returns an empty list
    at once, without a word to the server; otherwise the queued
    commands go in one round trip and the first failed reply is
    raised. *)
Definition pipeline_execute (cs : list command) : M state exn (list pyval) :=
  λ σ, match cs with
       | [] => (Returns [], σ)
       | _ :: _ =>
           if reachable σ
           then let '(rs, σ') := run_all cs σ in (parse_all rs, σ')
           else (Raises RedisConnectionError, σ)
       end.

(** ** The manager *)

(** [redis.Redis(...)] then [ping()]; [redis.ConnectionError] leaves
    [self._client] at [None]. *)
Definition _setup_redis_client : M state exn unit :=
  modify (λ σ, set__client (reachable σ) σ).

(** The [client] property. *)
Definition client : M state exn unit :=
  c ← gets _client;
  if c : bool then mret tt
  else _setup_redis_client;;
       c ← gets _client;
       if c : bool then mret tt else raise ConnectionError.

Definition close : M state exn unit :=
  modify (λ σ, if _client σ then set__client false σ else σ).

Definition is_str_or_bytes (v : pyval) : bool :=
  match v with
  | PStr _ | PBytes _ => true
  | _ => false
  end.

Definition json_dumps (v : pyval) : M state exn pyval :=
  match json.dumps v with
  | Some t => mret (PStr t)
  | None => raise TypeError
  end.

Definition send (v : pyval) : M state exn string :=
  match wire v with
  | Some octets => mret octets
  | None => raise RedisDataError
  end.

Definition or_default (expiration : option Z) : Z :=
  match expiration with
  | None => REDIS_CACHE_EXPIRATION
  | Some seconds => seconds
  end.

Definition set (key : string) (value : pyval) (expiration : option Z)
    : M state exn pyval :=
  try_except
    (value ← (if negb (is_str_or_bytes value) then json_dumps value
              else mret value);
     let expiration := or_default expiration in
     client;;
     octets ← send value;
     execute_command (SET key octets expiration))
    (λ e, if handled e then Some (mret (PBool false)) else None).

(** Lines 125-131 and 237-243: a [str] that starts with a brace or a
    bracket is decoded as JSON when it can be, and left as it is on
    [json.JSONDecodeError]. *)
Definition from_json_if_it_looks_like_json (value : pyval) : outcome exn pyval :=
  match value with
  | PStr s =>
      if startswith s "{" || startswith s "["
      then match json.loads s with
           | json.Value v => Returns v
           | json.Invalid => Returns value
           | json.Beyond => Unmodelled
           end
      else Returns value
  | _ => Returns value
  end.

Definition get (key : string) (default : pyval) : M state exn pyval :=
  try_except
    (client;;
     value ← execute_command (GET key);
     match value with
     | PNone => mret default
     | _ => lift (from_json_if_it_looks_like_json value)
     end)
    (λ e, if handled e then Some (mret default) else None).

Definition delete (key : string) : M state exn bool :=
  try_except
    (client;;
     n ← execute_command (DEL key);
     mret (truthy n))
    (λ e, if handled e then Some (mret false) else None).

Definition exists_ (key : string) : M state exn bool :=
  try_except
    (client;;
     n ← execute_command (EXISTS key);
     mret (truthy n))
    (λ e, if handled e then Some (mret false) else None).

Definition flush_all : M state exn bool :=
  try_except
    (client;;
     execute_command FLUSHDB;;
     mret true)
    (λ e, if handled e then Some (mret false) else None).

(** The first loop of [set_many]. *)
Fixpoint serialize_all (items : list (string * pyval))
    : M state exn (list (string * pyval)) :=
  match items with
  | [] => mret []
  | (k, v) :: rest =>
      v' ← (if negb (is_str_or_bytes v) then json_dumps v else mret v);
      rest' ← serialize_all rest;
      mret ((k, v') :: rest')
  end.

(** The second loop: one [SET] queued per item. *)
Fixpoint queue_sets (items : list (string * pyval)) (expiration : option Z)
    : M state exn (list command) :=
  match items with
  | [] => mret []
  | (k, v) :: rest =>
      octets ← send v;
      cs ← queue_sets rest expiration;
      mret (SET k octets (or_default expiration) :: cs)
  end.

Definition set_many (mapping : list (string * pyval)) (expiration : option Z)
    : M state exn bool :=
  try_except
    (serialized_mapping ← serialize_all mapping;
     client;;
     cs ← queue_sets serialized_mapping expiration;
     pipeline_execute cs;;
     mret true)
    (λ e, if handled e then Some (mret false) else None).

(** The loop over [enumerate(keys)]. *)
Fixpoint collect (values : list pyval) (i : nat) (keys : list string)
    (result : gmap string pyval) : M state exn (gmap string pyval) :=
  match keys with
  | [] => mret result
  | key :: rest =>
      match values !! i with
      | None => raise IndexError
      | Some PNone => collect values (S i) rest result
      | Some value =>
          decoded ← lift (from_json_if_it_looks_like_json value);
          collect values (S i) rest (<[key := decoded]> result)
      end
  end.

Definition get_many (keys : list string) : M state exn (gmap string pyval) :=
  try_except
    (client;;
     values ← pipeline_execute (GET <$> keys);
     collect values 0 keys ∅)
    (λ e, if handled e then Some (mret ∅) else None).

End manager.

(** [':'.join(str(p) for p in parts if p)]. *)
Definition build_key {A} `{Truthy A, PyStr A} (parts : list A) : string :=
  str_join ":" (flat_map (λ p, if truthy p then [py_str p] else []) parts).

End RedisManager.

(** The parts keys are built from: [None], a bool, an int or a str. *)
Inductive atom : Type :=
| ANone
| ABool (b : bool)
| AInt (n : Z)
| AStr (s : string).

#[global] Instance atom_truthy : Truthy atom :=
  λ a, match a with
       | ANone => false
       | ABool b => truthy b
       | AInt n => truthy n
       | AStr s => truthy s
       end.
#[global] Instance atom_str : PyStr atom :=
  λ a, match a with
       | ANone => "None"
       | ABool true => "True"
       | ABool false => "False"
       | AInt n => pretty n
       | AStr s => s
       end.

(* ===================================================================== *)
(** * The specification's vocabulary for the client *)
(* ===================================================================== *)

(** A retryable failure, in the specification's words: a transport
    failure, or an HTTP status in the retryable set. *)
Inductive retryable_error : DataGovClient.exn → Prop :=
| retryable_transport detail :
    retryable_error (DataGovClient.TransportError detail)
| retryable_code code :
    code ∈ [408; 429; 500; 502; 503; 504] →
    retryable_error (DataGovClient.HTTPStatusError code).

(** The requests and the sleeps of a run, read off its events. *)
Definition attempts (evs : list DataGovClient.event) : nat :=
  length (List.filter (λ ev, match ev with
                             | DataGovClient.Request _ _ _ _ => true
                             | DataGovClient.Sleep _ => false
                             end) evs).
Definition sleeps (evs : list DataGovClient.event) : list Z :=
  omap (λ ev, match ev with
              | DataGovClient.Sleep d => Some d
              | DataGovClient.Request _ _ _ _ => None
              end) evs.

(** The request one attempt sends, and the state once it is sent. *)
Definition request_event (method url : string) (kw : DataGovClient.kwargs)
    (σ : DataGovClient.state) : DataGovClient.event :=
  DataGovClient.Request method url
    (default ∅ (DataGovClient.heap σ !! DataGovClient.kw_params kw))
    (DataGovClient.kw_json kw).
Definition attempted (method url : string) (kw : DataGovClient.kwargs)
    (σ : DataGovClient.state) : DataGovClient.state :=
  DataGovClient.count_attempt (DataGovClient.emit (request_event method url kw σ) σ).

(** [n] retries numbered from [k]: before each, a sleep of
    [base * 2^(k-1)] seconds. *)
Fixpoint backoff_events (req : DataGovClient.event) (base k : Z) (n : nat)
    : list DataGovClient.event :=
  match n with
  | O => []
  | S n => DataGovClient.Sleep (base * 2 ^ (k - 1)) :: req
           :: backoff_events req base (k + 1) n
  end.

(** The error taxonomy of the specification (section 7), for what the
    caller of the retrying primitive receives. *)
Inductive surfaced_error : Type :=
| SpecTransportError
| UpstreamStatusError (code : Z)
| DecodeError
| RetriesExhausted (last : surfaced_error)
| Unclassified.

(** What the specification says of an exhausted call: the caller
    receives [RetriesExhausted] wrapping the [last] underlying error. *)
Definition wrapped_as_exhausted {A}
    (surfaced : DataGovClient.exn → surfaced_error)
    (res : outcome DataGovClient.exn A) (last : DataGovClient.exn) : Prop :=
  ∃ e, res = Raises e ∧ surfaced e = RetriesExhausted (surfaced last).

(** The kind, in that taxonomy, of an exception object the client
    raises: the class of the object is all the caller can observe. *)
Definition surfaced (e : DataGovClient.exn) : surfaced_error :=
  match e with
  | DataGovClient.HTTPStatusError code => UpstreamStatusError code
  | DataGovClient.TransportError _ => SpecTransportError
  | DataGovClient.RequestError _ => Unclassified
  | DataGovClient.JSONDecodeError => DecodeError
  | DataGovClient.OtherError _ => Unclassified
  end.

(** The shape the four public operations share. *)
Definition public_operation (urljoin : string → string → string)
    (upstream : nat → DataGovClient.attempt) (self : DataGovClient.config)
    (method : string) (data : option pyval) (endpoint : string)
    (params : option nat) : M DataGovClient.state DataGovClient.exn pyval :=
  params ← DataGovClient._add_api_key self params;
  try_except
    (response ← DataGovClient._make_request_with_retry upstream self method
                  (DataGovClient._build_url urljoin self endpoint)
                  (DataGovClient.mkKwargs params data);
     DataGovClient.Response_json response)
    DataGovClient.reraise_JSONDecodeError.

(** An event that, if it is a request, carries [key] under ['api-key']. *)
Definition carries_api_key (key : string) (ev : DataGovClient.event) : Prop :=
  match ev with
  | DataGovClient.Request _ _ params _ => params !! "api-key" = Some (PStr key)
  | DataGovClient.Sleep _ => True
  end.

(** The dict object at address [l] was given [key] in place between
    [σ] and [σ']: same object, same other items. *)
Definition keyed_in_place (key : string) (l : nat)
    (σ σ' : DataGovClient.state) : Prop :=
  ∃ d, DataGovClient.heap σ !! l = Some d ∧
       DataGovClient.heap σ' !! l = Some (<["api-key" := PStr key]> d).

(** The dict that ends up holding the key, and what it held before. *)
Definition params_object (params : option nat) (σ : DataGovClient.state) : nat :=
  match params with
  | Some l => if truthy (default ∅ (DataGovClient.heap σ !! l)) then l
              else fresh (dom (DataGovClient.heap σ))
  | None => fresh (dom (DataGovClient.heap σ))
  end.
Definition params_before (params : option nat) (σ : DataGovClient.state)
    : gmap string pyval :=
  match params with
  | Some l => default ∅ (DataGovClient.heap σ !! l)
  | None => ∅
  end.

(** The six filters of the mandi-price helper, each with the query key
    the specification gives it. *)
Definition filter_keys : list (string * (DataGovClient.mandi_query → option string)) :=
  [("filters[state.keyword]", DataGovClient.state_);
   ("filters[district]", DataGovClient.district);
   ("filters[market]", DataGovClient.market);
   ("filters[commodity]", DataGovClient.commodity);
   ("filters[variety]", DataGovClient.variety);
   ("filters[grade]", DataGovClient.grade)].

(** What a filter contributes under its key: its value when present and
    non-empty, nothing otherwise. *)
Definition contribution (value : option string) : option pyval :=
  match value with
  | Some "" => None
  | Some v => Some (PStr v)
  | None => None
  end.

(** What an attempt comes to for the caller when it is the last one. *)
Definition attempt_outcome (a : DataGovClient.attempt)
    : outcome DataGovClient.exn DataGovClient.Response :=
  match a with
  | DataGovClient.Succeeds r => Returns r
  | DataGovClient.Fails e => Raises e
  end.

(** An attempt the loop answers with another one, budget permitting:
    a failure the [except] clause names and does not re-raise. *)
Definition retried (a : DataGovClient.attempt) : bool :=
  match a with
  | DataGovClient.Succeeds _ => false
  | DataGovClient.Fails e =>
      DataGovClient.is_HTTPError e && negb (DataGovClient.terminal_status e)
  end.

(* ===================================================================== *)
(** * The specification's vocabulary for the cache *)
(* ===================================================================== *)

(** ** JSON texts *)

(** What may follow a value inside a text: nothing, or the comma or
    the bracket that closes it. *)
Definition delimited (rest : string) : Prop :=
  match rest with
  | "" => True
  | String c _ => c = ","%char ∨ c = "]"%char ∨ c = "}"%char
  end.

(** The fuel the scanner needs for a value. *)
Fixpoint weight (v : pyval) : nat :=
  match v with
  | PList l => S (list_sum (map (λ x, S (weight x)) l))
  | PDict d => S (list_sum (map (λ '(_, x), S (weight x)) d))
  | _ => 1
  end.

(** No dict of the value, at any depth, has a key twice: true of every
    Python dict. *)
Fixpoint unique_keys (v : pyval) : bool :=
  match v with
  | PList l => forallb unique_keys l
  | PDict d => bool_decide (NoDup d.*1) && forallb (λ '(_, x), unique_keys x) d
  | _ => true
  end.

(** The first character of an encoded value: never a blank, never a
    closing bracket. *)
Definition opens_value (t : string) : Prop :=
  ∃ c r, t = String c r ∧ json.is_ws c = false ∧
         (c =? "]")%char = false ∧ (c =? "}")%char = false.

(** What the induction shows of one value. *)
Definition reads_back (v : pyval) : Prop :=
  json.serializable v = true → unique_keys v = true →
  ∀ fuel rest, (weight v ≤ fuel)%nat → delimited rest →
               json.parse_value fuel (json.encode v +:+ rest) = Some (v, rest).

(** [s.split(sep)] for a one-character separator: the inverse the
    specification has in mind when it says the parts are joined in
    their order. *)
Fixpoint split_on (sep : ascii) (s : string) : list string :=
  match s with
  | "" => [""]
  | String c r =>
      if (c =? sep)%char then "" :: split_on sep r
      else match split_on sep r with
           | h :: t => String c h :: t
           | [] => [String c ""]
           end
  end.

Fixpoint has_char (sep : ascii) (s : string) : bool :=
  match s with
  | "" => false
  | String c r => (c =? sep)%char || has_char sep r
  end.

(** The string forms of the non-falsy parts, in their order. *)
Definition kept_parts {A} `{Truthy A, PyStr A} (parts : list A) : list string :=
  py_str <$> List.filter truthy parts.

(** What [set] stores for a value it can serialize: the value itself
    when it is a [str] or [bytes], its JSON text otherwise. *)
Definition stored_form (value : pyval) : option pyval :=
  if RedisManager.is_str_or_bytes value then Some value
  else PStr <$> json.dumps value.

(** The same for every item of a mapping given to [set_many]. *)
Definition stored_items (mapping : list (string * pyval))
    : option (list (string * pyval)) :=
  mapM (λ '(k, v), pair k <$> stored_form v) mapping.

(** What [get] and [get_many] make of the octets under a live key. *)
Definition read_back (decode_responses : bool) (octets : string)
    : outcome RedisManager.exn pyval :=
  match RedisManager.parse_reply decode_responses (RedisManager.Bulk (Some octets)) with
  | Returns value => RedisManager.from_json_if_it_looks_like_json value
  | Raises e => Raises e
  | Unmodelled => Unmodelled
  end.

(** Octets the client hands back as a value: any, when replies stay
    [bytes]; when replies are decoded, those that are UTF-8 for a text
    with code points below U+0100 which, if it starts like a JSON
    object or array, is not JSON with a float or a code point from
    U+0100 on. *)
Definition readable (decode_responses : bool) (octets : string) : Prop :=
  ∃ value, read_back decode_responses octets = Returns value.

(** [set(key, value, expiration)], then [get(key, default)] a number of
    seconds later: what the second call comes to. *)
Definition set_then_get (decode_responses : bool) (default_ttl : Z)
    (key : string) (value : pyval) (expiration : option Z) (default : pyval)
    (seconds : Z) (σ : RedisManager.state) : outcome RedisManager.exn pyval :=
  (RedisManager.get decode_responses key default
     (RedisManager.advance seconds
        (RedisManager.set decode_responses default_ttl key value expiration σ).2)).1.

Definition is_container (v : pyval) : bool :=
  match v with
  | PList _ | PDict _ => true
  | _ => false
  end.

Definition is_json_scalar (v : pyval) : bool :=
  match v with
  | PNone | PBool _ | PInt _ => true
  | _ => false
  end.

(* ===================================================================== *)
(** * [src/api/routes/mandi.py]: the route [get_mandi_prices] *)
(* ===================================================================== *)

Module mandi.

(** What the handler can raise: the [HTTPException] it builds, or an
    exception that [except Exception] does not catch. *)
Inductive exn : Type :=
| HTTPException (status_code : Z) (detail : string)
| Propagated (e : DataGovClient.exn).

(** Whether an exception of the client derives from [Exception]: all do
    but the few that derive from [BaseException] alone. *)
Definition is_Exception (e : DataGovClient.exn) : bool :=
  match e with
  | DataGovClient.OtherError name =>
      negb (bool_decide (name ∈ ["CancelledError"; "KeyboardInterrupt";
                                 "SystemExit"; "GeneratorExit"]))
  | _ => true
  end.

Section route.

Variable urljoin : string → string → string.
Variable upstream : nat → DataGovClient.attempt.
(** The two settings [DataGovClient.__init__] reads, and [str(e)]. *)
Variable DATA_GOV_URL : string.
Variable DATA_GOV_API_KEY : string.
Variable exn_str : DataGovClient.exn → string.

(** [DataGovClient()]: the defaults of [__init__]. *)
Definition new_client : DataGovClient.config :=
  DataGovClient.mkConfig DATA_GOV_URL DATA_GOV_API_KEY 3 1.

(** The body of the handler, once the framework has resolved the user
    and the query.  The client object is new, so it holds no session. *)
Definition get_mandi_prices (q : DataGovClient.mandi_query)
    (σ : DataGovClient.state)
    : outcome exn pyval * DataGovClient.state :=
  let client := new_client in
  let σ0 := DataGovClient.set_client false σ in
  let σ1 := (DataGovClient.__aenter__ σ0).2 in
  let '(res, σ2) :=
    DataGovClient.get_mandi_prices urljoin upstream client q σ1 in
  let σ3 := (DataGovClient.__aexit__ σ2).2 in
  match res with
  | Returns response => (Returns response, σ3)
  | Raises e =>
      if is_Exception e
      then (Raises (HTTPException 500
                      ("Failed to fetch mandi prices: " +:+ exn_str e)), σ3)
      else (Raises (Propagated e), σ3)
  | Unmodelled => (Unmodelled, σ3)
  end.

End route.
End mandi.

(* ===================================================================== *)
(** * Further vocabulary: outcomes of calls and contents of the store *)
(* ===================================================================== *)

(** What a public operation makes of the attempt that ends the loop:
    its body decoded, or its error; nothing is stated for a body that
    may be JSON with a float or a code point from U+0100 on. *)
Definition decoded_outcome (a : DataGovClient.attempt)
    : outcome DataGovClient.exn pyval :=
  match a with
  | DataGovClient.Succeeds r =>
      match json.loads (DataGovClient.text r) with
      | json.Value v => Returns v
      | json.Invalid => Raises DataGovClient.JSONDecodeError
      | json.Beyond => Unmodelled
      end
  | DataGovClient.Fails e => Raises e
  end.

(** The request methods of an [httpx] session: the names line 102 of
    the client finds on it and calls with a URL; and those among them
    that take a [json] body. *)
Definition session_methods : list string :=
  ["get"; "options"; "head"; "post"; "put"; "patch"; "delete"].
Definition body_methods : list string := ["post"; "put"; "patch"].

(** A call the session has a method for, with keyword arguments that
    method takes. *)
Definition session_call (method : string) (kw : DataGovClient.kwargs) : Prop :=
  DataGovClient.lower method ∈ session_methods ∧
  (is_Some (DataGovClient.kw_json kw) →
   DataGovClient.lower method ∈ body_methods).

(** The events of a call that made [j] retries. *)
Definition call_events (req : DataGovClient.event) (base : Z) (j : nat)
    : list DataGovClient.event :=
  req :: backoff_events req base 1 j.


(** The octets [set] sends for a value: those of its stored form. *)
Definition sent_octets (value : pyval) : option string :=
  stored_form value ≫= RedisManager.wire.

(** One [set] per item of a mapping, in order: the store afterwards. *)
Definition set_each (decode_responses : bool) (default_ttl : Z)
    (mapping : list (string * pyval)) (expiration : option Z)
    (σ : RedisManager.state) : RedisManager.state :=
  foldl (λ s '(k, v),
           (RedisManager.set decode_responses default_ttl k v expiration s).2)
    σ mapping.

(** Two states of the manager with the same store behind them. *)
Definition same_store (σ σ' : RedisManager.state) : Prop :=
  RedisManager.reachable σ = RedisManager.reachable σ' ∧
  RedisManager.now σ = RedisManager.now σ' ∧
  RedisManager.db σ = RedisManager.db σ'.

(** The keys of a store after the items of a mapping have been written
    in order at instant [now] with [ttl] seconds to live. *)
Definition write_all (now ttl : Z) (mapping : list (string * pyval))
    (d : gmap string RedisManager.entry) : gmap string RedisManager.entry :=
  foldl (λ d '(k, v),
           match sent_octets v with
           | Some octets => <[k := RedisManager.mkEntry octets (now + ttl)]> d
           | None => d
           end)
    d mapping.

(** What a read hands back for [key]: the value under it, when the key
    is live and its octets can be read. *)
Definition cached (decode_responses : bool) (σ : RedisManager.state)
    (key : string) : option pyval :=
  octets ← RedisManager.live σ key;
  match read_back decode_responses octets with
  | Returns value => Some value
  | Raises _ | Unmodelled => None
  end.

(* ===================================================================== *)
(** * Concrete clients, upstreams and stores *)
(* ===================================================================== *)

(** An upstream that answers every attempt with the same status. *)
Definition always_status (code : Z) : nat → DataGovClient.attempt :=
  λ _, DataGovClient.Fails (DataGovClient.HTTPStatusError code).

(** An upstream that is unavailable once, then answers an empty object. *)
Definition busy_once : nat → DataGovClient.attempt :=
  λ i, match i with
       | O => DataGovClient.Fails (DataGovClient.HTTPStatusError 503)
       | S _ => DataGovClient.Succeeds (DataGovClient.mkResponse 200 "{}")
       end.

(** A client with the defaults of [__init__]: three retries, one second. *)
Definition client_3_1 : DataGovClient.config :=
  DataGovClient.mkConfig "https://api.data.gov.in" "KEY" 3 1.

(** The world before any call, and a request with no body. *)
Definition fresh_state : DataGovClient.state :=
  DataGovClient.mkState false ∅ 0 [].
Definition no_kwargs : DataGovClient.kwargs := DataGovClient.mkKwargs 0 None.

(** A caller that holds one dict, at address 7. *)
Definition caller_state (d : gmap string pyval) : DataGovClient.state :=
  DataGovClient.mkState false {[ 7%nat := d ]} 0 [].

(** The specification's end-to-end query: Punjab wheat, five records,
    with an empty [market] filter besides. *)
Definition punjab_wheat : DataGovClient.mandi_query :=
  DataGovClient.mkQuery "json" 0 5 (Some "Punjab") None (Some "") (Some "Wheat")
    None None.

(** A reachable store with no key, and one with [k1] and [k3] live and
    [k4] expired. *)
Definition empty_store : RedisManager.state :=
  RedisManager.mkState false true 0 ∅.
Definition three_keys_store : RedisManager.state :=
  RedisManager.mkState true true 100
    {[ "k1" := RedisManager.mkEntry "v1" 200;
       "k3" := RedisManager.mkEntry "[1, 2]" 200;
       "k4" := RedisManager.mkEntry "gone" 50 ]}.

(* ===================================================================== *)
(** * Properties *)
(* ===================================================================== *)

(** ** The JSON codec: [loads] after [dumps] *)

Example dumps_nested :
  json.dumps (PDict [("a", PInt 1); ("b", PList [PStr "x"; PNone; PBool true; PInt (-20)])])
  = Some ("{" +:+ json.encode_str "a" +:+ ": 1, " +:+ json.encode_str "b" +:+ ": ["
          +:+ json.encode_str "x" +:+ ", null, true, -20]}").
Proof. vm_compute. reflexivity. Qed.

Example loads_blanks :
  json.loads " [1, [], {}, [ -2 ,3 ] ] "
  = json.Value (PList [PInt 1; PList []; PDict []; PList [PInt (-2); PInt 3]]).
Proof. vm_compute. reflexivity. Qed.

Example loads_refuses :
  json.loads "[1, 2" = json.Invalid ∧ json.loads "[1,]" = json.Invalid ∧
  json.loads "01" = json.Invalid ∧ json.loads "[1] x" = json.Invalid ∧
  json.loads "{1: 2}" = json.Invalid ∧ json.loads "" = json.Invalid.
Proof. vm_compute. repeat split. Qed.

(** Texts that are JSON in Python, with a value [pyval] does not have,
    and texts that have the makings of one: nothing is stated. *)
Example loads_beyond :
  json.loads "[1.5]" = json.Beyond ∧
  json.loads ("{" +:+ json.encode_str "total" +:+ ": 1e3}") = json.Beyond ∧
  json.loads "[NaN]" = json.Beyond ∧ json.loads "-Infinity" = json.Beyond ∧
  json.loads (String json.dquote (String json.backslash "u0100"
                                    +:+ String json.dquote "")) = json.Beyond ∧
  json.loads "[1.]" = json.Beyond.
Proof. vm_compute. repeat split. Qed.

Section json_strings.
Import json.

Lemma app_cons_s x (a b : string) : String x a +:+ b = String x (a +:+ b).
Proof. reflexivity. Qed.

Lemma app_assoc_s (a b c : string) : (a +:+ b) +:+ c = a +:+ (b +:+ c).
Proof. induction a as [|x a IH]; [done|]. by rewrite !app_cons_s, IH. Qed.

Lemma length_app_s (a b : string) :
  String.length (a +:+ b) = (String.length a + String.length b)%nat.
Proof.
  induction a as [|x a IH]; [done|]. rewrite app_cons_s. simpl. by rewrite IH.
Qed.

Lemma scan_string_escape_char c r :
  scan_string (escape_char c +:+ r) = cons_char c (scan_string r).
Proof. destruct c as [[] [] [] [] [] [] [] []]; reflexivity. Qed.

Lemma scan_string_escape s rest :
  scan_string (escape s +:+ String dquote rest) = Some (s, rest).
Proof.
  induction s as [|c s IH]; [reflexivity|].
  change (escape (String c s)) with (escape_char c +:+ escape s).
  rewrite app_assoc_s, scan_string_escape_char, IH. reflexivity.
Qed.

Lemma scan_string_encode_str s rest :
  ∃ r, encode_str s +:+ rest = String dquote r ∧ scan_string r = Some (s, rest).
Proof.
  exists (escape s +:+ String dquote rest). split.
  - unfold encode_str. by rewrite app_cons_s, app_assoc_s.
  - apply scan_string_escape.
Qed.

End json_strings.

Section json_numbers.
Import json.

Lemma digit_val_pretty_N_char d :
  (d < 10)%N → digit_val (pretty_N_char d) = Some d.
Proof.
  intros Hd. destruct d as [|p]; [reflexivity|].
  do 4 (destruct p as [p|p|]; try reflexivity; try lia).
Qed.

Lemma scan_digits_pretty_N_go x :
  ∀ s, (0 < x)%N → scan_digits 0 (pretty_N_go x s) = scan_digits x s.
Proof.
  induction (N.lt_wf_0 x) as [x _ IH]. intros s Hx.
  rewrite pretty_N_go_step by done.
  assert (Hmod : (x `mod` 10 < 10)%N) by (apply N.mod_lt; lia).
  destruct (decide (x `div` 10 = 0)%N) as [Hz|Hnz].
  - rewrite Hz, pretty_N_go_0. simpl. rewrite digit_val_pretty_N_char by done.
    f_equal. apply N.div_small_iff in Hz; [|lia].
    rewrite N.mod_small by done. lia.
  - rewrite IH; [|apply N.div_lt; lia|by apply N.neq_0_lt_0].
    simpl. rewrite digit_val_pretty_N_char by done. f_equal.
    pose proof (N.div_mod x 10). lia.
Qed.

Lemma pretty_N_go_head x :
  ∀ s, (0 < x)%N →
       ∃ c r d, pretty_N_go x s = String c r ∧ digit_val c = Some d ∧ d ≠ 0%N.
Proof.
  induction (N.lt_wf_0 x) as [x _ IH]. intros s Hx.
  rewrite pretty_N_go_step by done.
  assert (Hmod : (x `mod` 10 < 10)%N) by (apply N.mod_lt; lia).
  destruct (decide (x `div` 10 = 0)%N) as [Hz|Hnz].
  - rewrite Hz, pretty_N_go_0. eexists _, _, _. split; [done|].
    split; [by apply digit_val_pretty_N_char|].
    apply N.div_small_iff in Hz; [|lia]. rewrite N.mod_small by done. lia.
  - apply IH; [apply N.div_lt; lia|by apply N.neq_0_lt_0].
Qed.

Lemma pretty_N_go_app x :
  ∀ s rest, pretty_N_go x s +:+ rest = pretty_N_go x (s +:+ rest).
Proof.
  induction (N.lt_wf_0 x) as [x _ IH]. intros s rest.
  destruct (decide (x = 0)%N) as [->|Hx]; [by rewrite !pretty_N_go_0|].
  rewrite (pretty_N_go_step x s), (pretty_N_go_step x (s +:+ rest)) by lia.
  rewrite IH by (apply N.div_lt; lia). reflexivity.
Qed.

Lemma delimited_not_digit c rest :
  delimited (String c rest) →
  digit_val c = None ∧ float_tail (String c rest) = false ∧ is_ws c = false.
Proof. intros [-> | [-> | ->]]; done. Qed.

Lemma scan_digits_stop acc rest :
  delimited rest → scan_digits acc rest = (acc, rest).
Proof.
  destruct rest as [|c rest]; [done|].
  intros (Hd & _ & _)%delimited_not_digit. simpl. by rewrite Hd.
Qed.

Lemma float_tail_delimited rest : delimited rest → float_tail rest = false.
Proof.
  destruct rest as [|c rest]; [done|]. by intros (_ & Hf & _)%delimited_not_digit.
Qed.

Lemma scan_nat_pretty (x : N) rest :
  delimited rest → scan_nat (pretty x +:+ rest) = Some (x, rest).
Proof.
  intros Hrest. unfold pretty, pretty_N.
  destruct (decide (x = 0)%N) as [->|Hx]; [reflexivity|].
  rewrite pretty_N_go_app.
  destruct (pretty_N_go_head x ("" +:+ rest)) as (c & r & d & Heq & Hc & Hd); [lia|].
  unfold scan_nat. rewrite Heq, Hc.
  destruct d as [|p]; [done|].
  rewrite <- Heq, scan_digits_pretty_N_go by lia.
  by rewrite scan_digits_stop.
Qed.

Lemma pretty_N_head_digit (x : N) rest :
  ∃ c r d, pretty x +:+ rest = String c r ∧ digit_val c = Some d.
Proof.
  unfold pretty, pretty_N.
  destruct (decide (x = 0)%N) as [->|Hx]; [by eexists _, _, _|].
  rewrite pretty_N_go_app.
  destruct (pretty_N_go_head x ("" +:+ rest)) as (c & r & d & Heq & Hc & Hd); [lia|].
  by eexists _, _, _.
Qed.

Lemma digit_not_minus c d : digit_val c = Some d → (c =? "-")%char = false.
Proof.
  intros Hc. destruct (Ascii.eqb_spec c "-") as [->|]; [done|done].
Qed.

Lemma scan_number_neg r :
  scan_number (String "-" r)
  = match scan_nat r with
    | Some (n, r') =>
        if float_tail r' then None else Some (PInt (- Z.of_N n), r')
    | None => None
    end.
Proof. reflexivity. Qed.

Lemma scan_number_nonneg c r :
  (c =? "-")%char = false →
  scan_number (String c r)
  = match scan_nat (String c r) with
    | Some (n, r') =>
        if float_tail r' then None else Some (PInt (Z.of_N n), r')
    | None => None
    end.
Proof. intros Hc. unfold scan_number. by rewrite Hc. Qed.

Lemma scan_number_pretty (n : Z) rest :
  delimited rest → scan_number (pretty n +:+ rest) = Some (PInt n, rest).
Proof.
  intros Hrest.
  destruct n as [|p|p]; unfold pretty, pretty_Z.
  - change ("0" +:+ rest) with (String "0" rest).
    rewrite scan_number_nonneg by done. simpl.
    by rewrite float_tail_delimited.
  - change (pretty p) with (pretty (Npos p)).
    destruct (pretty_N_head_digit (Npos p) rest) as (c & r & d & Heq & Hc).
    rewrite Heq. rewrite scan_number_nonneg by (by eapply digit_not_minus).
    rewrite <- Heq.
    rewrite scan_nat_pretty by done. by rewrite float_tail_delimited.
  - change (pretty p) with (pretty (Npos p)).
    rewrite app_assoc_s. change ("-" +:+ pretty (N.pos p) +:+ rest)
      with (String "-" (pretty (N.pos p) +:+ rest)).
    rewrite scan_number_neg.
    rewrite scan_nat_pretty by done. by rewrite float_tail_delimited.
Qed.

(** A text that starts with a digit or a minus sign is read as a
    number. *)
Lemma parse_value_number fuel c r :
  is_Some (digit_val c) ∨ c = "-"%char →
  parse_value (S fuel) (String c r) = scan_number (String c r).
Proof.
  intros Hc.
  destruct c as [[] [] [] [] [] [] [] []];
    first [ reflexivity
          | exfalso; destruct Hc as [[d Hd]|Hd]; discriminate Hd ].
Qed.

Lemma pretty_Z_head (n : Z) rest :
  ∃ c r, pretty n +:+ rest = String c r ∧
         (is_Some (digit_val c) ∨ c = "-"%char).
Proof.
  destruct n as [|p|p]; unfold pretty, pretty_Z.
  - eexists _, _. split; [reflexivity|]. left. by eexists.
  - change (pretty p) with (pretty (Npos p)).
    destruct (pretty_N_head_digit (Npos p) rest) as (c & r & d & Heq & Hc).
    exists c, r. split; [done|]. left. by eexists.
  - eexists _, _. rewrite app_assoc_s. split; [reflexivity|]. by right.
Qed.

Lemma parse_value_int fuel (n : Z) rest :
  delimited rest →
  parse_value (S fuel) (pretty n +:+ rest) = Some (PInt n, rest).
Proof.
  intros Hrest. destruct (pretty_Z_head n rest) as (c & r & Heq & Hc).
  rewrite Heq, parse_value_number by done. rewrite <- Heq.
  by apply scan_number_pretty.
Qed.

End json_numbers.

Section json_round_trip.
Import json.

Lemma skip_ws_head c r : is_ws c = false → skip_ws (String c r) = String c r.
Proof. intros Hc. simpl. by rewrite Hc. Qed.

Lemma skip_ws_space r : skip_ws (String " " r) = skip_ws r.
Proof. reflexivity. Qed.

Lemma digit_opens c d r : digit_val c = Some d → opens_value (String c r).
Proof.
  intros Hc. exists c, r. split; [done|].
  destruct c as [[] [] [] [] [] [] [] []]; try done.
Qed.

Lemma encode_opens v rest :
  serializable v = true → opens_value (encode v +:+ rest).
Proof.
  destruct v as [|[]|n|s|b|l|d]; intros Hv; try done.
  - by eexists _, _.
  - by eexists _, _.
  - by eexists _, _.
  - change (encode (PInt n)) with (pretty n).
    destruct (pretty_Z_head n rest) as (c & r & Heq & [[dv Hc] | ->]);
      rewrite Heq.
    + by eapply digit_opens.
    + by eexists _, _.
  - by eexists _, _.
  - by eexists _, _.
  - by eexists _, _.
Qed.

Lemma skip_ws_opens t : opens_value t → skip_ws t = t.
Proof. intros (c & r & -> & Hc & _). by apply skip_ws_head. Qed.

Lemma opens_app t rest : opens_value t → opens_value (t +:+ rest).
Proof. intros (c & r & -> & Hc). by exists c, (r +:+ rest). Qed.

(** Unfolding equations of the scanner. *)
Lemma parse_items_step fuel s :
  parse_items (S fuel) s
  = '(v, r) ← parse_value fuel s;
    match skip_ws r with
    | "" => None
    | String c r' =>
        if (c =? "]")%char then Some ([v], r')
        else if (c =? ",")%char then
          '(vs, r'') ← parse_items fuel (skip_ws r'); Some (v :: vs, r'')
        else None
    end.
Proof. reflexivity. Qed.

Lemma parse_members_step fuel r :
  parse_members (S fuel) (String dquote r)
  = '(k, r1) ← scan_string r;
    match skip_ws r1 with
    | "" => None
    | String c2 r2 =>
        if (c2 =? ":")%char then
          '(v, r3) ← parse_value fuel (skip_ws r2);
          match skip_ws r3 with
          | "" => None
          | String c4 r4 =>
              if (c4 =? "}")%char then Some ([(k, v)], r4)
              else if (c4 =? ",")%char then
                '(ms, r5) ← parse_members fuel (skip_ws r4);
                Some ((k, v) :: ms, r5)
              else None
          end
        else None
    end.
Proof. reflexivity. Qed.

Lemma parse_value_list fuel r :
  parse_value (S fuel) (String "[" r)
  = match skip_ws r with
    | "" => None
    | String c1 r' =>
        if (c1 =? "]")%char then Some (PList [], r')
        else '(vs, r'') ← parse_items fuel (String c1 r'); Some (PList vs, r'')
    end.
Proof. reflexivity. Qed.

Lemma parse_value_dict fuel r :
  parse_value (S fuel) (String "{" r)
  = match skip_ws r with
    | "" => None
    | String c1 r' =>
        if (c1 =? "}")%char then Some (PDict [], r')
        else '(ms, r'') ← parse_members fuel (String c1 r');
             Some (PDict (dict_of ms), r'')
    end.
Proof. reflexivity. Qed.

Lemma parse_value_str fuel r :
  parse_value (S fuel) (String dquote r)
  = '(str, r') ← scan_string r; Some (PStr str, r').
Proof. reflexivity. Qed.

Lemma parse_items_encode l :
  l ≠ [] →
  Forall reads_back l →
  forallb serializable l = true →
  forallb unique_keys l = true →
  ∀ fuel rest,
    (list_sum (map (λ x, S (weight x)) l) ≤ fuel)%nat →
    parse_items fuel (str_join ", " (map encode l) +:+ String "]" rest)
    = Some (l, rest).
Proof.
  induction l as [|x l IH]; [done|]. intros _ Hall Hser Huniq fuel rest Hfuel.
  apply Forall_cons in Hall as [Hx Hl].
  simpl in Hser, Huniq.
  apply andb_true_iff in Hser as [Hsx Hsl].
  apply andb_true_iff in Huniq as [Hux Hul].
  simpl in Hfuel. destruct fuel as [|fuel]; [lia|].
  rewrite parse_items_step.
  destruct l as [|y l].
  - change (str_join ", " (map encode [x])) with (encode x).
    rewrite (Hx Hsx Hux) by (simpl; lia || by right; left).
    reflexivity.
  - change (str_join ", " (map encode (x :: y :: l)))
      with (encode x +:+ ", " +:+ str_join ", " (map encode (y :: l))).
    rewrite !app_assoc_s.
    change (", " +:+ str_join ", " (map encode (y :: l)) +:+ String "]" rest)
      with (String "," (String " " (str_join ", " (map encode (y :: l))
                                      +:+ String "]" rest))).
    rewrite (Hx Hsx Hux) by (simpl; lia || by left).
    cbn [mbind option_bind]. rewrite skip_ws_head by done.
    change (("," =? "]")%char) with false. change (("," =? ",")%char) with true.
    cbv iota. rewrite skip_ws_space.
    assert (Hopen : opens_value (str_join ", " (map encode (y :: l))
                                   +:+ String "]" rest)).
    { simpl in Hsl. apply andb_true_iff in Hsl as [Hsy _].
      destruct l as [|z l].
      - by apply encode_opens.
      - change (str_join ", " (map encode (y :: z :: l)))
          with (encode y +:+ ", " +:+ str_join ", " (map encode (z :: l))).
        rewrite app_assoc_s. by apply encode_opens. }
    rewrite skip_ws_opens by done.
    rewrite IH; [done|done|done|done|done|]. simpl in *. lia.
Qed.

Lemma encode_str_app k t :
  encode_str k +:+ t = String dquote (escape k +:+ String dquote t).
Proof. unfold encode_str. by rewrite app_cons_s, app_assoc_s. Qed.

Lemma encode_str_opens k t : opens_value (encode_str k +:+ t).
Proof. rewrite encode_str_app. by eexists _, _. Qed.

Lemma parse_members_encode d :
  d ≠ [] →
  Forall (λ kv, reads_back kv.2) d →
  forallb (λ '(_, x), serializable x) d = true →
  forallb (λ '(_, x), unique_keys x) d = true →
  ∀ fuel rest,
    (list_sum (map (λ '(_, x), S (weight x)) d) ≤ fuel)%nat →
    parse_members fuel
      (str_join ", " (map (λ '(k, x), encode_str k +:+ ": " +:+ encode x) d)
       +:+ String "}" rest)
    = Some (d, rest).
Proof.
  induction d as [|[k x] d IH]; [done|]. intros _ Hall Hser Huniq fuel rest Hfuel.
  apply Forall_cons in Hall as [Hx Hd]. simpl in Hx.
  simpl in Hser, Huniq.
  apply andb_true_iff in Hser as [Hsx Hsd].
  apply andb_true_iff in Huniq as [Hux Hud].
  simpl in Hfuel. destruct fuel as [|fuel]; [lia|].
  destruct d as [|[k' y] d].
  - change (str_join ", " (map (λ '(k, x), encode_str k +:+ ": " +:+ encode x)
                             [(k, x)]))
      with (encode_str k +:+ ": " +:+ encode x).
    rewrite !app_assoc_s, encode_str_app, parse_members_step.
    rewrite scan_string_escape. cbn [mbind option_bind].
    change (": " +:+ encode x +:+ String "}" rest)
      with (String ":" (String " " (encode x +:+ String "}" rest))).
    rewrite skip_ws_head by done. change ((":" =? ":")%char) with true.
    cbv iota. rewrite skip_ws_space.
    rewrite skip_ws_opens by (by apply encode_opens).
    rewrite (Hx Hsx Hux) by (simpl; lia || by right; right).
    reflexivity.
  - change (str_join ", " (map (λ '(k, x), encode_str k +:+ ": " +:+ encode x)
                             ((k, x) :: (k', y) :: d)))
      with ((encode_str k +:+ ": " +:+ encode x) +:+ ", "
            +:+ str_join ", " (map (λ '(k, x), encode_str k +:+ ": " +:+ encode x)
                                 ((k', y) :: d))).
    set (tail := str_join ", " _).
    rewrite !app_assoc_s, encode_str_app, parse_members_step.
    rewrite scan_string_escape. cbn [mbind option_bind].
    change (": " +:+ encode x +:+ ", " +:+ tail +:+ String "}" rest)
      with (String ":" (String " " (encode x +:+
              String "," (String " " (tail +:+ String "}" rest))))).
    rewrite skip_ws_head by done. change ((":" =? ":")%char) with true.
    cbv iota. rewrite skip_ws_space.
    rewrite skip_ws_opens by (by apply encode_opens).
    rewrite (Hx Hsx Hux) by (simpl; lia || by left).
    cbn [mbind option_bind]. rewrite skip_ws_head by done.
    change (("," =? "}")%char) with false. change (("," =? ",")%char) with true.
    cbv iota. rewrite skip_ws_space.
    assert (Hopen : opens_value (tail +:+ String "}" rest)).
    { subst tail. destruct d as [|[k2 z] d].
      - change (str_join ", " (map (λ '(k, x), encode_str k +:+ ": " +:+ encode x)
                                 [(k', y)]))
          with (encode_str k' +:+ ": " +:+ encode y).
        rewrite app_assoc_s. apply encode_str_opens.
      - change (str_join ", " (map (λ '(k, x), encode_str k +:+ ": " +:+ encode x)
                                 ((k', y) :: (k2, z) :: d)))
          with ((encode_str k' +:+ ": " +:+ encode y) +:+ ", "
                +:+ str_join ", "
                      (map (λ '(k, x), encode_str k +:+ ": " +:+ encode x)
                         ((k2, z) :: d))).
        rewrite !app_assoc_s. apply encode_str_opens. }
    rewrite skip_ws_opens by done.
    subst tail. rewrite IH; [done|done|done|done|done|]. simpl in *. lia.
Qed.

(** Building a dict from pairs with distinct keys keeps the pairs. *)
Lemma dict_set_fresh d k v :
  k ∉ d.*1 → dict_set d k v = d ++ [(k, v)].
Proof.
  induction d as [|[k' v'] d IH]; [done|]. simpl.
  intros [Hne Hk]%not_elem_of_cons.
  destruct (String.eqb_spec k k') as [->|_]; [done|]. by rewrite IH.
Qed.

Lemma dict_of_unique pairs :
  NoDup pairs.*1 → dict_of pairs = pairs.
Proof.
  unfold dict_of.
  assert (Hgen : ∀ acc, NoDup (acc ++ pairs).*1 →
            foldl (λ d '(k, v), dict_set d k v) acc pairs = acc ++ pairs).
  { induction pairs as [|[k v] pairs IH]; intros acc Hnd.
    - by rewrite app_nil_r.
    - simpl. rewrite dict_set_fresh.
      + rewrite IH; rewrite <- app_assoc; [done|]. by simpl.
      + rewrite fmap_app in Hnd. apply NoDup_app in Hnd as (_ & Hdisj & _).
        intros Hin. apply (Hdisj k Hin). simpl. by left. }
  intros Hnd. by apply (Hgen []).
Qed.

(** Every serializable value whose dicts have distinct keys is read
    back from its encoding, whatever follows it. *)
Lemma parse_value_encode v : reads_back v.
Proof.
  induction v as [|b|n|s|b|l IHl|d IHd] using pyval_nested_ind;
    intros Hser Huniq fuel rest Hfuel Hrest;
    (destruct fuel as [|fuel]; [simpl in Hfuel; lia|]).
  - reflexivity.
  - by destruct b.
  - by apply parse_value_int.
  - change (encode (PStr s)) with (encode_str s).
    rewrite encode_str_app, parse_value_str, scan_string_escape. reflexivity.
  - done.
  - change (encode (PList l))
      with ("[" +:+ str_join ", " (map encode l) +:+ "]").
    rewrite !app_assoc_s.
    change ("[" +:+ str_join ", " (map encode l) +:+ "]" +:+ rest)
      with (String "[" (str_join ", " (map encode l) +:+ String "]" rest)).
    rewrite parse_value_list.
    destruct l as [|x l]; [reflexivity|].
    assert (Hopen : opens_value (str_join ", " (map encode (x :: l))
                                   +:+ String "]" rest)).
    { simpl in Hser. apply andb_true_iff in Hser as [Hsx _].
      destruct l as [|y l].
      - by apply encode_opens.
      - change (str_join ", " (map encode (x :: y :: l)))
          with (encode x +:+ ", " +:+ str_join ", " (map encode (y :: l))).
        rewrite app_assoc_s. by apply encode_opens. }
    rewrite skip_ws_opens by done.
    destruct Hopen as (c & r & Heq & _ & Hc & _). rewrite Heq, Hc, <- Heq.
    rewrite parse_items_encode; [done|done|done|done|done|].
    simpl in Hfuel. simpl. lia.
  - change (encode (PDict d))
      with ("{" +:+ str_join ", "
                      (map (λ '(k, x), encode_str k +:+ ": " +:+ encode x) d)
            +:+ "}").
    set (body := str_join ", " _).
    rewrite !app_assoc_s.
    change ("{" +:+ body +:+ "}" +:+ rest)
      with (String "{" (body +:+ String "}" rest)).
    rewrite parse_value_dict. subst body.
    simpl in Hser, Huniq. apply andb_true_iff in Huniq as [Hnd Huniq].
    apply bool_decide_eq_true in Hnd.
    destruct d as [|[k x] d]; [reflexivity|].
    assert (Hopen : opens_value
              (str_join ", " (map (λ '(k, x), encode_str k +:+ ": " +:+ encode x)
                                ((k, x) :: d)) +:+ String "}" rest)).
    { destruct d as [|[k2 z] d].
      - change (str_join ", " (map (λ '(k, x), encode_str k +:+ ": " +:+ encode x)
                                 [(k, x)]))
          with (encode_str k +:+ ": " +:+ encode x).
        rewrite app_assoc_s. apply encode_str_opens.
      - change (str_join ", " (map (λ '(k, x), encode_str k +:+ ": " +:+ encode x)
                                 ((k, x) :: (k2, z) :: d)))
          with ((encode_str k +:+ ": " +:+ encode x) +:+ ", "
                +:+ str_join ", "
                      (map (λ '(k, x), encode_str k +:+ ": " +:+ encode x)
                         ((k2, z) :: d))).
        rewrite !app_assoc_s. apply encode_str_opens. }
    rewrite skip_ws_opens by done.
    destruct Hopen as (c & r & Heq & _ & _ & Hc). rewrite Heq, Hc, <- Heq.
    rewrite parse_members_encode; [|done|done|done|done|].
    + cbn [mbind option_bind]. by rewrite dict_of_unique.
    + simpl in Hfuel. simpl. lia.
Qed.

End json_round_trip.

Section json_loads_dumps.
Import json.

Lemma app_nil_r_s (a : string) : a +:+ "" = a.
Proof. induction a as [|x a IH]; [done|]. by rewrite app_cons_s, IH. Qed.

Lemma weight_items_bound (l : list pyval) :
  l ≠ [] →
  Forall (λ x, (weight x ≤ String.length (encode x) + 1)%nat) l →
  (list_sum (map (λ x, S (weight x)) l)
   ≤ String.length (str_join ", " (map encode l)) + 2)%nat.
Proof.
  induction l as [|x l IH]; [done|]. intros _ [Hx Hl]%Forall_cons.
  destruct l as [|y l].
  - simpl in *. lia.
  - change (str_join ", " (map encode (x :: y :: l)))
      with (encode x +:+ ", " +:+ str_join ", " (map encode (y :: l))).
    rewrite !length_app_s.
    change (list_sum (map (λ x, S (weight x)) (x :: y :: l)))
      with (S (weight x) + list_sum (map (λ x, S (weight x)) (y :: l)))%nat.
    specialize (IH ltac:(done) Hl).
    change (String.length ", ") with 2%nat. lia.
Qed.

Lemma weight_members_bound (d : list (string * pyval)) :
  d ≠ [] →
  Forall (λ kv, (weight kv.2 ≤ String.length (encode kv.2) + 1)%nat) d →
  (list_sum (map (λ '(_, x), S (weight x)) d)
   ≤ String.length
       (str_join ", " (map (λ '(k, x), encode_str k +:+ ": " +:+ encode x) d))
     + 2)%nat.
Proof.
  induction d as [|[k x] d IH]; [done|]. intros _ [Hx Hd]%Forall_cons.
  simpl in Hx. destruct d as [|[k' y] d].
  - change (str_join ", " (map (λ '(k, x), encode_str k +:+ ": " +:+ encode x)
                             [(k, x)]))
      with (encode_str k +:+ ": " +:+ encode x).
    rewrite !length_app_s. simpl. lia.
  - change (str_join ", " (map (λ '(k, x), encode_str k +:+ ": " +:+ encode x)
                             ((k, x) :: (k', y) :: d)))
      with ((encode_str k +:+ ": " +:+ encode x) +:+ ", "
            +:+ str_join ", " (map (λ '(k, x), encode_str k +:+ ": " +:+ encode x)
                                 ((k', y) :: d))).
    set (tail := str_join ", " _) in *.
    rewrite !length_app_s.
    change (list_sum (map (λ '(_, x), S (weight x)) ((k, x) :: (k', y) :: d)))
      with (S (weight x) + list_sum (map (λ '(_, x), S (weight x)) ((k', y) :: d)))%nat.
    specialize (IH ltac:(done) Hd).
    change (String.length ", ") with 2%nat. lia.
Qed.

Lemma weight_le_length v :
  (weight v ≤ String.length (encode v) + 1)%nat.
Proof.
  induction v as [|b|n|s|b|l IHl|d IHd] using pyval_nested_ind;
    try (simpl; lia).
  - destruct l as [|x l]; [simpl; lia|].
    pose proof (weight_items_bound (x :: l) ltac:(done) IHl) as Hb.
    change (encode (PList (x :: l)))
      with ("[" +:+ str_join ", " (map encode (x :: l)) +:+ "]").
    rewrite !length_app_s.
    change (weight (PList (x :: l)))
      with (S (list_sum (map (λ x, S (weight x)) (x :: l)))).
    change (String.length "[") with 1%nat.
    change (String.length "]") with 1%nat. lia.
  - destruct d as [|kv d]; [simpl; lia|].
    pose proof (weight_members_bound (kv :: d) ltac:(done) IHd) as Hb.
    change (encode (PDict (kv :: d)))
      with ("{" +:+ str_join ", "
                      (map (λ '(k, x), encode_str k +:+ ": " +:+ encode x)
                         (kv :: d)) +:+ "}").
    rewrite !length_app_s.
    change (weight (PDict (kv :: d)))
      with (S (list_sum (map (λ '(_, x), S (weight x)) (kv :: d)))).
    change (String.length "{") with 1%nat.
    change (String.length "}") with 1%nat. lia.
Qed.

Lemma read_dumps v t :
  unique_keys v = true →
  dumps v = Some t →
  read t = Some v.
Proof.
  unfold dumps. intros Huniq.
  destruct (serializable v) eqn:Hser; [|done]. intros [= <-].
  unfold read.
  pose proof (encode_opens v "" Hser) as Hopen. rewrite app_nil_r_s in Hopen.
  rewrite skip_ws_opens by done.
  rewrite <- (app_nil_r_s (encode v)) at 2.
  rewrite (parse_value_encode v Hser Huniq); [done| |done].
  pose proof (weight_le_length v). lia.
Qed.

(** [json.loads(json.dumps(v)) == v]. *)
Lemma loads_dumps v t :
  unique_keys v = true →
  dumps v = Some t →
  loads t = Value v.
Proof. intros Huniq Ht. unfold loads. by rewrite (read_dumps v t). Qed.

End json_loads_dumps.

Section retry_steps.
Import DataGovClient.
Variable urljoin : string → string → string.
Variable upstream : nat → attempt.
Variable self : config.

Lemma retry_loop_exit method url kw retries last σ :
  max_retries self < retries →
  retry_loop upstream self method url kw retries last σ
  = (Raises (default (RequestError ("Failed to make request to " +:+ url +:+
                                   " after " +:+ pretty (max_retries self) +:+
                                   " retries")) last), σ).
Proof.
  intros Hlt. simp retry_loop.
  destruct (Z_le_dec retries (max_retries self)) as [Hle|Hgt]; [lia|].
  simpl. destruct last; reflexivity.
Qed.

Lemma retry_loop_success method url kw retries last σ r :
  retries ≤ max_retries self →
  upstream (sent σ) = Succeeds r →
  retry_loop upstream self method url kw retries last σ
  = (Returns r, attempted method url kw σ).
Proof.
  intros Hle Hup. simp retry_loop.
  destruct (Z_le_dec retries (max_retries self)) as [?|?]; [|lia].
  simpl. unfold request_method. rewrite Hup. reflexivity.
Qed.

Lemma retry_loop_uncaught method url kw retries last σ e :
  retries ≤ max_retries self →
  upstream (sent σ) = Fails e →
  is_HTTPError e = false →
  retry_loop upstream self method url kw retries last σ
  = (Raises e, attempted method url kw σ).
Proof.
  intros Hle Hup He. simp retry_loop.
  destruct (Z_le_dec retries (max_retries self)) as [?|?]; [|lia].
  simpl. unfold request_method. rewrite Hup. simpl. rewrite He. reflexivity.
Qed.

Lemma retry_loop_terminal method url kw retries last σ e :
  retries ≤ max_retries self →
  upstream (sent σ) = Fails e →
  terminal_status e = true →
  retry_loop upstream self method url kw retries last σ
  = (Raises e, attempted method url kw σ).
Proof.
  intros Hle Hup He. simp retry_loop.
  destruct (Z_le_dec retries (max_retries self)) as [?|?]; [|lia].
  simpl. unfold request_method. rewrite Hup. simpl.
  destruct (is_HTTPError e); simpl; [|reflexivity].
  rewrite He. reflexivity.
Qed.

Lemma retry_loop_spent method url kw retries last σ e :
  retries ≤ max_retries self →
  upstream (sent σ) = Fails e →
  max_retries self < retries + 1 →
  retry_loop upstream self method url kw retries last σ
  = (Raises e, attempted method url kw σ).
Proof.
  intros Hle Hup Hlast. simp retry_loop.
  destruct (Z_le_dec retries (max_retries self)) as [?|?]; [|lia].
  simpl. unfold request_method. rewrite Hup. simpl.
  destruct (is_HTTPError e); simpl; [|reflexivity].
  destruct (terminal_status e); simpl; [reflexivity|].
  destruct (Z_lt_dec (max_retries self) (retries + 1)); [reflexivity|lia].
Qed.

Lemma retry_loop_again method url kw retries last σ e :
  retries + 1 ≤ max_retries self →
  upstream (sent σ) = Fails e →
  is_HTTPError e = true →
  terminal_status e = false →
  retry_loop upstream self method url kw retries last σ
  = retry_loop upstream self method url kw (retries + 1) (Some e)
      (emit (Sleep (retry_delay self * 2 ^ (retries + 1 - 1)))
         (attempted method url kw σ)).
Proof.
  intros Hle Hup Hc Ht. rewrite retry_loop_equation_1 at 1.
  destruct (Z_le_dec retries (max_retries self)) as [?|?]; [|lia].
  simpl. unfold request_method. rewrite Hup. simpl.
  rewrite Hc. simpl. rewrite Ht. simpl.
  destruct (Z_lt_dec (max_retries self) (retries + 1)); [lia|reflexivity].
Qed.

End retry_steps.

Section retry_exhaustion.
Import DataGovClient.
Variable upstream : nat → attempt.
Variable self : config.

Lemma retryable_error_caught e :
  retryable_error e → is_HTTPError e = true ∧ terminal_status e = false.
Proof.
  intros [d|c Hc]; split; try reflexivity.
  unfold terminal_status, retryable_status. rewrite bool_decide_eq_true_2; done.
Qed.

Lemma retry_loop_exhausts method url kw (n : nat) :
  ∀ retries last σ,
    retries + Z.of_nat n = max_retries self →
    (∀ i : nat, (i ≤ n)%nat →
       ∃ e, upstream (sent σ + i)%nat = Fails e ∧ retryable_error e) →
    ∃ e, upstream (sent σ + n)%nat = Fails e ∧
      retry_loop upstream self method url kw retries last σ
      = (Raises e,
         mkState (client σ) (heap σ) (sent σ + S n)%nat
           (trace σ ++ request_event method url kw σ
              :: backoff_events (request_event method url kw σ)
                   (retry_delay self) (retries + 1) n)).
Proof.
  induction n as [|n IH]; intros retries last σ Hmax Hup.
  - destruct (Hup 0%nat) as (e & He & Hr); [lia|].
    rewrite Nat.add_0_r in He |- *. exists e. split; [done|].
    rewrite (retry_loop_spent _ _ _ _ _ _ _ _ e) by (done || lia).
    unfold attempted, count_attempt, emit. simpl. do 2 f_equal. lia.
  - destruct (Hup 0%nat) as (e & He & Hr); [lia|].
    rewrite Nat.add_0_r in He.
    destruct (retryable_error_caught e Hr) as [Hc Ht].
    rewrite (retry_loop_again _ _ _ _ _ _ _ _ e) by (done || lia).
    set (σ2 := emit _ _).
    destruct (IH (retries + 1) (Some e) σ2) as (e' & He' & ->).
    { lia. }
    { intros i Hi. destruct (Hup (S i)) as (e2 & He2 & Hr2); [lia|].
      exists e2. split; [|done]. rewrite <- He2. f_equal. simpl. lia. }
    exists e'. split.
    { rewrite <- He'. f_equal. simpl. lia. }
    f_equal. subst σ2. unfold attempted, count_attempt, emit, request_event. simpl.
    f_equal; [lia|].
    rewrite <- !app_assoc. simpl. repeat f_equal; lia.
Qed.

End retry_exhaustion.

Section retry_claims.
Import DataGovClient.
Variable upstream : nat → attempt.
Variable self : config.

Lemma make_request_unfold method url kw σ :
  _make_request_with_retry upstream self method url kw σ
  = retry_loop upstream self (lower method) url kw 0 None
      (if client σ then σ else set_client true σ).
Proof. reflexivity. Qed.

Lemma attempts_backoff_events req base k n :
  (∃ m u p b, req = Request m u p b) →
  attempts (req :: backoff_events req base k n) = S n.
Proof.
  intros (m & u & p & b & ->). unfold attempts. simpl. f_equal.
  revert k. induction n as [|n IH]; intros k; simpl; [done|].
  f_equal. apply IH.
Qed.

Lemma sleeps_backoff_events req base k n :
  (∃ m u p b, req = Request m u p b) →
  sleeps (req :: backoff_events req base k n)
  = (λ j, base * 2 ^ (j - 1)) <$> seqZ k (Z.of_nat n).
Proof.
  intros (m & u & p & b & ->). unfold sleeps. simpl.
  revert k. induction n as [|n IH]; intros k; [done|].
  rewrite seqZ_cons by lia. simpl. f_equal.
  rewrite IH. do 2 f_equal; lia.
Qed.

(** C1: when every attempt fails with a retryable error (a transport
    failure or a status in 408, 429, 500, 502, 503, 504) and
    [max_retries = N], the retrying primitive sends exactly [N+1]
    requests and then fails; before the [k]-th retry it sleeps exactly
    [retry_delay * 2^(k-1)] seconds, for [k = 1..N]: the sleeps are that
    list and nothing else, and each stands right before its retry. *)
Theorem exhaustion_attempts_and_backoff method url kw σ (N : Z) :
  0 ≤ N →
  max_retries self = N →
  (∀ i : nat, (i ≤ Z.to_nat N)%nat →
     ∃ e, upstream (sent σ + i)%nat = Fails e ∧ retryable_error e) →
  ∃ e σ' evs,
    _make_request_with_retry upstream self method url kw σ = (Raises e, σ') ∧
    trace σ' = trace σ ++ evs ∧
    Z.of_nat (attempts evs) = N + 1 ∧
    sleeps evs = (λ k, retry_delay self * 2 ^ (k - 1)) <$> seqZ 1 N ∧
    evs = request_event (lower method) url kw σ
          :: backoff_events (request_event (lower method) url kw σ)
               (retry_delay self) 1 (Z.to_nat N).
Proof.
  intros HN Hmax Hup.
  rewrite make_request_unfold.
  set (σ0 := if client σ then σ else set_client true σ).
  assert (Hσ0 : heap σ0 = heap σ ∧ sent σ0 = sent σ ∧ trace σ0 = trace σ).
  { subst σ0. destruct (client σ); done. }
  destruct Hσ0 as (Hh & Hs & Ht).
  destruct (retry_loop_exhausts upstream self (lower method) url kw
              (Z.to_nat N) 0 None σ0) as (e & _ & Hrun).
  { lia. }
  { intros i Hi. rewrite Hs. by apply Hup. }
  assert (Hreq : request_event (lower method) url kw σ0
                 = request_event (lower method) url kw σ).
  { unfold request_event. by rewrite Hh. }
  rewrite Hreq in Hrun. change (0 + 1) with 1 in Hrun.
  exists e. eexists. eexists. split; [exact Hrun|].
  simpl. rewrite Ht. split; [reflexivity|].
  split; [|split; [|reflexivity]].
  - rewrite attempts_backoff_events by (unfold request_event; eauto). lia.
  - rewrite sleeps_backoff_events by (unfold request_event; eauto).
    by rewrite Z2Nat.id.
Qed.

(** C2: when the first attempt fails with an HTTP status error whose
    code is not in 408, 429, 500, 502, 503, 504, the retrying primitive
    sends that one request, never sleeps, and raises that very error. *)
Theorem terminal_status_fails_at_once method url kw σ code :
  0 ≤ max_retries self →
  upstream (sent σ) = Fails (HTTPStatusError code) →
  code ∉ [408; 429; 500; 502; 503; 504] →
  ∃ σ' evs,
    _make_request_with_retry upstream self method url kw σ
    = (Raises (HTTPStatusError code), σ') ∧
    trace σ' = trace σ ++ evs ∧
    evs = [request_event (lower method) url kw σ] ∧
    attempts evs = 1%nat ∧
    sleeps evs = [].
Proof.
  intros Hmax Hup Hcode.
  rewrite make_request_unfold.
  exists (attempted (lower method) url kw (if client σ then σ else set_client true σ)).
  exists [request_event (lower method) url kw σ].
  split.
  - assert (Ht : terminal_status (HTTPStatusError code) = true).
    { unfold terminal_status, retryable_status.
      by rewrite bool_decide_eq_false_2. }
    destruct (client σ);
      by rewrite (retry_loop_terminal upstream self _ _ _ _ _ _ (HTTPStatusError code)).
  - destruct (client σ); done.
Qed.

(** C3, as the code has it: when every attempt of the budget fails with
    a retryable error, the caller receives the error of the last
    attempt itself, the exception object the transport or
    [raise_for_status] raised, with no wrapper around it. *)
Theorem exhaustion_raises_last_error_bare method url kw σ :
  0 ≤ max_retries self →
  (∀ i : nat, (i ≤ Z.to_nat (max_retries self))%nat →
     ∃ e, upstream (sent σ + i)%nat = Fails e ∧ retryable_error e) →
  ∃ last,
    upstream (sent σ + Z.to_nat (max_retries self))%nat = Fails last ∧
    (_make_request_with_retry upstream self method url kw σ).1 = Raises last ∧
    ∀ inner, surfaced last ≠ RetriesExhausted inner.
Proof.
  intros HN Hup.
  rewrite make_request_unfold.
  set (σ0 := if client σ then σ else set_client true σ).
  assert (Hs : sent σ0 = sent σ) by (subst σ0; destruct (client σ); done).
  destruct (retry_loop_exhausts upstream self (lower method) url kw
              (Z.to_nat (max_retries self)) 0 None σ0) as (e & He & Hrun).
  { lia. }
  { intros i Hi. rewrite Hs. by apply Hup. }
  exists e. rewrite Hs in He. split; [done|]. split.
  - by rewrite Hrun.
  - intros inner. by destruct e.
Qed.

End retry_claims.

Lemma exhaustion_attempts_and_backoff_witness :
  ∃ e σ' evs,
    DataGovClient._make_request_with_retry (always_status 503) client_3_1
      "get" "u" no_kwargs fresh_state = (Raises e, σ') ∧
    DataGovClient.trace σ' = DataGovClient.trace fresh_state ++ evs ∧
    Z.of_nat (attempts evs) = 3 + 1 ∧
    sleeps evs = (λ k, DataGovClient.retry_delay client_3_1 * 2 ^ (k - 1)) <$> seqZ 1 3 ∧
    evs = request_event (DataGovClient.lower "get") "u" no_kwargs fresh_state
          :: backoff_events (request_event (DataGovClient.lower "get") "u" no_kwargs fresh_state)
               (DataGovClient.retry_delay client_3_1) 1 (Z.to_nat 3).
Proof.
  apply (exhaustion_attempts_and_backoff (always_status 503) client_3_1
           "get" "u" no_kwargs fresh_state 3).
  - lia.
  - reflexivity.
  - intros i _. eexists. split; [reflexivity|]. constructor. compute_done.
Defined.

Lemma terminal_status_fails_at_once_witness :
  ∃ σ' evs,
    DataGovClient._make_request_with_retry (always_status 404) client_3_1
      "get" "u" no_kwargs fresh_state
    = (Raises (DataGovClient.HTTPStatusError 404), σ') ∧
    DataGovClient.trace σ' = DataGovClient.trace fresh_state ++ evs ∧
    evs = [request_event (DataGovClient.lower "get") "u" no_kwargs fresh_state] ∧
    attempts evs = 1%nat ∧
    sleeps evs = [].
Proof.
  apply (terminal_status_fails_at_once (always_status 404) client_3_1
           "get" "u" no_kwargs fresh_state 404).
  - simpl. lia.
  - reflexivity.
  - compute_done.
Defined.

Lemma exhaustion_raises_last_error_bare_witness :
  ∃ last,
    always_status 500 (DataGovClient.sent fresh_state
                       + Z.to_nat (DataGovClient.max_retries client_3_1))%nat
    = DataGovClient.Fails last ∧
    (DataGovClient._make_request_with_retry (always_status 500) client_3_1
       "get" "u" no_kwargs fresh_state).1 = Raises last ∧
    ∀ inner, surfaced last ≠ RetriesExhausted inner.
Proof.
  apply (exhaustion_raises_last_error_bare (always_status 500) client_3_1
           "get" "u" no_kwargs fresh_state).
  - simpl. lia.
  - intros i _. eexists. split; [reflexivity|]. constructor. compute_done.
Defined.

(** C3 as the specification states it fails: with the upstream
    answering 500 to every attempt and [max_retries = 3], the caller
    receives [HTTPStatusError 500], not a [RetriesExhausted] around it. *)
Lemma exhaustion_not_wrapped :
  (DataGovClient._make_request_with_retry (always_status 500) client_3_1
     "get" "u" no_kwargs fresh_state).1
  = Raises (DataGovClient.HTTPStatusError 500) ∧
  ¬ wrapped_as_exhausted surfaced
      (DataGovClient._make_request_with_retry (always_status 500) client_3_1
         "get" "u" no_kwargs fresh_state).1
      (DataGovClient.HTTPStatusError 500).
Proof.
  assert (Hrun : (DataGovClient._make_request_with_retry (always_status 500)
                    client_3_1 "get" "u" no_kwargs fresh_state).1
                 = Raises (DataGovClient.HTTPStatusError 500)).
  { vm_compute. reflexivity. }
  split; [exact Hrun|].
  rewrite Hrun. intros (e & He & Hs). injection He as <-. discriminate Hs.
Qed.

Section client_frame.
Import DataGovClient.
Variable urljoin : string → string → string.
Variable upstream : nat → attempt.
Variable self : config.

(** Whatever the upstream answers, the loop leaves the dicts and the
    session alone, and all it does is send the one request again and
    sleep. *)
Lemma retry_loop_frame method url kw (n : nat) :
  ∀ retries last σ,
    Z.to_nat (max_retries self + 1 - retries) = n →
    ∃ res evs,
      retry_loop upstream self method url kw retries last σ
      = (res, mkState (client σ) (heap σ) (sent σ + attempts evs)%nat
                (trace σ ++ evs)) ∧
      Forall (λ ev, ev = request_event method url kw σ ∨ ∃ d, ev = Sleep d) evs ∧
      (retries ≤ max_retries self →
       ∃ rest, evs = request_event method url kw σ :: rest).
Proof.
  induction n as [|n IH]; intros retries last σ Hn.
  - rewrite retry_loop_exit by lia. eexists; exists [].
    rewrite app_nil_r, Nat.add_0_r. destruct σ. split; [reflexivity|].
    split; [constructor|lia].
  - assert (Hle : retries ≤ max_retries self) by lia.
    assert (Hone : ∀ res : outcome exn Response,
      ∃ (res' : outcome exn Response) evs,
        (res, attempted method url kw σ)
        = (res', mkState (client σ) (heap σ) (sent σ + attempts evs)%nat
                   (trace σ ++ evs)) ∧
        Forall (λ ev, ev = request_event method url kw σ ∨ ∃ d, ev = Sleep d) evs ∧
        (retries ≤ max_retries self →
         ∃ rest, evs = request_event method url kw σ :: rest)).
    { intros res. exists res, [request_event method url kw σ]. split.
      - unfold attempted, count_attempt, emit. simpl.
        rewrite Nat.add_1_r. reflexivity.
      - split; [repeat constructor|eauto]. }
    destruct (upstream (sent σ)) as [r|e] eqn:Hup.
    { rewrite (retry_loop_success _ _ _ _ _ _ _ _ r) by done. apply Hone. }
    destruct (is_HTTPError e) eqn:Hc.
    2:{ rewrite (retry_loop_uncaught _ _ _ _ _ _ _ _ e) by done. apply Hone. }
    destruct (terminal_status e) eqn:Ht.
    { rewrite (retry_loop_terminal _ _ _ _ _ _ _ _ e) by done. apply Hone. }
    destruct (Z_lt_dec (max_retries self) (retries + 1)) as [Hlast|Hmore].
    { rewrite (retry_loop_spent _ _ _ _ _ _ _ _ e) by done. apply Hone. }
    rewrite (retry_loop_again _ _ _ _ _ _ _ _ e) by (done || lia).
    set (σ2 := emit _ _).
    destruct (IH (retries + 1) (Some e) σ2) as (res & evs & -> & Hall & _); [lia|].
    assert (Hreq : request_event method url kw σ2 = request_event method url kw σ)
      by reflexivity.
    rewrite Hreq in Hall.
    exists res, (request_event method url kw σ
                 :: Sleep (retry_delay self * 2 ^ (retries + 1 - 1)) :: evs).
    split; [|split; [|eauto]].
    + subst σ2. unfold attempted, count_attempt, emit. simpl.
      rewrite <- !app_assoc. simpl. do 2 f_equal.
      unfold attempts. simpl. lia.
    + constructor; [by left|]. constructor; [right; eauto|done].
Qed.

(** [params = params or {}]: a non-empty dict of the caller is the
    object that gets the key. *)
Lemma add_api_key_in_place l d σ :
  heap σ !! l = Some d → d ≠ ∅ →
  _add_api_key self (Some l) σ
  = (Returns l,
     set_heap (<[l := <["api-key" := PStr (api_key self)]> d]> (heap σ)) σ).
Proof.
  intros Hl Hd. unfold _add_api_key, mbind, M_bind, read_dict, gets. simpl.
  rewrite Hl. simpl. unfold truthy, gmap_truthy.
  rewrite bool_decide_eq_false_2 by done. simpl.
  unfold dict_setitem. simpl. rewrite Hl. reflexivity.
Qed.

(** With no dict, or an empty one, a new dict gets the key; the
    caller's object, if any, is not touched. *)
Lemma add_api_key_fresh params σ :
  (∀ l, params = Some l → default ∅ (heap σ !! l) = ∅) →
  _add_api_key self params σ
  = (Returns (fresh (dom (heap σ))),
     set_heap (<[fresh (dom (heap σ)) := {["api-key" := PStr (api_key self)]}]>
                 (heap σ)) σ).
Proof.
  intros Hp.
  unfold _add_api_key, mbind, M_bind, read_dict, gets, new_dict, dict_setitem,
    mret, M_ret.
  destruct params as [l|]; simpl.
  - rewrite (Hp l eq_refl). unfold truthy, gmap_truthy.
    rewrite bool_decide_eq_true_2 by done. simpl.
    rewrite lookup_insert_eq. simpl. rewrite insert_insert_eq.
    rewrite insert_empty. reflexivity.
  - rewrite lookup_insert_eq. simpl. rewrite insert_insert_eq.
    rewrite insert_empty. reflexivity.
Qed.

(** Decoding the body neither sends nor sleeps nor writes. *)
Lemma decode_keeps_state (m : M state exn Response) σ :
  (try_except (response ← m; Response_json response)
     reraise_JSONDecodeError σ).2 = (m σ).2.
Proof.
  unfold try_except, mbind, M_bind.
  destruct (m σ) as [[r|e|] σ1]; simpl.
  - unfold Response_json. destruct (json.loads (text r)); reflexivity.
  - destruct e; reflexivity.
  - reflexivity.
Qed.

End client_frame.

Section public_operations.
Import DataGovClient.
Variable urljoin : string → string → string.
Variable upstream : nat → attempt.
Variable self : config.

Lemma get_shape endpoint params :
  get urljoin upstream self endpoint params
  = public_operation urljoin upstream self "get" None endpoint params.
Proof. reflexivity. Qed.
Lemma post_shape endpoint data params :
  post urljoin upstream self endpoint data params
  = public_operation urljoin upstream self "post" data endpoint params.
Proof. reflexivity. Qed.
Lemma put_shape endpoint data params :
  put urljoin upstream self endpoint data params
  = public_operation urljoin upstream self "put" data endpoint params.
Proof. reflexivity. Qed.
Lemma delete_shape endpoint params :
  delete urljoin upstream self endpoint params
  = public_operation urljoin upstream self "delete" None endpoint params.
Proof. reflexivity. Qed.

Lemma add_api_key_effect params σ :
  _add_api_key self params σ
  = (Returns (params_object params σ),
     set_heap (<[params_object params σ :=
                   <["api-key" := PStr (api_key self)]> (params_before params σ)]>
                 (heap σ)) σ).
Proof.
  destruct params as [l|].
  - destruct (heap σ !! l) as [d|] eqn:Hl.
    + destruct (decide (d = ∅)) as [->|Hd].
      * rewrite add_api_key_fresh by (intros ? [= <-]; by rewrite Hl).
        unfold params_object, params_before. rewrite Hl. simpl.
        unfold truthy, gmap_truthy. rewrite bool_decide_eq_true_2 by done.
        simpl. by rewrite insert_empty.
      * rewrite (add_api_key_in_place _ l d) by done.
        unfold params_object, params_before. rewrite Hl. simpl.
        unfold truthy, gmap_truthy. by rewrite bool_decide_eq_false_2.
    + rewrite add_api_key_fresh by (intros ? [= <-]; by rewrite Hl).
      unfold params_object, params_before. rewrite Hl. simpl.
      unfold truthy, gmap_truthy. rewrite bool_decide_eq_true_2 by done.
      simpl. by rewrite insert_empty.
  - rewrite add_api_key_fresh by done. unfold params_object, params_before.
    by rewrite insert_empty.
Qed.

(** What a public operation does to the world: the key goes into one
    dict, and the only events are the request with that dict's items,
    sent once or more, and sleeps. *)
Lemma public_operation_effect method data endpoint params σ :
  ∃ evs,
    (public_operation urljoin upstream self method data endpoint params σ).2
    = mkState true
        (<[params_object params σ :=
             <["api-key" := PStr (api_key self)]> (params_before params σ)]>
           (heap σ))
        (sent σ + attempts evs)%nat (trace σ ++ evs) ∧
    Forall (λ ev, ev = Request (lower method) (_build_url urljoin self endpoint)
                         (<["api-key" := PStr (api_key self)]>
                            (params_before params σ)) data
                  ∨ ∃ d, ev = Sleep d) evs ∧
    (0 ≤ max_retries self →
     ∃ rest, evs = Request (lower method) (_build_url urljoin self endpoint)
                     (<["api-key" := PStr (api_key self)]>
                        (params_before params σ)) data :: rest).
Proof.
  unfold public_operation. unfold mbind at 1, M_bind at 1.
  rewrite add_api_key_effect.
  set (l := params_object params σ). set (d := params_before params σ).
  set (σ1 := set_heap _ σ).
  rewrite decode_keeps_state, make_request_unfold.
  set (σ2 := if client σ1 then σ1 else set_client true σ1).
  set (kw := mkKwargs l data).
  destruct (retry_loop_frame upstream self (lower method)
              (_build_url urljoin self endpoint) kw
              (Z.to_nat (max_retries self + 1 - 0)) 0 None σ2 eq_refl)
    as (res & evs & -> & Hall & Hfirst).
  assert (Hreq : request_event (lower method) (_build_url urljoin self endpoint) kw σ2
                 = Request (lower method) (_build_url urljoin self endpoint)
                     (<["api-key" := PStr (api_key self)]> d) data).
  { unfold request_event. f_equal.
    assert (heap σ2 = heap σ1) as -> by (subst σ2; by destruct (client σ1)).
    subst σ1 kw. simpl. by rewrite lookup_insert_eq. }
  rewrite Hreq in Hall, Hfirst.
  exists evs. split; [|split; [exact Hall|exact Hfirst]].
  clear Hreq. subst σ2 σ1. unfold set_heap, set_client. simpl.
  destruct (client σ) eqn:Hc; simpl; by rewrite ?Hc.
Qed.

(** C7: whatever mapping the caller passes as [params] to [get],
    [post], [put] or [delete], with or without a value of its own under
    ['api-key'], every request the call sends carries the configured
    API key under ['api-key']; and a request is sent whenever
    [max_retries] is not negative. *)
Theorem api_key_on_every_request endpoint data params σ :
  Forall (λ run : M state exn pyval,
            ∃ evs,
              trace (run σ).2 = trace σ ++ evs ∧
              Forall (carries_api_key (api_key self)) evs ∧
              (0 ≤ max_retries self →
               ∃ method url sent_params body rest,
                 evs = Request method url sent_params body :: rest ∧
                 sent_params = <["api-key" := PStr (api_key self)]>
                                 (params_before params σ)))
    [get urljoin upstream self endpoint params;
     post urljoin upstream self endpoint data params;
     put urljoin upstream self endpoint data params;
     delete urljoin upstream self endpoint params].
Proof.
  rewrite get_shape, post_shape, put_shape, delete_shape.
  repeat apply Forall_cons_2; [..|apply Forall_nil_2].
  all: match goal with
       | |- context [public_operation _ _ _ ?m ?b _ _] =>
           destruct (public_operation_effect m b endpoint params σ)
             as (evs & -> & Hall & Hfirst)
       end.
  all: exists evs; split; [reflexivity|]; split.
  all: try (intros H0; destruct (Hfirst H0) as (rest & ->); by eauto 10).
  all: eapply Forall_impl; [exact Hall|].
  all: intros ev [->|[d ->]]; simpl; [apply lookup_insert_eq|done].
Qed.

(** C10, as the code has it: a non-empty dict passed as [params] to
    [get], [post], [put] or [delete] is itself given the API key under
    ['api-key'], its other items kept; an empty dict passed as [params]
    is left empty, the key going into a new dict instead. *)
Theorem nonempty_params_keyed_in_place endpoint data l d σ :
  heap σ !! l = Some d →
  Forall (λ run : M state exn pyval,
            (d ≠ ∅ → keyed_in_place (api_key self) l σ (run σ).2) ∧
            (d = ∅ → heap (run σ).2 !! l = Some ∅))
    [get urljoin upstream self endpoint (Some l);
     post urljoin upstream self endpoint data (Some l);
     put urljoin upstream self endpoint data (Some l);
     delete urljoin upstream self endpoint (Some l)].
Proof.
  intros Hl.
  rewrite get_shape, post_shape, put_shape, delete_shape.
  repeat apply Forall_cons_2; [..|apply Forall_nil_2].
  all: match goal with
       | |- context [public_operation _ _ _ ?m ?b _ _] =>
           destruct (public_operation_effect m b endpoint (Some l) σ)
             as (evs & -> & _ & _)
       end.
  all: unfold params_object, params_before, keyed_in_place; rewrite Hl; simpl.
  all: unfold truthy, gmap_truthy; split; intros Hd.
  all: try (rewrite bool_decide_eq_false_2 by done; simpl;
            exists d; split; [done|apply lookup_insert_eq]).
  all: subst d; rewrite bool_decide_eq_true_2 by done; simpl.
  all: rewrite lookup_insert_ne; [done|].
  all: intros Heq; apply (is_fresh (dom (heap σ))); rewrite Heq.
  all: apply elem_of_dom; eauto.
Qed.

End public_operations.

Lemma nonempty_params_keyed_in_place_witness :
  Forall (λ run : M DataGovClient.state DataGovClient.exn pyval,
            ({["limit" := PInt 5]} ≠ (∅ : gmap string pyval) →
             keyed_in_place (DataGovClient.api_key client_3_1) 7
               (caller_state {["limit" := PInt 5]})
               (run (caller_state {["limit" := PInt 5]})).2) ∧
            ({["limit" := PInt 5]} = (∅ : gmap string pyval) →
             DataGovClient.heap (run (caller_state {["limit" := PInt 5]})).2 !! 7%nat
             = Some ∅))
    [DataGovClient.get String.append (always_status 503) client_3_1 "/x" (Some 7%nat);
     DataGovClient.post String.append (always_status 503) client_3_1 "/x" None (Some 7%nat);
     DataGovClient.put String.append (always_status 503) client_3_1 "/x" None (Some 7%nat);
     DataGovClient.delete String.append (always_status 503) client_3_1 "/x" (Some 7%nat)].
Proof.
  apply (nonempty_params_keyed_in_place String.append (always_status 503)
           client_3_1 "/x" None 7%nat {["limit" := PInt 5]}
           (caller_state {["limit" := PInt 5]})).
  reflexivity.
Defined.

(** C10 as stated fails for an empty dict: the caller passes [{}] as
    [params] to [get]; after the call that dict is still empty. *)
Lemma empty_params_not_keyed :
  DataGovClient.heap
    (DataGovClient.get String.append (always_status 404) client_3_1 "/x"
       (Some 7%nat) (caller_state ∅)).2 !! 7%nat = Some ∅ ∧
  ¬ keyed_in_place (DataGovClient.api_key client_3_1) 7 (caller_state ∅)
      (DataGovClient.get String.append (always_status 404) client_3_1 "/x"
         (Some 7%nat) (caller_state ∅)).2.
Proof.
  assert (Hrun : DataGovClient.heap
            (DataGovClient.get String.append (always_status 404) client_3_1 "/x"
               (Some 7%nat) (caller_state ∅)).2 !! 7%nat = Some ∅).
  { vm_compute. reflexivity. }
  split; [exact Hrun|].
  intros (d & Hd & Hafter). rewrite Hrun in Hafter.
  injection Hafter as Hafter.
  apply (f_equal (λ m : gmap string pyval, m !! "api-key")) in Hafter.
  rewrite lookup_insert_eq, lookup_empty in Hafter. discriminate.
Qed.

Section mandi.
Import DataGovClient.
Variable urljoin : string → string → string.
Variable upstream : nat → attempt.
Variable self : config.

Lemma lookup_add_filter key value (params : gmap string pyval) k :
  add_filter key value params !! k
  = if decide (key = k)
    then match contribution value with
         | Some v => Some v
         | None => params !! k
         end
    else params !! k.
Proof.
  unfold add_filter, contribution.
  destruct value as [[|c v]|]; simpl; case_decide; subst; try done.
  - by rewrite lookup_insert_eq.
  - by rewrite lookup_insert_ne.
Qed.

Lemma mandi_params_lookup q k :
  mandi_params q !! k
  = if decide (k = "filters[grade]") then contribution (grade q)
    else if decide (k = "filters[variety]") then contribution (variety q)
    else if decide (k = "filters[commodity]") then contribution (commodity q)
    else if decide (k = "filters[market]") then contribution (market q)
    else if decide (k = "filters[district]") then contribution (district q)
    else if decide (k = "filters[state.keyword]") then contribution (state_ q)
    else if decide (k = "limit") then Some (PInt (limit q))
    else if decide (k = "offset") then Some (PInt (offset q))
    else if decide (k = "format") then Some (PStr (format q))
    else None.
Proof.
  unfold mandi_params. rewrite !lookup_add_filter.
  repeat (case_decide; subst;
          [repeat (rewrite decide_False by discriminate);
           rewrite ?decide_True by done;
           repeat match goal with
                  | |- context [contribution ?v] => destruct (contribution v)
                  end;
           try done;
           by rewrite ?lookup_insert_ne, ?lookup_insert_eq by discriminate
          |]).
  repeat (case_decide; [congruence|]).
  by rewrite !lookup_insert_ne, lookup_empty by congruence.
Qed.

Lemma get_mandi_prices_effect q σ :
  ∃ evs,
    trace (get_mandi_prices urljoin upstream self q σ).2 = trace σ ++ evs ∧
    Forall (λ ev, ev = Request "get"
                         (_build_url urljoin self
                            "/resource/9ef84268-d588-465a-a308-a864a43d0070")
                         (<["api-key" := PStr (api_key self)]> (mandi_params q))
                         None
                  ∨ ∃ d, ev = Sleep d) evs ∧
    (0 ≤ max_retries self →
     ∃ rest, evs = Request "get"
                     (_build_url urljoin self
                        "/resource/9ef84268-d588-465a-a308-a864a43d0070")
                     (<["api-key" := PStr (api_key self)]> (mandi_params q))
                     None :: rest).
Proof.
  unfold get_mandi_prices. unfold mbind at 1, M_bind at 1.
  unfold new_dict at 1. cbv beta iota zeta.
  set (l := fresh (dom (heap σ))).
  set (σ1 := set_heap (<[l := mandi_params q]> (heap σ)) σ).
  rewrite get_shape.
  destruct (public_operation_effect urljoin upstream self "get" None
              "/resource/9ef84268-d588-465a-a308-a864a43d0070" (Some l) σ1)
    as (evs & -> & Hall & Hfirst).
  assert (Hb : params_before (Some l) σ1 = mandi_params q).
  { unfold params_before. subst σ1. simpl. by rewrite lookup_insert_eq. }
  rewrite Hb in Hall, Hfirst.
  exists evs. split; [reflexivity|]. split; [exact Hall|exact Hfirst].
Qed.

(** C6: in the query the mandi-price helper builds, each of [state],
    [district], [market], [commodity], [variety], [grade] that is
    present and not the empty string is the value of one parameter -
    [filters[state.keyword]] for [state], [filters[<name>]] for the
    other five - and an absent or empty one leaves no parameter under
    its key; [format], [offset] and [limit] are always there; the query
    has no other key; and the request [get_mandi_prices] sends carries
    exactly these parameters, plus the API key. *)
Theorem mandi_filters_become_parameters q σ :
  Forall (λ '(key, field), mandi_params q !! key = contribution (field q))
    filter_keys ∧
  mandi_params q !! "format" = Some (PStr (format q)) ∧
  mandi_params q !! "offset" = Some (PInt (offset q)) ∧
  mandi_params q !! "limit" = Some (PInt (limit q)) ∧
  (∀ k, is_Some (mandi_params q !! k) →
        k ∈ ["format"; "offset"; "limit"] ∨
        ∃ field v, (k, field) ∈ filter_keys ∧ field q = Some v ∧ v ≠ "") ∧
  ∃ evs,
    trace (get_mandi_prices urljoin upstream self q σ).2 = trace σ ++ evs ∧
    Forall (λ ev, ∀ method url params body,
              ev = Request method url params body →
              params = <["api-key" := PStr (api_key self)]> (mandi_params q)) evs ∧
    (0 ≤ max_retries self → ∃ method url params body rest,
       evs = Request method url params body :: rest).
Proof.
  split; [|split; [|split; [|split; [|split]]]].
  - unfold filter_keys. repeat constructor; by rewrite mandi_params_lookup.
  - by rewrite mandi_params_lookup.
  - by rewrite mandi_params_lookup.
  - by rewrite mandi_params_lookup.
  - intros k. rewrite mandi_params_lookup. unfold filter_keys.
    assert (Hc : ∀ value : option string,
               is_Some (contribution value) → ∃ v, value = Some v ∧ v ≠ "").
    { intros [[|c v]|] [x Hx]; try discriminate. by eauto. }
    repeat (case_decide; subst;
            [first [ intros _; left; by repeat constructor
                   | intros (v & Hv & Hne)%Hc; right;
                     eexists _, v; split; [|by split];
                     repeat (first [by apply list_elem_of_here
                                   |apply list_elem_of_further]) ]|]).
    by intros [? ?].
  - destruct (get_mandi_prices_effect q σ) as (evs & Ht & Hall & Hfirst).
    exists evs. split; [exact Ht|]. split.
    + eapply Forall_impl; [exact Hall|].
      intros ev [->|[d ->]] m u p b Hev; by inversion Hev.
    + intros H0. destruct (Hfirst H0) as (rest & ->). by eauto 10.
Qed.

End mandi.

(** The specification's end-to-end scenario: a 503 followed by a 200
    yields the parsed body, after one request, one sleep of the base
    delay and a second request with the same parameters. *)
Example punjab_wheat_retried_once :
  ∃ σ', DataGovClient.get_mandi_prices String.append busy_once client_3_1
          punjab_wheat fresh_state = (Returns (PDict []), σ') ∧
        sleeps (DataGovClient.trace σ') = [1] ∧
        attempts (DataGovClient.trace σ') = 2%nat ∧
        Forall (carries_api_key "KEY") (DataGovClient.trace σ').
Proof.
  eexists. split; [vm_compute; reflexivity|].
  split; [reflexivity|]. split; [reflexivity|].
  repeat constructor.
Qed.

Example punjab_wheat_query :
  DataGovClient.mandi_params punjab_wheat !! "filters[state.keyword]"
    = Some (PStr "Punjab") ∧
  DataGovClient.mandi_params punjab_wheat !! "filters[commodity]"
    = Some (PStr "Wheat") ∧
  DataGovClient.mandi_params punjab_wheat !! "filters[market]" = None ∧
  DataGovClient.mandi_params punjab_wheat !! "filters[district]" = None ∧
  DataGovClient.mandi_params punjab_wheat !! "format" = Some (PStr "json") ∧
  DataGovClient.mandi_params punjab_wheat !! "offset" = Some (PInt 0) ∧
  DataGovClient.mandi_params punjab_wheat !! "limit" = Some (PInt 5) ∧
  size (DataGovClient.mandi_params punjab_wheat) = 5%nat.
Proof. vm_compute. repeat split. Qed.

Section build_key.
Context {A : Type} `{Truthy A, PyStr A}.

Lemma generator_kept_parts (parts : list A) :
  flat_map (λ p, if truthy p then [py_str p] else []) parts = kept_parts parts.
Proof.
  unfold kept_parts. induction parts as [|p parts IH]; [done|].
  simpl. destruct (truthy p); simpl; by rewrite IH.
Qed.

Lemma split_on_append sep s rest :
  has_char sep s = false →
  split_on sep (s +:+ String sep rest) = s :: split_on sep rest.
Proof.
  induction s as [|c s IH]; simpl.
  - by rewrite Ascii.eqb_refl.
  - intros [Hc Hs]%orb_false_iff. rewrite Hc, (IH Hs). done.
Qed.

Lemma split_on_whole sep s :
  has_char sep s = false → split_on sep s = [s].
Proof.
  induction s as [|c s IH]; simpl; [done|].
  intros [Hc Hs]%orb_false_iff. by rewrite Hc, (IH Hs).
Qed.

Lemma split_on_str_join sep (l : list string) :
  l ≠ [] →
  Forall (λ s, has_char sep s = false) l →
  split_on sep (str_join (String sep "") l) = l.
Proof.
  induction l as [|s l IH]; [done|]. intros _ Hall.
  apply Forall_cons in Hall as [Hs Hl].
  destruct l as [|s' l].
  - simpl. by apply split_on_whole.
  - change (str_join (String sep "") (s :: s' :: l))
      with (s +:+ String sep (str_join (String sep "") (s' :: l))).
    rewrite split_on_append by done. f_equal. by apply IH.
Qed.

End build_key.

(** C9: [build_key] returns the string forms of exactly the non-falsy
    parts, joined with [':'] in their original order: empty and falsy
    parts leave no trace, and splitting the key at [':'] gives back the
    string forms of the kept parts, in order, when none of them has a
    colon; [build_key("a", "", "b", None)] is ["a:b"]. *)
Theorem build_key_joins_kept_parts {A : Type} `{Truthy A, PyStr A}
    (parts : list A) :
  RedisManager.build_key parts = str_join ":" (kept_parts parts) ∧
  (∀ before p after, parts = before ++ p :: after → truthy p = false →
     RedisManager.build_key parts = RedisManager.build_key (before ++ after)) ∧
  (kept_parts parts ≠ [] →
   Forall (λ s, has_char ":" s = false) (kept_parts parts) →
   split_on ":" (RedisManager.build_key parts) = kept_parts parts) ∧
  RedisManager.build_key [AStr "a"; AStr ""; AStr "b"; ANone] = "a:b".
Proof.
  unfold RedisManager.build_key. rewrite generator_kept_parts.
  split; [done|]. split; [|split; [|done]].
  - intros before p after -> Hp. rewrite generator_kept_parts.
    unfold kept_parts. rewrite !List.filter_app. simpl. by rewrite Hp.
  - intros Hne Hall. by apply split_on_str_join.
Qed.

Section cache_failures.
Import RedisManager.
Variable REDIS_DECODE_RESPONSES : bool.
Variable REDIS_CACHE_EXPIRATION : Z.

(** The [except] clause of every method: what it names never leaves. *)
Lemma try_except_absorbs {B} (body : M state exn B) (fallback : B) σ e :
  (try_except body (λ e, if handled e then Some (mret fallback) else None) σ).1
  = Raises e →
  handled e = false.
Proof.
  unfold try_except. destruct (body σ) as [[b|e'|] σ']; simpl; [done| |done].
  destruct (handled e') eqn:He'; simpl; [done|]. by intros [= <-].
Qed.

Lemma client_unreachable {B} (k : M state exn B) σ :
  reachable σ = false →
  _client σ = false →
  (client;; k) σ = (Raises ConnectionError, σ).
Proof.
  intros Hr Hc. unfold client, mbind, M_bind, gets, _setup_redis_client, modify,
    raise. simpl. rewrite Hc. simpl. rewrite Hr. simpl.
  destruct σ; simpl in *; by subst.
Qed.

Lemma client_ready {B} (k : M state exn B) σ :
  _client σ = true ∨ reachable σ = true →
  (client;; k) σ = k (set__client true σ).
Proof.
  intros Hor. unfold client, mbind, M_bind, gets, _setup_redis_client, modify,
    raise, mret, M_ret. simpl.
  destruct (_client σ) eqn:Hc; simpl.
  - destruct σ; simpl in *; by subst.
  - destruct Hor as [?|Hr]; [done|]. by rewrite Hr.
Qed.

Lemma command_unreachable c σ :
  reachable σ = false →
  execute_command REDIS_DECODE_RESPONSES c σ = (Raises RedisConnectionError, σ).
Proof. intros Hr. unfold execute_command. by rewrite Hr. Qed.

Lemma pipeline_unreachable cs σ :
  reachable σ = false →
  cs ≠ [] →
  pipeline_execute REDIS_DECODE_RESPONSES cs σ = (Raises RedisConnectionError, σ).
Proof.
  intros Hr Hcs. unfold pipeline_execute. destruct cs; [done|]. by rewrite Hr.
Qed.

(** A body that goes through the [client] property and then straight
    to the server fails with a handled error when the server is away. *)
Lemma guarded_unreachable {B} (body : M state exn B) (fallback : B) σ :
  reachable σ = false →
  (∀ σ1, reachable σ1 = false → ∃ e σ2, body σ1 = (Raises e, σ2) ∧ handled e = true) →
  (try_except (client;; body)
     (λ e, if handled e then Some (mret fallback) else None) σ).1
  = Returns fallback.
Proof.
  intros Hr Hbody. unfold try_except.
  destruct (_client σ) eqn:Hc.
  - rewrite client_ready by auto.
    destruct (Hbody (set__client true σ) Hr) as (e & σ2 & -> & He).
    by rewrite He.
  - by rewrite client_unreachable.
Qed.

Lemma get_unreachable key default σ :
  reachable σ = false →
  (get REDIS_DECODE_RESPONSES key default σ).1 = Returns default.
Proof.
  intros Hr. apply guarded_unreachable; [done|].
  intros σ1 Hr1. unfold mbind, M_bind. rewrite command_unreachable by done.
  eauto.
Qed.

Lemma delete_unreachable key σ :
  reachable σ = false →
  (delete REDIS_DECODE_RESPONSES key σ).1 = Returns false.
Proof.
  intros Hr. apply guarded_unreachable; [done|].
  intros σ1 Hr1. unfold mbind, M_bind. rewrite command_unreachable by done.
  eauto.
Qed.

Lemma exists_unreachable key σ :
  reachable σ = false →
  (exists_ REDIS_DECODE_RESPONSES key σ).1 = Returns false.
Proof.
  intros Hr. apply guarded_unreachable; [done|].
  intros σ1 Hr1. unfold mbind, M_bind. rewrite command_unreachable by done.
  eauto.
Qed.

Lemma flush_all_unreachable σ :
  reachable σ = false →
  (flush_all REDIS_DECODE_RESPONSES σ).1 = Returns false.
Proof.
  intros Hr. apply guarded_unreachable; [done|].
  intros σ1 Hr1. unfold mbind, M_bind. rewrite command_unreachable by done.
  eauto.
Qed.

Lemma get_many_unreachable keys σ :
  reachable σ = false →
  (get_many REDIS_DECODE_RESPONSES keys σ).1 = Returns ∅.
Proof.
  intros Hr. destruct keys as [|key keys].
  - unfold get_many, try_except.
    destruct (_client σ) eqn:Hc.
    + by rewrite client_ready by auto.
    + by rewrite client_unreachable.
  - apply guarded_unreachable; [done|].
    intros σ1 Hr1. unfold mbind, M_bind. rewrite pipeline_unreachable by done.
    eauto.
Qed.

Lemma serialize_value value σ :
  (if negb (is_str_or_bytes value) then json_dumps value else mret value) σ
  = match stored_form value with
    | Some v => (Returns v, σ)
    | None => (Raises TypeError, σ)
    end.
Proof.
  unfold stored_form, json_dumps.
  destruct (is_str_or_bytes value); simpl; [done|].
  by destruct (json.dumps value).
Qed.

Lemma stored_form_wire value v :
  stored_form value = Some v → is_Some (wire v).
Proof.
  unfold stored_form. destruct (is_str_or_bytes value) eqn:Hv.
  - intros [= <-]. destruct value; try done; simpl; eauto.
  - destruct (json.dumps value); [|done]. intros [= <-]. simpl. eauto.
Qed.

Lemma set_unreachable key value expiration σ :
  reachable σ = false →
  is_Some (stored_form value) →
  (set REDIS_DECODE_RESPONSES REDIS_CACHE_EXPIRATION key value expiration σ).1
  = Returns (PBool false).
Proof.
  intros Hr [v Hv]. unfold set, try_except.
  unfold mbind at 1, M_bind at 1. rewrite serialize_value, Hv.
  destruct (_client σ) eqn:Hc.
  - rewrite client_ready by auto.
    destruct (stored_form_wire _ _ Hv) as [octets Ho].
    unfold send, mbind, M_bind. rewrite Ho. simpl.
    by rewrite command_unreachable.
  - by rewrite client_unreachable.
Qed.

(** A value [json.dumps] refuses makes [set] raise: [TypeError] is not
    named by the [except] clause. *)
Lemma set_unserializable key value expiration σ :
  stored_form value = None →
  set REDIS_DECODE_RESPONSES REDIS_CACHE_EXPIRATION key value expiration σ
  = (Raises TypeError, σ).
Proof.
  intros Hv. unfold set, try_except.
  unfold mbind at 1, M_bind at 1. by rewrite serialize_value, Hv.
Qed.

Lemma serialize_all_run mapping σ :
  serialize_all mapping σ
  = match stored_items mapping with
    | Some items => (Returns items, σ)
    | None => (Raises TypeError, σ)
    end.
Proof.
  unfold stored_items. induction mapping as [|[k v] mapping IH]; [done|].
  simpl. unfold mbind at 1, M_bind at 1. rewrite serialize_value.
  destruct (stored_form v) as [v'|]; simpl; [|done].
  unfold mbind at 1, M_bind at 1. rewrite IH.
  by destruct (mapM _ mapping).
Qed.

Lemma queue_sets_run mapping items expiration σ :
  stored_items mapping = Some items →
  ∃ cs, queue_sets REDIS_CACHE_EXPIRATION items expiration σ = (Returns cs, σ) ∧
        (mapping ≠ [] → cs ≠ []).
Proof.
  unfold stored_items. revert items.
  induction mapping as [|[k v] mapping IH]; intros items.
  - intros [= <-]. by eexists.
  - simpl. destruct (stored_form v) as [v'|] eqn:Hv; simpl; [|done].
    destruct (mapM _ mapping) as [rest|]; simpl; [|done].
    intros [= <-]. simpl.
    destruct (stored_form_wire _ _ Hv) as [octets Ho].
    destruct (IH rest eq_refl) as (cs & Hcs & _).
    unfold send, mbind, M_bind. rewrite Ho. simpl. rewrite Hcs. by eexists.
Qed.

Lemma set_many_unreachable mapping expiration σ :
  reachable σ = false →
  is_Some (stored_items mapping) →
  mapping ≠ [] ∨ _client σ = false →
  (set_many REDIS_DECODE_RESPONSES REDIS_CACHE_EXPIRATION mapping expiration σ).1
  = Returns false.
Proof.
  intros Hr [items Hitems] Hsent. unfold set_many, try_except.
  unfold mbind at 1, M_bind at 1. rewrite serialize_all_run, Hitems.
  destruct (_client σ) eqn:Hc.
  - destruct Hsent as [Hne|?]; [|done]. rewrite client_ready by auto.
    destruct (queue_sets_run _ _ expiration (set__client true σ) Hitems)
      as (cs & Hcs & Hcons).
    unfold mbind, M_bind. rewrite Hcs.
    by rewrite pipeline_unreachable by auto.
  - by rewrite client_unreachable.
Qed.

(** With nothing to write and a client at hand, [set_many] never
    reaches the server: it returns [True] even when the server is
    away. *)
Lemma set_many_nothing expiration σ :
  _client σ = true →
  set_many REDIS_DECODE_RESPONSES REDIS_CACHE_EXPIRATION [] expiration σ
  = (Returns true, σ).
Proof.
  intros Hc. unfold set_many, try_except.
  unfold mbind at 1, M_bind at 1. cbn [serialize_all mret M_ret].
  rewrite client_ready by auto.
  unfold mbind, M_bind. cbn [queue_sets mret M_ret pipeline_execute].
  destruct σ; simpl in *; by subst.
Qed.

Lemma get_miss key default σ :
  live σ key = None →
  (get REDIS_DECODE_RESPONSES key default σ).1 = Returns default.
Proof.
  intros Hmiss. destruct (reachable σ) eqn:Hr; [|by apply get_unreachable].
  unfold get, try_except. rewrite client_ready by auto.
  unfold mbind, M_bind, execute_command. simpl. rewrite Hr. simpl.
  change (live (set__client true σ) key) with (live σ key).
  by rewrite Hmiss.
Qed.

(** C5, as the code has it: no operation lets a Redis error or the
    [ConnectionError] of the [client] property through.  With the store
    unreachable [get] returns the caller's default, [set], [delete],
    [exists] and [flush_all] return [False] (for [set], given a value
    [json.dumps] accepts) and [get_many] returns an empty mapping;
    [set_many], given values [json.dumps] accepts, returns [False] when
    the mapping is not empty or no client is held, and [True] for an
    empty mapping on a client that is held, nothing being sent then;
    [get] returns the default as well for a key never written or
    expired. *)
Theorem store_failures_are_absorbed σ :
  (∀ key default, reachable σ = false ∨ live σ key = None →
     (get REDIS_DECODE_RESPONSES key default σ).1 = Returns default) ∧
  (reachable σ = false →
     (∀ key value expiration, is_Some (stored_form value) →
        (set REDIS_DECODE_RESPONSES REDIS_CACHE_EXPIRATION key value
           expiration σ).1 = Returns (PBool false)) ∧
     (∀ mapping expiration, is_Some (stored_items mapping) →
        mapping ≠ [] ∨ _client σ = false →
        (set_many REDIS_DECODE_RESPONSES REDIS_CACHE_EXPIRATION mapping
           expiration σ).1 = Returns false) ∧
     (∀ expiration, _client σ = true →
        (set_many REDIS_DECODE_RESPONSES REDIS_CACHE_EXPIRATION []
           expiration σ).1 = Returns true) ∧
     (∀ key, (delete REDIS_DECODE_RESPONSES key σ).1 = Returns false) ∧
     (∀ key, (exists_ REDIS_DECODE_RESPONSES key σ).1 = Returns false) ∧
     (flush_all REDIS_DECODE_RESPONSES σ).1 = Returns false ∧
     (∀ keys, (get_many REDIS_DECODE_RESPONSES keys σ).1 = Returns ∅)) ∧
  (∀ e, handled e = true →
     (∀ key default, (get REDIS_DECODE_RESPONSES key default σ).1 ≠ Raises e) ∧
     (∀ key value expiration,
        (set REDIS_DECODE_RESPONSES REDIS_CACHE_EXPIRATION key value
           expiration σ).1 ≠ Raises e) ∧
     (∀ mapping expiration,
        (set_many REDIS_DECODE_RESPONSES REDIS_CACHE_EXPIRATION mapping
           expiration σ).1 ≠ Raises e) ∧
     (∀ key, (delete REDIS_DECODE_RESPONSES key σ).1 ≠ Raises e) ∧
     (∀ key, (exists_ REDIS_DECODE_RESPONSES key σ).1 ≠ Raises e) ∧
     (flush_all REDIS_DECODE_RESPONSES σ).1 ≠ Raises e ∧
     (∀ keys, (get_many REDIS_DECODE_RESPONSES keys σ).1 ≠ Raises e)).
Proof.
  split; [|split].
  - intros key default [Hr|Hmiss]; [by apply get_unreachable|by apply get_miss].
  - intros Hr. repeat split; intros.
    + by apply set_unreachable.
    + by apply set_many_unreachable.
    + by rewrite set_many_nothing.
    + by apply delete_unreachable.
    + by apply exists_unreachable.
    + by apply flush_all_unreachable.
    + by apply get_many_unreachable.
  - intros e He.
    repeat split; intros; intros Hraise;
      apply try_except_absorbs in Hraise; congruence.
Qed.

End cache_failures.

(** C5 as stated fails where serialization fails: [set] of a list that
    holds [bytes] raises [TypeError] instead of returning [False], and
    so does [set_many]. *)
Lemma set_raises_on_unserializable :
  json.dumps (PList [PBytes "x"]) = None ∧
  (RedisManager.set true 3600 "k" (PList [PBytes "x"]) None empty_store
   = (Raises RedisManager.TypeError, empty_store) ∧
   (RedisManager.set true 3600 "k" (PList [PBytes "x"]) None empty_store).1
   ≠ Returns (PBool false)) ∧
  (RedisManager.set_many true 3600 [("k", PList [PBytes "x"])] None empty_store
   = (Raises RedisManager.TypeError, empty_store) ∧
   (RedisManager.set_many true 3600 [("k", PList [PBytes "x"])] None
      empty_store).1 ≠ Returns false).
Proof. repeat split; discriminate. Qed.

Section cache_reads.
Import RedisManager.
Variable REDIS_DECODE_RESPONSES : bool.

(** Reading does not change the server. *)
Lemma run_all_gets keys σ :
  run_all (GET <$> keys) σ = ((λ k, Bulk (live σ k)) <$> keys, σ).
Proof.
  induction keys as [|k keys IH]; [done|].
  rewrite !fmap_cons. cbn [run_all server]. by rewrite IH.
Qed.

(** A bulk reply with octets is never [None] for the client. *)
Lemma parse_reply_not_none octets value :
  parse_reply REDIS_DECODE_RESPONSES (Bulk (Some octets)) = Returns value → value ≠ PNone.
Proof.
  unfold parse_reply. destruct REDIS_DECODE_RESPONSES.
  - destruct (utf8.decode octets); [|done..]. by intros [= <-].
  - by intros [= <-].
Qed.

Lemma parse_reply_readable octets :
  readable REDIS_DECODE_RESPONSES octets →
  ∃ value v, parse_reply REDIS_DECODE_RESPONSES (Bulk (Some octets)) = Returns value ∧
             value ≠ PNone ∧
             from_json_if_it_looks_like_json value = Returns v ∧
             read_back REDIS_DECODE_RESPONSES octets = Returns v.
Proof.
  intros [v Hv]. pose proof Hv as Hread. unfold read_back in Hv.
  destruct (parse_reply REDIS_DECODE_RESPONSES (Bulk (Some octets))) as [value| |] eqn:Hp; [|done..].
  exists value, v. repeat split; [|done..].
  by apply (parse_reply_not_none octets).
Qed.

Lemma startswith_char s a :
  startswith s (String a "") = true → ∃ r, s = String a r.
Proof.
  destruct s as [|b s]; [done|].
  change (startswith (String b s) (String a ""))
    with ((a =? b)%char && true).
  rewrite andb_true_r. intros ->%Ascii.eqb_eq. by eexists.
Qed.

(** A text that starts with a brace or a bracket decodes, if at all, to
    a dict or a list. *)
Lemma read_container s v :
  startswith s "{" || startswith s "[" = true →
  json.read s = Some v →
  (∃ d, v = PDict d) ∨ (∃ l, v = PList l).
Proof.
  intros [[r ->]%startswith_char|[r ->]%startswith_char]%orb_true_iff;
    unfold json.read; rewrite skip_ws_head by done;
    (destruct (2 * String.length _ + 2)%nat as [|fuel]; [done|]).
  - rewrite parse_value_dict.
    destruct (json.skip_ws r) as [|c1 r1]; [done|].
    destruct (c1 =? "}")%char.
    + destruct (json.skip_ws r1); [|done]. intros [= <-]. eauto.
    + destruct (json.parse_members _ _) as [[ms r2]|]; [|done].
      cbn [mbind option_bind]. destruct (json.skip_ws r2); [|done].
      intros [= <-]. eauto.
  - rewrite parse_value_list.
    destruct (json.skip_ws r) as [|c1 r1]; [done|].
    destruct (c1 =? "]")%char.
    + destruct (json.skip_ws r1); [|done]. intros [= <-]. eauto.
    + destruct (json.parse_items _ _) as [[vs r2]|]; [|done].
      cbn [mbind option_bind]. destruct (json.skip_ws r2); [|done].
      intros [= <-]. eauto.
Qed.

Lemma loads_container s v :
  startswith s "{" || startswith s "[" = true →
  json.loads s = json.Value v →
  (∃ d, v = PDict d) ∨ (∃ l, v = PList l).
Proof.
  intros Hs. unfold json.loads.
  destruct (json.read s) as [v'|] eqn:Hv; [|by destruct (json.beyond s)].
  intros [= <-]. by apply (read_container s).
Qed.

Lemma from_json_not_none value v :
  value ≠ PNone → from_json_if_it_looks_like_json value = Returns v → v ≠ PNone.
Proof.
  intros Hne. destruct value; try (by intros [= <-]).
  unfold from_json_if_it_looks_like_json.
  destruct (startswith s "{" || startswith s "[") eqn:Hs; [|by intros [= <-]].
  destruct (json.loads s) as [v'| |] eqn:Hv; [| by intros [= <-] | done].
  intros [= <-].
  by destruct (loads_container s v' Hs Hv) as [[d ->]|[l ->]].
Qed.

Lemma cached_not_none σ k v : cached REDIS_DECODE_RESPONSES σ k = Some v → v ≠ PNone.
Proof.
  unfold cached. destruct (live σ k) as [octets|]; [|done]. simpl.
  unfold read_back.
  destruct (parse_reply REDIS_DECODE_RESPONSES (Bulk (Some octets))) as [value| |] eqn:Hp; [|done..].
  destruct (from_json_if_it_looks_like_json value) as [v'| |] eqn:Hv; [|done..].
  intros [= <-]. eapply from_json_not_none; [|exact Hv].
  by apply (parse_reply_not_none octets).
Qed.

(** The replies to the [GET]s of [get_many], as the client parses
    them. *)
Lemma parse_all_replies σ keys :
  Forall (λ k, ∀ octets, live σ k = Some octets → readable REDIS_DECODE_RESPONSES octets) keys →
  ∃ values,
    parse_all REDIS_DECODE_RESPONSES ((λ k, Bulk (live σ k)) <$> keys) = Returns values ∧
    Forall2 (λ k value,
               match cached REDIS_DECODE_RESPONSES σ k with
               | Some v => value ≠ PNone ∧
                           from_json_if_it_looks_like_json value = Returns v
               | None => value = PNone
               end) keys values.
Proof.
  induction keys as [|k keys IH]; intros Hall.
  - exists []. split; [done|constructor].
  - apply Forall_cons in Hall as [Hk Hkeys].
    destruct (IH Hkeys) as (values & Hvalues & H2).
    rewrite fmap_cons. cbn [parse_all].
    destruct (live σ k) as [octets|] eqn:Hlive.
    + destruct (parse_reply_readable octets (Hk octets eq_refl))
        as (value & v & Hvalue & Hne & Hv & Hback).
      rewrite Hvalue, Hvalues. exists (value :: values). split; [done|].
      constructor; [|done]. unfold cached. rewrite Hlive. simpl.
      by rewrite Hback.
    + cbn [parse_reply]. rewrite Hvalues. exists (PNone :: values).
      split; [done|]. constructor; [|done]. unfold cached. by rewrite Hlive.
Qed.

(** The loop of [get_many] keeps exactly the keys with a value. *)
Lemma collect_run σ0 (h : string → option pyval) keys :
  ∀ values pre result,
    Forall2 (λ k value,
               match h k with
               | Some v => value ≠ PNone ∧
                           from_json_if_it_looks_like_json value = Returns v
               | None => value = PNone
               end) keys values →
    ∃ m, collect (pre ++ values) (length pre) keys result σ0 = (Returns m, σ0) ∧
         ∀ k, m !! k = if decide (k ∈ keys)
                       then match h k with
                            | Some v => Some v
                            | None => result !! k
                            end
                       else result !! k.
Proof.
  induction keys as [|key keys IH]; intros values pre result Hall.
  - apply Forall2_nil_inv_l in Hall as ->. exists result. split; [done|].
    intros k. rewrite decide_False; [done|]. by intros ?%elem_of_nil.
  - apply Forall2_cons_inv_l in Hall as (value & values' & Hv & Hall & ->).
    cbn [collect].
    assert (Hpre : (pre ++ value :: values') !! length pre = Some value)
      by by rewrite lookup_app_r, Nat.sub_diag.
    rewrite Hpre.
    assert (Hshift : pre ++ value :: values' = (pre ++ [value]) ++ values')
      by by rewrite <- app_assoc.
    assert (Hlen : S (length pre) = length (pre ++ [value]))
      by (rewrite length_app; simpl; lia).
    destruct (h key) as [v|] eqn:Hh.
    + destruct Hv as [Hne Hv].
      assert (Hgo : ∀ B (a b : B),
                 match value with PNone => a | _ => b end = b)
        by (intros; by destruct value).
      rewrite Hgo. unfold mbind, M_bind, lift. rewrite Hv, Hshift, Hlen.
      destruct (IH values' (pre ++ [value]) (<[key := v]> result) Hall)
        as (m & -> & Hm).
      exists m. split; [done|]. intros k. rewrite Hm.
      destruct (decide (k = key)) as [->|Hk].
      * rewrite (decide_True (P := key ∈ key :: keys)) by apply list_elem_of_here.
        rewrite Hh, lookup_insert_eq. by destruct (decide _).
      * rewrite lookup_insert_ne by done.
        destruct (decide (k ∈ keys)) as [Hin|Hnin].
        -- by rewrite decide_True by by apply list_elem_of_further.
        -- rewrite decide_False; [done|].
           by intros [?|?]%elem_of_cons.
    + subst value. rewrite Hshift, Hlen.
      destruct (IH values' (pre ++ [PNone]) result Hall) as (m & -> & Hm).
      exists m. split; [done|]. intros k. rewrite Hm.
      destruct (decide (k = key)) as [->|Hk].
      * rewrite (decide_True (P := key ∈ key :: keys)) by apply list_elem_of_here.
        rewrite Hh. by destruct (decide _).
      * destruct (decide (k ∈ keys)) as [Hin|Hnin].
        -- by rewrite decide_True by by apply list_elem_of_further.
        -- rewrite decide_False; [done|].
           by intros [?|?]%elem_of_cons.
Qed.

Lemma get_many_run keys σ :
  reachable σ = true →
  Forall (λ k, ∀ octets, live σ k = Some octets → readable REDIS_DECODE_RESPONSES octets) keys →
  ∃ m, get_many REDIS_DECODE_RESPONSES keys σ = (Returns m, set__client true σ) ∧
       ∀ k, m !! k = if decide (k ∈ keys) then cached REDIS_DECODE_RESPONSES σ k else None.
Proof.
  intros Hr Hread. unfold RedisManager.get_many, try_except.
  rewrite client_ready by auto.
  unfold mbind at 1, M_bind at 1.
  assert (Hpipe : pipeline_execute REDIS_DECODE_RESPONSES (GET <$> keys) (set__client true σ)
                  = (parse_all REDIS_DECODE_RESPONSES ((λ k, Bulk (live σ k)) <$> keys),
                     set__client true σ)).
  { unfold pipeline_execute. destruct keys as [|k keys]; [done|].
    rewrite fmap_cons.
    change (reachable (set__client true σ)) with (reachable σ). rewrite Hr.
    rewrite <- fmap_cons. by rewrite run_all_gets. }
  rewrite Hpipe.
  destruct (parse_all_replies σ keys Hread) as (values & -> & Hall).
  destruct (collect_run (set__client true σ) (cached REDIS_DECODE_RESPONSES σ) keys values [] ∅ Hall)
    as (m & Hm & Hlook).
  simpl in Hm. rewrite Hm. exists m. split; [done|].
  intros k. rewrite Hlook, lookup_empty. by destruct (cached REDIS_DECODE_RESPONSES σ k).
Qed.


Lemma utf8_decode_low_encode_char c r :
  utf8.decode_low (utf8.encode_char c +:+ r)
  = option_map (String c) (utf8.decode_low r).
Proof. destruct c as [[] [] [] [] [] [] [] []]; reflexivity. Qed.

Lemma utf8_decode_low_encode s : utf8.decode_low (utf8.encode s) = Some s.
Proof.
  induction s as [|c s IH]; [done|].
  change (utf8.encode (String c s)) with (utf8.encode_char c +:+ utf8.encode s).
  by rewrite utf8_decode_low_encode_char, IH.
Qed.

Lemma utf8_decode_encode s : utf8.decode (utf8.encode s) = utf8.Text s.
Proof. unfold utf8.decode. by rewrite utf8_decode_low_encode. Qed.

Lemma from_json_never_raises value e :
  from_json_if_it_looks_like_json value ≠ Raises e.
Proof.
  destruct value; try done. unfold from_json_if_it_looks_like_json.
  destruct (startswith s "{" || startswith s "["); [|done].
  by destruct (json.loads s).
Qed.

Lemma get_hit key default octets σ :
  reachable σ = true →
  live σ key = Some octets →
  get REDIS_DECODE_RESPONSES key default σ
  = (read_back REDIS_DECODE_RESPONSES octets, set__client true σ).
Proof.
  intros Hr Hlive. unfold get, try_except. rewrite client_ready by auto.
  unfold mbind, M_bind, execute_command.
  change (reachable (set__client true σ)) with (reachable σ). rewrite Hr.
  cbn [server]. change (live (set__client true σ) key) with (live σ key).
  rewrite Hlive. unfold read_back.
  destruct (parse_reply REDIS_DECODE_RESPONSES (Bulk (Some octets)))
    as [value|e|] eqn:Hp; [| |done].
  - pose proof (parse_reply_not_none octets value Hp) as Hne.
    unfold lift.
    assert (Hgo : ∀ B (a b : B), match value with PNone => a | _ => b end = b)
      by (intros; by destruct value).
    rewrite Hgo.
    pose proof (from_json_never_raises value) as Hnever.
    destruct (from_json_if_it_looks_like_json value) as [v|e'|]; [done| |done].
    by destruct (Hnever e').
  - unfold parse_reply in Hp. destruct REDIS_DECODE_RESPONSES; [|done].
    destruct (utf8.decode octets); try done. by injection Hp as <-.
Qed.

End cache_reads.

Section cache_round_trip.
Import RedisManager.
Variable REDIS_DECODE_RESPONSES : bool.
Variable REDIS_CACHE_EXPIRATION : Z.

Lemma set_stores key value expiration v octets σ :
  reachable σ = true →
  stored_form value = Some v →
  wire v = Some octets →
  expiry_accepted (now σ) (or_default REDIS_CACHE_EXPIRATION expiration) = true →
  set REDIS_DECODE_RESPONSES REDIS_CACHE_EXPIRATION key value expiration σ
  = (Returns (PBool true),
     set_db (<[key := mkEntry octets
                        (now σ + or_default REDIS_CACHE_EXPIRATION expiration)]>
               (db σ))
       (set__client true σ)).
Proof.
  intros Hr Hv Ho Hex. unfold set, try_except.
  unfold mbind at 1, M_bind at 1. rewrite serialize_value, Hv.
  rewrite client_ready by auto.
  unfold send, mbind, M_bind. rewrite Ho. cbn [mret M_ret].
  unfold execute_command.
  change (reachable (set__client true σ)) with (reachable σ). rewrite Hr.
  cbn [server]. change (now (set__client true σ)) with (now σ).
  rewrite Hex. reflexivity.
Qed.

(** What [get] finds [seconds] after a [set] that went through. *)
Lemma set_then_get_reads key value expiration default seconds v octets σ :
  reachable σ = true →
  stored_form value = Some v →
  wire v = Some octets →
  expiry_accepted (now σ) (or_default REDIS_CACHE_EXPIRATION expiration) = true →
  seconds < or_default REDIS_CACHE_EXPIRATION expiration →
  set_then_get REDIS_DECODE_RESPONSES REDIS_CACHE_EXPIRATION key value
    expiration default seconds σ
  = read_back REDIS_DECODE_RESPONSES octets.
Proof.
  intros Hr Hv Ho Hex Hs. unfold set_then_get.
  rewrite (set_stores _ _ _ v octets) by done. cbn [snd].
  rewrite (get_hit _ _ _ octets); [done|done|].
  unfold live, advance. cbn [db now set_db set__client].
  rewrite lookup_insert_eq. cbn [expires_at payload].
  rewrite (proj2 (Z.ltb_lt _ _)); [done|lia].
Qed.

Lemma scalar_text_is_not_a_container value :
  is_json_scalar value = true →
  startswith (json.encode value) "{" || startswith (json.encode value) "[" = false.
Proof.
  destruct value as [|[]|n| | | |]; try done. intros _.
  change (json.encode (PInt n)) with (pretty n).
  destruct (pretty_Z_head n "") as (c & r & Heq & Hc).
  rewrite app_nil_r_s in Heq. rewrite Heq.
  change (startswith (String c r) "{") with (("{" =? c)%char && true).
  change (startswith (String c r) "[") with (("[" =? c)%char && true).
  rewrite !andb_true_r.
  destruct (Ascii.eqb_spec "{" c) as [<-|_].
  { destruct Hc as [[d Hd]|Hd]; discriminate Hd. }
  destruct (Ascii.eqb_spec "[" c) as [<-|_]; [|done].
  destruct Hc as [[d Hd]|Hd]; discriminate Hd.
Qed.

Lemma container_text_looks_like_json value :
  is_container value = true →
  startswith (json.encode value) "{" || startswith (json.encode value) "[" = true.
Proof. destruct value; try done; intros _; reflexivity. Qed.


End cache_round_trip.





(** The specification's scenario: of [k1], [k2], [k3] only [k1] and
    [k3] exist. *)
Example get_many_k1_k3 :
  (RedisManager.get_many true ["k1"; "k2"; "k3"] three_keys_store).1
  = Returns {[ "k1" := PStr "v1"; "k3" := PList [PInt 1; PInt 2] ]}.
Proof. vm_compute. reflexivity. Qed.

(** ** More on the retrying primitive *)

Section retry_outcome.
Import DataGovClient.
Variable upstream : nat → attempt.
Variable self : config.

(** The loop stops at the first attempt it does not retry, or at the
    last attempt of the budget, and its outcome is that attempt's. *)
Lemma retry_loop_outcome method url kw (n : nat) :
  ∀ retries last σ,
    retries + Z.of_nat n = max_retries self →
    ∃ j : nat,
      (j ≤ n)%nat ∧
      (∀ i : nat, (i < j)%nat → retried (upstream (sent σ + i)%nat) = true) ∧
      ((j < n)%nat → retried (upstream (sent σ + j)%nat) = false) ∧
      retry_loop upstream self method url kw retries last σ
      = (attempt_outcome (upstream (sent σ + j)%nat),
         mkState (client σ) (heap σ) (sent σ + S j)%nat
           (trace σ ++ request_event method url kw σ
              :: backoff_events (request_event method url kw σ)
                   (retry_delay self) (retries + 1) j)).
Proof.
  induction n as [|n IH]; intros retries last σ Hmax.
  - exists 0%nat. split; [lia|]. split; [intros i Hi; lia|]. split; [lia|].
    rewrite Nat.add_0_r.
    assert (Hone : retry_loop upstream self method url kw retries last σ
                   = (attempt_outcome (upstream (sent σ)),
                      attempted method url kw σ)).
    { destruct (upstream (sent σ)) as [r|e] eqn:Hup.
      - by rewrite (retry_loop_success _ _ _ _ _ _ _ _ r) by (done || lia).
      - by rewrite (retry_loop_spent _ _ _ _ _ _ _ _ e) by (done || lia). }
    rewrite Hone. unfold attempted, count_attempt, emit. simpl.
    do 2 f_equal. lia.
  - destruct (retried (upstream (sent σ))) eqn:Hretried.
    + destruct (upstream (sent σ)) as [r|e] eqn:Hup; [done|].
      simpl in Hretried. apply andb_true_iff in Hretried as [Hc Ht].
      apply negb_true_iff in Ht.
      rewrite (retry_loop_again _ _ _ _ _ _ _ _ e) by (done || lia).
      set (σ2 := emit _ _).
      destruct (IH (retries + 1) (Some e) σ2) as (j & Hj & Hbefore & Hstop & ->);
        [lia|].
      assert (Hsent : ∀ i : nat, (sent σ2 + i = sent σ + S i)%nat)
        by (intros i; subst σ2; simpl; lia).
      exists (S j). split; [lia|]. split; [|split].
      * intros [|i] Hi.
        -- rewrite Nat.add_0_r, Hup. simpl. by rewrite Hc, Ht.
        -- rewrite <- Hsent. apply Hbefore. lia.
      * intros Hlt. rewrite <- Hsent. apply Hstop. lia.
      * rewrite Hsent. f_equal. subst σ2.
        unfold attempted, count_attempt, emit, request_event. simpl.
        f_equal; [lia|]. rewrite <- !app_assoc. simpl. repeat f_equal; lia.
    + exists 0%nat. split; [lia|]. split; [intros i Hi; lia|].
      rewrite Nat.add_0_r. split; [done|].
      assert (Hone : retry_loop upstream self method url kw retries last σ
                     = (attempt_outcome (upstream (sent σ)),
                        attempted method url kw σ)).
      { destruct (upstream (sent σ)) as [r|e] eqn:Hup.
        - by rewrite (retry_loop_success _ _ _ _ _ _ _ _ r) by (done || lia).
        - simpl in Hretried. apply andb_false_iff in Hretried as [Hc|Ht].
          + by rewrite (retry_loop_uncaught _ _ _ _ _ _ _ _ e) by (done || lia).
          + apply negb_false_iff in Ht.
            by rewrite (retry_loop_terminal _ _ _ _ _ _ _ _ e) by (done || lia). }
      rewrite Hone. unfold attempted, count_attempt, emit. simpl.
      do 2 f_equal. lia.
Qed.

End retry_outcome.

Section retry_more.
Import DataGovClient.
Variable upstream : nat → attempt.
Variable self : config.

Lemma attempts_call_events req base j :
  (∃ m u p b, req = Request m u p b) →
  attempts (call_events req base j) = S j.
Proof. apply attempts_backoff_events. Qed.

Lemma sleeps_call_events req base j :
  (∃ m u p b, req = Request m u p b) →
  sleeps (call_events req base j)
  = (λ k, base * 2 ^ (k - 1)) <$> seqZ 1 (Z.of_nat j).
Proof. apply sleeps_backoff_events. Qed.

Lemma retryable_error_retried e : retryable_error e → retried (Fails e) = true.
Proof.
  intros [Hc Ht]%retryable_error_caught. simpl. by rewrite Hc, Ht.
Qed.

(** X1: when the first [j] attempts fail with retryable errors and
    attempt [j] succeeds, with [j] within the retry budget,
    [_make_request_with_retry] returns that response: it has sent
    [j + 1] identical requests, and slept [retry_delay * 2 ^ (k - 1)]
    seconds after the [k]-th failure, for [k] from 1 to [j]. *)
Theorem success_ends_the_loop method url kw σ (j : nat) r :
  Z.of_nat j ≤ max_retries self →
  (∀ i : nat, (i < j)%nat →
     ∃ e, upstream (sent σ + i)%nat = Fails e ∧ retryable_error e) →
  upstream (sent σ + j)%nat = Succeeds r →
  ∃ σ' evs,
    _make_request_with_retry upstream self method url kw σ = (Returns r, σ') ∧
    trace σ' = trace σ ++ evs ∧
    evs = call_events (request_event (lower method) url kw σ) (retry_delay self) j ∧
    attempts evs = S j ∧
    sleeps evs = (λ k, retry_delay self * 2 ^ (k - 1)) <$> seqZ 1 (Z.of_nat j) ∧
    sent σ' = (sent σ + S j)%nat.
Proof.
  intros Hj Hfail Hok. rewrite make_request_unfold.
  set (σ0 := if client σ then σ else set_client true σ).
  assert (Hσ0 : heap σ0 = heap σ ∧ sent σ0 = sent σ ∧ trace σ0 = trace σ).
  { subst σ0. destruct (client σ); done. }
  destruct Hσ0 as (Hh & Hs & Ht).
  destruct (retry_loop_outcome upstream self (lower method) url kw
              (Z.to_nat (max_retries self)) 0 None σ0)
    as (j' & Hj' & Hbefore & Hstop & Hrun); [lia|].
  rewrite Hs in Hbefore, Hstop, Hrun.
  assert (j' = j) as ->.
  { destruct (Nat.lt_trichotomy j' j) as [Hlt|[->|Hgt]]; [|done|].
    - destruct (Hfail j' Hlt) as (e & He & Hr).
      assert (Hn : (j' < Z.to_nat (max_retries self))%nat) by lia.
      specialize (Hstop Hn). rewrite He in Hstop.
      rewrite retryable_error_retried in Hstop by done. discriminate Hstop.
    - specialize (Hbefore j Hgt). by rewrite Hok in Hbefore. }
  assert (Hreq : request_event (lower method) url kw σ0
                 = request_event (lower method) url kw σ).
  { unfold request_event. by rewrite Hh. }
  rewrite Hreq, Hok in Hrun. change (0 + 1) with 1 in Hrun.
  eexists. eexists. split; [exact Hrun|].
  simpl. rewrite Ht. split; [reflexivity|]. split; [reflexivity|].
  split; [|split; [|done]].
  - apply attempts_call_events. unfold request_event. eauto.
  - apply sleeps_call_events. unfold request_event. eauto.
Qed.

(** X2: with a retry budget that is not negative,
    [_make_request_with_retry] stops at the first attempt that is not
    retried - a response, a terminal status, an error outside
    [httpx.HTTPError] - or at attempt [max_retries] at the latest; every
    attempt before it failed with a retried error.  What it returns or
    raises is what that attempt came to; it has sent one request per
    attempt with the backoff sleeps between them, touched no dict, and
    left the client holding a session. *)
Theorem retry_budget_and_outcome method url kw σ :
  0 ≤ max_retries self →
  ∃ (j : nat) σ',
    Z.of_nat j ≤ max_retries self ∧
    (∀ i : nat, (i < j)%nat → retried (upstream (sent σ + i)%nat) = true) ∧
    (Z.of_nat j < max_retries self →
     retried (upstream (sent σ + j)%nat) = false) ∧
    _make_request_with_retry upstream self method url kw σ
    = (attempt_outcome (upstream (sent σ + j)%nat), σ') ∧
    trace σ' = trace σ ++ call_events (request_event (lower method) url kw σ)
                            (retry_delay self) j ∧
    sent σ' = (sent σ + S j)%nat ∧
    heap σ' = heap σ ∧
    client σ' = true.
Proof.
  intros Hmax. rewrite make_request_unfold.
  set (σ0 := if client σ then σ else set_client true σ).
  assert (Hσ0 : heap σ0 = heap σ ∧ sent σ0 = sent σ ∧ trace σ0 = trace σ
                ∧ client σ0 = true).
  { subst σ0. destruct (client σ) eqn:Hc; done. }
  destruct Hσ0 as (Hh & Hs & Ht & Hc).
  destruct (retry_loop_outcome upstream self (lower method) url kw
              (Z.to_nat (max_retries self)) 0 None σ0)
    as (j & Hj & Hbefore & Hstop & Hrun); [lia|].
  rewrite Hs in Hbefore, Hstop, Hrun.
  assert (Hreq : request_event (lower method) url kw σ0
                 = request_event (lower method) url kw σ).
  { unfold request_event. by rewrite Hh. }
  rewrite Hreq in Hrun. change (0 + 1) with 1 in Hrun.
  exists j. eexists. split; [lia|]. split; [done|].
  split; [intros Hlt; apply Hstop; lia|].
  split; [exact Hrun|]. simpl. by rewrite Ht, Hh, Hc.
Qed.

(** X3: for a method the session has ([get], [post], ...) and keyword
    arguments it takes, a negative [max_retries] means the loop body
    never runs: [_make_request_with_retry] makes no attempt and raises
    the [RequestError] of line 136, whose message names the URL and the
    budget; and that is the only case in which it makes no attempt. *)
Theorem no_request_iff_negative_budget method url kw σ :
  session_call method kw →
  (max_retries self < 0 →
   _make_request_with_retry upstream self method url kw σ
   = (Raises (RequestError ("Failed to make request to " +:+ url +:+ " after "
                            +:+ pretty (max_retries self) +:+ " retries")),
      if client σ then σ else set_client true σ)) ∧
  (trace (_make_request_with_retry upstream self method url kw σ).2 = trace σ
   ↔ max_retries self < 0).
Proof.
  intros _.
  assert (Hneg : max_retries self < 0 →
    _make_request_with_retry upstream self method url kw σ
    = (Raises (RequestError ("Failed to make request to " +:+ url +:+ " after "
                             +:+ pretty (max_retries self) +:+ " retries")),
       if client σ then σ else set_client true σ)).
  { intros Hlt. rewrite make_request_unfold. by rewrite retry_loop_exit by lia. }
  split; [exact Hneg|]. split.
  - intros Hsame. destruct (Z_lt_dec (max_retries self) 0) as [|Hge]; [done|].
    exfalso. rewrite make_request_unfold in Hsame.
    set (σ0 := if client σ then σ else set_client true σ) in Hsame.
    destruct (retry_loop_outcome upstream self (lower method) url kw
                (Z.to_nat (max_retries self)) 0 None σ0)
      as (j & _ & _ & _ & Hrun); [lia|].
    rewrite Hrun in Hsame. simpl in Hsame.
    assert (Ht : trace σ0 = trace σ) by (subst σ0; by destruct (client σ)).
    rewrite Ht in Hsame.
    apply (f_equal length) in Hsame. rewrite length_app in Hsame.
    simpl in Hsame. lia.
  - intros Hlt. rewrite (Hneg Hlt). by destruct (client σ).
Qed.

End retry_more.

Lemma success_ends_the_loop_witness :
  ∃ σ' evs,
    DataGovClient._make_request_with_retry busy_once client_3_1 "GET" "u"
      no_kwargs fresh_state
    = (Returns (DataGovClient.mkResponse 200 "{}"), σ') ∧
    DataGovClient.trace σ' = DataGovClient.trace fresh_state ++ evs ∧
    evs = call_events (request_event (DataGovClient.lower "GET") "u" no_kwargs
                         fresh_state)
            (DataGovClient.retry_delay client_3_1) 1 ∧
    attempts evs = 2%nat ∧
    sleeps evs = (λ k, DataGovClient.retry_delay client_3_1 * 2 ^ (k - 1))
                 <$> seqZ 1 (Z.of_nat 1) ∧
    DataGovClient.sent σ' = (DataGovClient.sent fresh_state + 2)%nat.
Proof.
  apply (success_ends_the_loop busy_once client_3_1 "GET" "u" no_kwargs
           fresh_state 1 (DataGovClient.mkResponse 200 "{}")).
  - simpl. lia.
  - intros i Hi. assert (i = 0%nat) as -> by lia.
    eexists. split; [reflexivity|]. constructor. compute_done.
  - reflexivity.
Defined.

Lemma no_request_iff_negative_budget_witness :
  (DataGovClient.max_retries (DataGovClient.mkConfig "https://api.data.gov.in"
                                "KEY" (-1) 1) < 0 →
   DataGovClient._make_request_with_retry busy_once
     (DataGovClient.mkConfig "https://api.data.gov.in" "KEY" (-1) 1)
     "GET" "u" no_kwargs fresh_state
   = (Raises (DataGovClient.RequestError
                ("Failed to make request to " +:+ "u" +:+ " after "
                 +:+ pretty (DataGovClient.max_retries
                               (DataGovClient.mkConfig "https://api.data.gov.in"
                                  "KEY" (-1) 1))
                 +:+ " retries")),
      if DataGovClient.client fresh_state then fresh_state
      else DataGovClient.set_client true fresh_state)) ∧
  (DataGovClient.trace
     (DataGovClient._make_request_with_retry busy_once
        (DataGovClient.mkConfig "https://api.data.gov.in" "KEY" (-1) 1)
        "GET" "u" no_kwargs fresh_state).2
   = DataGovClient.trace fresh_state
   ↔ DataGovClient.max_retries
       (DataGovClient.mkConfig "https://api.data.gov.in" "KEY" (-1) 1) < 0).
Proof.
  apply (no_request_iff_negative_budget busy_once
           (DataGovClient.mkConfig "https://api.data.gov.in" "KEY" (-1) 1)
           "GET" "u" no_kwargs fresh_state).
  split; [compute_done|]. by intros [? ?].
Defined.

Lemma retry_budget_and_outcome_witness :
  ∃ (j : nat) σ',
    Z.of_nat j ≤ DataGovClient.max_retries client_3_1 ∧
    (∀ i : nat, (i < j)%nat →
       retried (always_status 404 (DataGovClient.sent fresh_state + i)%nat) = true) ∧
    (Z.of_nat j < DataGovClient.max_retries client_3_1 →
     retried (always_status 404 (DataGovClient.sent fresh_state + j)%nat) = false) ∧
    DataGovClient._make_request_with_retry (always_status 404) client_3_1
      "get" "u" no_kwargs fresh_state
    = (attempt_outcome (always_status 404 (DataGovClient.sent fresh_state + j)%nat),
       σ') ∧
    DataGovClient.trace σ'
    = DataGovClient.trace fresh_state
      ++ call_events (request_event (DataGovClient.lower "get") "u" no_kwargs
                        fresh_state)
           (DataGovClient.retry_delay client_3_1) j ∧
    DataGovClient.sent σ' = (DataGovClient.sent fresh_state + S j)%nat ∧
    DataGovClient.heap σ' = DataGovClient.heap fresh_state ∧
    DataGovClient.client σ' = true.
Proof.
  apply (retry_budget_and_outcome (always_status 404) client_3_1 "get" "u"
           no_kwargs fresh_state).
  simpl. lia.
Defined.

(** ** More on the public operations *)

Section public_more.
Import DataGovClient.
Variable urljoin : string → string → string.
Variable upstream : nat → attempt.
Variable self : config.

Lemma decode_outcome (m : M state exn Response) σ :
  try_except (response ← m; Response_json response) reraise_JSONDecodeError σ
  = match m σ with
    | (Returns r, σ') => (decoded_outcome (Succeeds r), σ')
    | (Raises e, σ') => (Raises e, σ')
    | (Unmodelled, σ') => (Unmodelled, σ')
    end.
Proof.
  unfold try_except, mbind, M_bind.
  destruct (m σ) as [[r|e|] σ1]; simpl.
  - unfold Response_json. destruct (json.loads (text r)); reflexivity.
  - destruct e; reflexivity.
  - reflexivity.
Qed.

(** The whole of a public operation, for any upstream. *)
Lemma public_operation_outcome method data endpoint params σ :
  0 ≤ max_retries self →
  ∃ j : nat,
    Z.of_nat j ≤ max_retries self ∧
    (∀ i : nat, (i < j)%nat → retried (upstream (sent σ + i)%nat) = true) ∧
    (Z.of_nat j < max_retries self →
     retried (upstream (sent σ + j)%nat) = false) ∧
    public_operation urljoin upstream self method data endpoint params σ
    = (decoded_outcome (upstream (sent σ + j)%nat),
       mkState true
         (<[params_object params σ :=
              <["api-key" := PStr (api_key self)]> (params_before params σ)]>
            (heap σ))
         (sent σ + S j)%nat
         (trace σ ++ call_events
                       (Request (lower method) (_build_url urljoin self endpoint)
                          (<["api-key" := PStr (api_key self)]>
                             (params_before params σ)) data)
                       (retry_delay self) j)).
Proof.
  intros Hmax. unfold public_operation. unfold mbind at 1, M_bind at 1.
  rewrite add_api_key_effect.
  set (l := params_object params σ). set (d := params_before params σ).
  set (σ1 := set_heap _ σ).
  rewrite decode_outcome, make_request_unfold.
  set (σ2 := if client σ1 then σ1 else set_client true σ1).
  set (kw := mkKwargs l data).
  destruct (retry_loop_outcome upstream self (lower method)
              (_build_url urljoin self endpoint) kw
              (Z.to_nat (max_retries self)) 0 None σ2)
    as (j & Hj & Hbefore & Hstop & ->); [lia|].
  assert (Hsent : sent σ2 = sent σ).
  { subst σ2 σ1. unfold set_heap, set_client. simpl. by destruct (client σ). }
  rewrite Hsent in *.
  assert (Hreq : request_event (lower method) (_build_url urljoin self endpoint) kw σ2
                 = Request (lower method) (_build_url urljoin self endpoint)
                     (<["api-key" := PStr (api_key self)]> d) data).
  { unfold request_event. f_equal.
    assert (heap σ2 = heap σ1) as -> by (subst σ2; by destruct (client σ1)).
    subst σ1 kw. simpl. by rewrite lookup_insert_eq. }
  rewrite Hreq. change (0 + 1) with 1.
  exists j. split; [lia|]. split; [done|].
  split; [intros Hlt; apply Hstop; lia|].
  assert (Hstate : mkState (client σ2) (heap σ2) (sent σ + S j)%nat
                     (trace σ2 ++ call_events
                        (Request (lower method) (_build_url urljoin self endpoint)
                           (<["api-key" := PStr (api_key self)]> d) data)
                        (retry_delay self) j)
                   = mkState true (<[l := <["api-key" := PStr (api_key self)]> d]>
                                     (heap σ))
                       (sent σ + S j)%nat
                       (trace σ ++ call_events
                          (Request (lower method) (_build_url urljoin self endpoint)
                             (<["api-key" := PStr (api_key self)]> d) data)
                          (retry_delay self) j)).
  { subst σ2 σ1. unfold set_heap, set_client. simpl.
    destruct (client σ) eqn:Hc; simpl; by rewrite ?Hc. }
  unfold call_events in Hstate. rewrite Hstate.
  by destruct (upstream (sent σ + j)%nat).
Qed.

(** X4: [get], [post], [put] and [delete] make at most
    [max_retries + 1] attempts, all with their own method, the joined
    URL and the caller's parameters plus the API key ([get] and
    [delete] without a body), with the backoff sleeps between them.
    Their result is the body of the attempt the loop stops at, decoded
    from JSON; a body that is not JSON raises [JSONDecodeError], and is
    not retried; a failed attempt raises its own error.  Nothing is
    stated of the result for a body that may be JSON with a float or a
    code point from U+0100 on. *)
Theorem public_operations_outcome endpoint data params σ :
  0 ≤ max_retries self →
  Forall (λ '(run, method),
            ∃ (j : nat) body,
              Z.of_nat j ≤ max_retries self ∧
              (∀ i : nat, (i < j)%nat →
                 retried (upstream (sent σ + i)%nat) = true) ∧
              (Z.of_nat j < max_retries self →
               retried (upstream (sent σ + j)%nat) = false) ∧
              (decoded_outcome (upstream (sent σ + j)%nat) ≠ Unmodelled →
               (run σ).1 = decoded_outcome (upstream (sent σ + j)%nat)) ∧
              trace (run σ).2
              = trace σ
                ++ call_events
                     (Request method (_build_url urljoin self endpoint)
                        (<["api-key" := PStr (api_key self)]>
                           (params_before params σ)) body)
                     (retry_delay self) j ∧
              (method = "get" ∨ method = "delete" → body = None))
    [(get urljoin upstream self endpoint params, "get");
     (post urljoin upstream self endpoint data params, "post");
     (put urljoin upstream self endpoint data params, "put");
     (delete urljoin upstream self endpoint params, "delete")].
Proof.
  intros Hmax.
  rewrite get_shape, post_shape, put_shape, delete_shape.
  repeat apply Forall_cons_2; [..|apply Forall_nil_2].
  all: match goal with
       | |- context [public_operation _ _ _ ?m ?b _ _] =>
           destruct (public_operation_outcome m b endpoint params σ Hmax)
             as (j & Hj & Hbefore & Hstop & ->);
           exists j, b
       end.
  all: repeat (split; [done|]).
  all: first [ done | by intros [?|?] ].
Qed.

(** X5: a public operation changes no dict other than the one handed
    in as [params]: every other dict of the caller is as it was, whatever
    the upstream did. *)
Theorem other_dicts_are_untouched endpoint data params l d σ :
  heap σ !! l = Some d →
  params ≠ Some l →
  Forall (λ run : M state exn pyval, heap (run σ).2 !! l = Some d)
    [get urljoin upstream self endpoint params;
     post urljoin upstream self endpoint data params;
     put urljoin upstream self endpoint data params;
     delete urljoin upstream self endpoint params].
Proof.
  intros Hl Hp.
  assert (Hobj : params_object params σ ≠ l).
  { assert (Hfresh : fresh (dom (heap σ)) ≠ l).
    { intros Heq. apply (is_fresh (dom (heap σ))). rewrite Heq.
      apply elem_of_dom. eauto. }
    unfold params_object. destruct params as [l0|]; [|done].
    destruct (truthy _); [congruence|done]. }
  rewrite get_shape, post_shape, put_shape, delete_shape.
  repeat apply Forall_cons_2; [..|apply Forall_nil_2].
  all: match goal with
       | |- context [public_operation _ _ _ ?m ?b _ _] =>
           destruct (public_operation_effect urljoin upstream self m b endpoint
                       params σ) as (evs & -> & _ & _)
       end.
  all: simpl; by rewrite lookup_insert_ne.
Qed.

(** The dict [get_mandi_prices] builds is new: no dict of the caller
    changes. *)
Lemma get_mandi_prices_heap q σ :
  ∃ l, (l ∉ dom (heap σ)) ∧
       heap (get_mandi_prices urljoin upstream self q σ).2
       = <[l := <["api-key" := PStr (api_key self)]> (mandi_params q)]> (heap σ).
Proof.
  unfold get_mandi_prices. unfold mbind at 1, M_bind at 1.
  unfold new_dict at 1. cbv beta iota zeta.
  set (l := fresh (dom (heap σ))).
  set (σ1 := set_heap (<[l := mandi_params q]> (heap σ)) σ).
  rewrite get_shape.
  destruct (public_operation_effect urljoin upstream self "get" None
              "/resource/9ef84268-d588-465a-a308-a864a43d0070" (Some l) σ1)
    as (evs & -> & _ & _).
  exists l. split; [apply is_fresh|].
  assert (Hb : params_before (Some l) σ1 = mandi_params q).
  { unfold params_before. subst σ1. simpl. by rewrite lookup_insert_eq. }
  assert (Ho : params_object (Some l) σ1 = l).
  { unfold params_object. subst σ1. simpl. rewrite lookup_insert_eq. simpl.
    unfold truthy, gmap_truthy. rewrite bool_decide_eq_false_2; [done|].
    unfold mandi_params. intros Hempty.
    assert (Hlim : mandi_params q !! "limit" = Some (PInt (limit q)))
      by by rewrite mandi_params_lookup.
    unfold mandi_params in Hlim. rewrite Hempty in Hlim.
    by rewrite lookup_empty in Hlim. }
  rewrite Hb, Ho. subst σ1. simpl. by rewrite insert_insert_eq.
Qed.

(** X6: [get_mandi_prices] builds its own parameter dict: no dict that
    existed before the call is changed by it. *)
Theorem get_mandi_prices_keeps_caller_dicts q l d σ :
  heap σ !! l = Some d →
  heap (get_mandi_prices urljoin upstream self q σ).2 !! l = Some d.
Proof.
  intros Hl. destruct (get_mandi_prices_heap q σ) as (l' & Hfresh & ->).
  rewrite lookup_insert_ne; [done|]. intros ->. apply Hfresh.
  apply elem_of_dom. eauto.
Qed.

Lemma get_mandi_prices_outcome q σ :
  0 ≤ max_retries self →
  ∃ (j l : nat),
    (l ∉ dom (heap σ)) ∧
    Z.of_nat j ≤ max_retries self ∧
    (∀ i : nat, (i < j)%nat → retried (upstream (sent σ + i)%nat) = true) ∧
    (Z.of_nat j < max_retries self →
     retried (upstream (sent σ + j)%nat) = false) ∧
    get_mandi_prices urljoin upstream self q σ
    = (decoded_outcome (upstream (sent σ + j)%nat),
       mkState true
         (<[l := <["api-key" := PStr (api_key self)]> (mandi_params q)]> (heap σ))
         (sent σ + S j)%nat
         (trace σ ++ call_events
                       (Request "get"
                          (_build_url urljoin self
                             "/resource/9ef84268-d588-465a-a308-a864a43d0070")
                          (<["api-key" := PStr (api_key self)]> (mandi_params q))
                          None)
                       (retry_delay self) j)).
Proof.
  intros Hmax. unfold get_mandi_prices. unfold mbind at 1, M_bind at 1.
  unfold new_dict at 1. cbv beta iota zeta.
  set (l := fresh (dom (heap σ))).
  set (σ1 := set_heap (<[l := mandi_params q]> (heap σ)) σ).
  rewrite get_shape.
  destruct (public_operation_outcome "get" None
              "/resource/9ef84268-d588-465a-a308-a864a43d0070" (Some l) σ1 Hmax)
    as (j & Hj & Hbefore & Hstop & ->).
  assert (Hb : params_before (Some l) σ1 = mandi_params q).
  { unfold params_before. subst σ1. simpl. by rewrite lookup_insert_eq. }
  assert (Ho : params_object (Some l) σ1 = l).
  { unfold params_object. subst σ1. simpl. rewrite lookup_insert_eq. simpl.
    unfold truthy, gmap_truthy. rewrite bool_decide_eq_false_2; [done|].
    intros Hempty.
    assert (Hlim : mandi_params q !! "limit" = Some (PInt (limit q)))
      by by rewrite mandi_params_lookup.
    rewrite Hempty in Hlim. by rewrite lookup_empty in Hlim. }
  rewrite Hb, Ho. exists j, l. split; [apply is_fresh|].
  repeat (split; [done|]).
  subst σ1. simpl. by rewrite insert_insert_eq.
Qed.

(** The whole of [get_agricultural_data], for any upstream. *)
Lemma get_agricultural_data_outcome dataset_id query_params σ :
  0 ≤ max_retries self →
  ∃ (j : nat) σ',
    Z.of_nat j ≤ max_retries self ∧
    get_agricultural_data urljoin upstream self dataset_id query_params σ
    = (decoded_outcome (upstream (sent σ + j)%nat), σ') ∧
    trace σ'
    = trace σ
      ++ call_events
           (Request "get"
              (urljoin (base_url self) ("/api/datasets/" +:+ dataset_id +:+ "/data"))
              (<["api-key" := PStr (api_key self)]> (params_before query_params σ))
              None)
           (retry_delay self) j ∧
    ∀ l d, heap σ !! l = Some d →
           heap σ' !! l
           = Some (if decide (query_params = Some l ∧ d ≠ ∅)
                   then <["api-key" := PStr (api_key self)]> d else d).
Proof.
  intros Hmax. unfold get_agricultural_data. unfold mbind at 1, M_bind at 1.
  assert (Hcase : (∃ l d, query_params = Some l ∧ heap σ !! l = Some d ∧ d ≠ ∅)
                  ∨ (params_before query_params σ = ∅ ∧
                     match query_params with
                     | Some l => d ← read_dict l;
                                 if truthy d then mret l else new_dict ∅
                     | None => new_dict ∅
                     end σ = new_dict ∅ σ ∧
                     ∀ l d, heap σ !! l = Some d →
                            ¬ (query_params = Some l ∧ d ≠ ∅))).
  { destruct query_params as [l|]; [|right; split; [done|]; split; [done|]].
    - destruct (heap σ !! l) as [d|] eqn:Hl.
      + destruct (decide (d = ∅)) as [->|Hd]; [|left; by eauto].
        right. unfold params_before. rewrite Hl. split; [done|]. split.
        * unfold mbind, M_bind, read_dict, gets. by rewrite Hl.
        * intros l' d' Hl' [[= <-] Hne]. congruence.
      + right. unfold params_before. rewrite Hl. split; [done|]. split.
        * unfold mbind, M_bind, read_dict, gets. by rewrite Hl.
        * intros l' d' Hl' [[= <-] Hne]. congruence.
    - intros l d _ [? _]. done. }
  destruct Hcase as [(l & d & -> & Hl & Hd)|(Hb & -> & Hno)].
  - assert (Hsel : (d0 ← read_dict l; if truthy d0 then mret l else new_dict ∅) σ
                   = (Returns l, σ)).
    { unfold mbind, M_bind, read_dict, gets. rewrite Hl. simpl.
      unfold truthy, gmap_truthy. by rewrite bool_decide_eq_false_2. }
    rewrite Hsel, get_shape.
    destruct (public_operation_outcome "get" None
                ("/api/datasets/" +:+ dataset_id +:+ "/data") (Some l) σ Hmax)
      as (j & Hj & _ & _ & ->).
    exists j. eexists. split; [done|]. split; [reflexivity|].
    assert (Ho : params_object (Some l) σ = l).
    { unfold params_object. rewrite Hl. simpl.
      unfold truthy, gmap_truthy. by rewrite bool_decide_eq_false_2. }
    rewrite Ho. simpl. split; [reflexivity|].
    intros l' d' Hl'. destruct (decide (l = l')) as [<-|Hne].
    + rewrite lookup_insert_eq. rewrite Hl in Hl'. injection Hl' as <-.
      rewrite decide_True by done. unfold params_before. by rewrite Hl.
    + rewrite lookup_insert_ne by done. rewrite Hl'.
      rewrite decide_False; [done|]. intros [[= ?] _]. done.
  - unfold new_dict at 1. cbv beta iota zeta.
    set (f1 := fresh (dom (heap σ))).
    set (σ1 := set_heap (<[f1 := ∅]> (heap σ)) σ).
    rewrite get_shape.
    destruct (public_operation_outcome "get" None
                ("/api/datasets/" +:+ dataset_id +:+ "/data") (Some f1) σ1 Hmax)
      as (j & Hj & _ & _ & ->).
    exists j. eexists. split; [done|]. split; [reflexivity|].
    assert (Hb1 : params_before (Some f1) σ1 = ∅).
    { unfold params_before. subst σ1. simpl. by rewrite lookup_insert_eq. }
    assert (Ho1 : params_object (Some f1) σ1 = fresh (dom (heap σ1))).
    { unfold params_object. subst σ1. simpl. rewrite lookup_insert_eq. simpl.
      unfold truthy, gmap_truthy. by rewrite bool_decide_eq_true_2. }
    rewrite Hb1, Ho1, Hb. simpl. split; [reflexivity|].
    intros l d Hl. rewrite decide_False by by apply Hno.
    assert (Hf1 : f1 ≠ l).
    { intros <-. apply (is_fresh (dom (heap σ))). apply elem_of_dom. eauto. }
    assert (Hf2 : fresh (dom (heap σ1)) ≠ l).
    { intros Heq. apply (is_fresh (dom (heap σ1))). rewrite Heq.
      apply elem_of_dom. subst σ1. simpl. rewrite lookup_insert_ne by done. eauto. }
    subst σ1. simpl. by rewrite !lookup_insert_ne.
Qed.

(** X7: [get_agricultural_data] makes GET attempts at
    [/api/datasets/<dataset_id>/data] under the base URL, with the
    caller's query parameters plus the API key, and returns the decoded
    body of the attempt the loop stops at (nothing is stated of the
    result for a body that may be JSON with a float or a code point
    from U+0100 on).  A non-empty [query_params] dict gets the API key
    in place; every other existing dict, an empty [query_params]
    included, is left as it was. *)
Theorem agricultural_data_request dataset_id query_params σ :
  0 ≤ max_retries self →
  ∃ j : nat,
    Z.of_nat j ≤ max_retries self ∧
    (decoded_outcome (upstream (sent σ + j)%nat) ≠ Unmodelled →
     (get_agricultural_data urljoin upstream self dataset_id query_params σ).1
     = decoded_outcome (upstream (sent σ + j)%nat)) ∧
    trace (get_agricultural_data urljoin upstream self dataset_id
             query_params σ).2
    = trace σ
      ++ call_events
           (Request "get"
              (urljoin (base_url self) ("/api/datasets/" +:+ dataset_id +:+ "/data"))
              (<["api-key" := PStr (api_key self)]> (params_before query_params σ))
              None)
           (retry_delay self) j ∧
    ∀ l d, heap σ !! l = Some d →
           heap (get_agricultural_data urljoin upstream self dataset_id
                   query_params σ).2 !! l
           = Some (if decide (query_params = Some l ∧ d ≠ ∅)
                   then <["api-key" := PStr (api_key self)]> d else d).
Proof.
  intros Hmax.
  destruct (get_agricultural_data_outcome dataset_id query_params σ Hmax)
    as (j & σ' & Hj & -> & Ht & Hheap).
  exists j. by repeat split.
Qed.

End public_more.

Lemma public_operations_outcome_witness :
  Forall (λ '(run, method),
            ∃ (j : nat) body,
              Z.of_nat j ≤ DataGovClient.max_retries client_3_1 ∧
              (∀ i : nat, (i < j)%nat →
                 retried (busy_once (DataGovClient.sent fresh_state + i)%nat) = true) ∧
              (Z.of_nat j < DataGovClient.max_retries client_3_1 →
               retried (busy_once (DataGovClient.sent fresh_state + j)%nat) = false) ∧
              (decoded_outcome (busy_once (DataGovClient.sent fresh_state + j)%nat)
               ≠ Unmodelled →
               (run fresh_state).1
               = decoded_outcome
                   (busy_once (DataGovClient.sent fresh_state + j)%nat)) ∧
              DataGovClient.trace (run fresh_state).2
              = DataGovClient.trace fresh_state
                ++ call_events
                     (DataGovClient.Request method
                        (DataGovClient._build_url String.append client_3_1 "/x")
                        (<["api-key" := PStr (DataGovClient.api_key client_3_1)]>
                           (params_before None fresh_state)) body)
                     (DataGovClient.retry_delay client_3_1) j ∧
              (method = "get" ∨ method = "delete" → body = None))
    [(DataGovClient.get String.append busy_once client_3_1 "/x" None, "get");
     (DataGovClient.post String.append busy_once client_3_1 "/x" (Some (PInt 1)) None,
      "post");
     (DataGovClient.put String.append busy_once client_3_1 "/x" (Some (PInt 1)) None,
      "put");
     (DataGovClient.delete String.append busy_once client_3_1 "/x" None,
      "delete")].
Proof.
  apply (public_operations_outcome String.append busy_once client_3_1 "/x"
           (Some (PInt 1)) None fresh_state).
  simpl. lia.
Defined.

Lemma other_dicts_are_untouched_witness :
  Forall (λ run : M DataGovClient.state DataGovClient.exn pyval,
            DataGovClient.heap (run (caller_state {["limit" := PInt 5]})).2 !! 7%nat
            = Some {["limit" := PInt 5]})
    [DataGovClient.get String.append busy_once client_3_1 "/x" None;
     DataGovClient.post String.append busy_once client_3_1 "/x" None None;
     DataGovClient.put String.append busy_once client_3_1 "/x" None None;
     DataGovClient.delete String.append busy_once client_3_1 "/x" None].
Proof.
  apply (other_dicts_are_untouched String.append busy_once client_3_1 "/x"
           None None 7%nat {["limit" := PInt 5]}
           (caller_state {["limit" := PInt 5]})).
  - reflexivity.
  - discriminate.
Defined.

Lemma get_mandi_prices_keeps_caller_dicts_witness :
  DataGovClient.heap
    (DataGovClient.get_mandi_prices String.append busy_once client_3_1
       punjab_wheat (caller_state {["limit" := PInt 5]})).2 !! 7%nat
  = Some {["limit" := PInt 5]}.
Proof.
  apply (get_mandi_prices_keeps_caller_dicts String.append busy_once client_3_1
           punjab_wheat 7%nat {["limit" := PInt 5]}
           (caller_state {["limit" := PInt 5]})).
  reflexivity.
Defined.

Lemma agricultural_data_request_witness :
  ∃ j : nat,
    Z.of_nat j ≤ DataGovClient.max_retries client_3_1 ∧
    (decoded_outcome
       (busy_once (DataGovClient.sent (caller_state {["limit" := PInt 5]}) + j)%nat)
     ≠ Unmodelled →
     (DataGovClient.get_agricultural_data String.append busy_once client_3_1
        "wheat" (Some 7%nat) (caller_state {["limit" := PInt 5]})).1
     = decoded_outcome
         (busy_once (DataGovClient.sent (caller_state {["limit" := PInt 5]}) + j)%nat)) ∧
    DataGovClient.trace
      (DataGovClient.get_agricultural_data String.append busy_once client_3_1
         "wheat" (Some 7%nat) (caller_state {["limit" := PInt 5]})).2
    = DataGovClient.trace (caller_state {["limit" := PInt 5]})
      ++ call_events
           (DataGovClient.Request "get"
              (String.append (DataGovClient.base_url client_3_1)
                 ("/api/datasets/" +:+ "wheat" +:+ "/data"))
              (<["api-key" := PStr (DataGovClient.api_key client_3_1)]>
                 (params_before (Some 7%nat) (caller_state {["limit" := PInt 5]})))
              None)
           (DataGovClient.retry_delay client_3_1) j ∧
    ∀ l d, DataGovClient.heap (caller_state {["limit" := PInt 5]}) !! l = Some d →
           DataGovClient.heap
             (DataGovClient.get_agricultural_data String.append busy_once
                client_3_1 "wheat" (Some 7%nat)
                (caller_state {["limit" := PInt 5]})).2 !! l
           = Some (if decide (Some 7%nat = Some l ∧ d ≠ ∅)
                   then <["api-key" := PStr (DataGovClient.api_key client_3_1)]> d
                   else d).
Proof.
  apply (agricultural_data_request String.append busy_once client_3_1
           "wheat" (Some 7%nat) (caller_state {["limit" := PInt 5]})).
  simpl. lia.
Defined.

(** ** The session of the client *)

Section session.
Import DataGovClient.
Variable urljoin : string → string → string.
Variable upstream : nat → attempt.
Variable self : config.

Lemma public_operation_session method data endpoint params b σ :
  public_operation urljoin upstream self method data endpoint params
    (set_client b σ)
  = public_operation urljoin upstream self method data endpoint params σ.
Proof.
  unfold public_operation. unfold mbind at 1 3, M_bind at 1 3.
  rewrite !add_api_key_effect.
  change (params_object params (set_client b σ)) with (params_object params σ).
  change (params_before params (set_client b σ)) with (params_before params σ).
  rewrite !decode_outcome, !make_request_unfold.
  unfold set_heap, set_client. simpl. by destruct b, (client σ).
Qed.

(** X23: closing the client does not disable it: [close] leaves no
    session, and [get], [post], [put], [delete], [get_agricultural_data]
    and [get_mandi_prices] after [close] do exactly what they would have
    done without it - same result, same requests and sleeps, same dicts -
    and leave the client holding a session again. *)
Theorem closed_client_is_reusable endpoint data params dataset_id q σ :
  client (close σ).2 = false ∧
  Forall (λ run : M state exn pyval, run (close σ).2 = run σ)
    [get urljoin upstream self endpoint params;
     post urljoin upstream self endpoint data params;
     put urljoin upstream self endpoint data params;
     delete urljoin upstream self endpoint params;
     get_agricultural_data urljoin upstream self dataset_id params;
     get_mandi_prices urljoin upstream self q].
Proof.
  assert (Hclose : (close σ).2 = set_client false σ).
  { unfold close, modify. cbn [snd]. destruct (client σ) eqn:Hc; [done|].
    destruct σ; simpl in *; by subst. }
  rewrite Hclose. split; [done|].
  rewrite get_shape, post_shape, put_shape, delete_shape.
  repeat apply Forall_cons_2; [..|apply Forall_nil_2].
  - apply public_operation_session.
  - apply public_operation_session.
  - apply public_operation_session.
  - apply public_operation_session.
  - unfold get_agricultural_data. destruct params as [l|].
    + unfold mbind, M_bind, read_dict, gets, new_dict. cbv beta zeta.
      change (heap (set_client false σ)) with (heap σ).
      change (set_heap ?h (set_client false σ))
        with (set_client false (set_heap h σ)).
      destruct (truthy (default ∅ (heap σ !! l))); cbn [mret M_ret].
      * rewrite !get_shape. apply public_operation_session.
      * cbv beta zeta. change (heap (set_client false σ)) with (heap σ).
      change (set_heap ?h (set_client false σ))
        with (set_client false (set_heap h σ)).
        rewrite !get_shape.
        apply (public_operation_session "get" None _ _ false
                 (set_heap (<[fresh (dom (heap σ)) := ∅]> (heap σ)) σ)).
    + unfold mbind, M_bind, new_dict. cbv beta zeta.
      change (heap (set_client false σ)) with (heap σ).
      change (set_heap ?h (set_client false σ))
        with (set_client false (set_heap h σ)).
      rewrite !get_shape.
      apply (public_operation_session "get" None _ _ false
               (set_heap (<[fresh (dom (heap σ)) := ∅]> (heap σ)) σ)).
  - unfold get_mandi_prices. unfold mbind, M_bind, new_dict. cbv beta zeta.
    change (heap (set_client false σ)) with (heap σ).
      change (set_heap ?h (set_client false σ))
        with (set_client false (set_heap h σ)).
    rewrite !get_shape.
    apply (public_operation_session "get" None _ _ false
             (set_heap (<[fresh (dom (heap σ)) := mandi_params q]> (heap σ)) σ)).
Qed.

End session.

(** ** The route [get_mandi_prices] *)

Section route_more.
Import DataGovClient.
Variable urljoin : string → string → string.
Variable upstream : nat → attempt.
Variable DATA_GOV_URL DATA_GOV_API_KEY : string.
Variable exn_str : exn → string.

(** The whole of the handler, for any upstream. *)
Lemma route_outcome q σ :
  ∃ (j : nat) σ',
    (j ≤ 3)%nat ∧
    (∀ i : nat, (i < j)%nat → retried (upstream (sent σ + i)%nat) = true) ∧
    ((j < 3)%nat → retried (upstream (sent σ + j)%nat) = false) ∧
    mandi.get_mandi_prices urljoin upstream DATA_GOV_URL DATA_GOV_API_KEY
      exn_str q σ
    = (match decoded_outcome (upstream (sent σ + j)%nat) with
       | Returns response => Returns response
       | Raises e =>
           if mandi.is_Exception e
           then Raises (mandi.HTTPException 500
                          ("Failed to fetch mandi prices: " +:+ exn_str e))
           else Raises (mandi.Propagated e)
       | Unmodelled => Unmodelled
       end, σ') ∧
    client σ' = false ∧
    sent σ' = (sent σ + S j)%nat ∧
    trace σ'
    = trace σ
      ++ call_events
           (Request "get"
              (urljoin DATA_GOV_URL "/resource/9ef84268-d588-465a-a308-a864a43d0070")
              (<["api-key" := PStr DATA_GOV_API_KEY]> (mandi_params q)) None)
           1 j ∧
    ∀ l d, heap σ !! l = Some d → heap σ' !! l = Some d.
Proof.
  unfold mandi.get_mandi_prices. cbv zeta.
  set (self := mandi.new_client DATA_GOV_URL DATA_GOV_API_KEY).
  set (σ1 := (__aenter__ (set_client false σ)).2).
  assert (Hσ1 : heap σ1 = heap σ ∧ sent σ1 = sent σ ∧ trace σ1 = trace σ) by done.
  destruct Hσ1 as (Hh & Hs & Ht).
  destruct (get_mandi_prices_outcome urljoin upstream self q σ1)
    as (j & l & Hfresh & Hj & Hbefore & Hstop & Hrun); [done|].
  rewrite Hs in Hbefore, Hstop. rewrite Hrun, Hs, Ht, Hh.
  exists j. eexists. split; [simpl in Hj; lia|]. split; [done|].
  split; [intros Hlt; apply Hstop; simpl; lia|].
  split.
  - destruct (decoded_outcome (upstream (sent σ + j)%nat)) as [v|e|];
      [reflexivity| |reflexivity]. destruct (mandi.is_Exception e); reflexivity.
  - simpl. repeat (split; [reflexivity|]).
    intros l' d' Hl'. rewrite lookup_insert_ne; [done|].
    intros <-. apply Hfresh. rewrite Hh. apply elem_of_dom. eauto.
Qed.

(** X8: the route [get_mandi_prices] makes at most four upstream
    attempts (the defaults of [DataGovClient()]: three retries, base
    delay one second), each a GET of the mandi resource with the query's
    parameters and the configured API key.  It returns the decoded
    upstream body as it is; an [Exception] from the client - a failed
    attempt, a body that is not JSON - becomes an [HTTPException] with
    status 500 and detail ["Failed to fetch mandi prices: " + str(e)];
    in every case the session opened by [async with] is closed at the
    end and no dict that existed before is changed.  Nothing is stated
    of the result for a body that may be JSON with a float or a code
    point from U+0100 on. *)
Theorem route_answers_or_fails_with_500 q σ :
  ∃ j : nat,
    (j ≤ 3)%nat ∧
    (∀ i : nat, (i < j)%nat → retried (upstream (sent σ + i)%nat) = true) ∧
    ((j < 3)%nat → retried (upstream (sent σ + j)%nat) = false) ∧
    (∀ response,
       decoded_outcome (upstream (sent σ + j)%nat) = Returns response →
       (mandi.get_mandi_prices urljoin upstream DATA_GOV_URL DATA_GOV_API_KEY
          exn_str q σ).1 = Returns response) ∧
    (∀ e,
       decoded_outcome (upstream (sent σ + j)%nat) = Raises e →
       (mandi.get_mandi_prices urljoin upstream DATA_GOV_URL DATA_GOV_API_KEY
          exn_str q σ).1
       = if mandi.is_Exception e
         then Raises (mandi.HTTPException 500
                        ("Failed to fetch mandi prices: " +:+ exn_str e))
         else Raises (mandi.Propagated e)) ∧
    client (mandi.get_mandi_prices urljoin upstream DATA_GOV_URL
              DATA_GOV_API_KEY exn_str q σ).2 = false ∧
    sent (mandi.get_mandi_prices urljoin upstream DATA_GOV_URL
            DATA_GOV_API_KEY exn_str q σ).2 = (sent σ + S j)%nat ∧
    trace (mandi.get_mandi_prices urljoin upstream DATA_GOV_URL
             DATA_GOV_API_KEY exn_str q σ).2
    = trace σ
      ++ call_events
           (Request "get"
              (urljoin DATA_GOV_URL "/resource/9ef84268-d588-465a-a308-a864a43d0070")
              (<["api-key" := PStr DATA_GOV_API_KEY]> (mandi_params q)) None)
           1 j ∧
    ∀ l d, heap σ !! l = Some d →
           heap (mandi.get_mandi_prices urljoin upstream DATA_GOV_URL
                   DATA_GOV_API_KEY exn_str q σ).2 !! l = Some d.
Proof.
  destruct (route_outcome q σ)
    as (j & σ' & Hj & Hbefore & Hstop & -> & Hc & Hs & Ht & Hheap).
  exists j. repeat (split; [done|]). cbn [fst snd].
  split; [by intros response ->|]. split; [by intros e ->|]. done.
Qed.

End route_more.

(** ** More on the cache: writes, reads and what lies between *)

Section cache_more.
Import RedisManager.
Variable REDIS_DECODE_RESPONSES : bool.
Variable REDIS_CACHE_EXPIRATION : Z.


Lemma sent_octets_some value :
  is_Some (stored_form value) → ∃ v octets,
    stored_form value = Some v ∧ wire v = Some octets ∧
    sent_octets value = Some octets.
Proof.
  intros [v Hv]. destruct (stored_form_wire _ _ Hv) as [octets Ho].
  exists v, octets. unfold sent_octets. rewrite Hv. simpl. by rewrite Ho.
Qed.

(** What each operation does when the store answers. *)
Lemma get_run key default σ :
  reachable σ = true →
  get REDIS_DECODE_RESPONSES key default σ
  = (match live σ key with
     | Some octets => read_back REDIS_DECODE_RESPONSES octets
     | None => Returns default
     end, set__client true σ).
Proof.
  intros Hr. destruct (live σ key) as [octets|] eqn:Hlive.
  - by apply get_hit.
  - unfold RedisManager.get, try_except. rewrite client_ready by auto.
    unfold mbind, M_bind, execute_command.
    change (reachable (set__client true σ)) with (reachable σ). rewrite Hr.
    cbn [server]. change (live (set__client true σ) key) with (live σ key).
    by rewrite Hlive.
Qed.

Lemma expiry_refused n t : t ≤ 0 → expiry_accepted n t = false.
Proof.
  intros Ht. unfold expiry_accepted.
  by rewrite (proj2 (Z.ltb_ge _ _) Ht).
Qed.

(** Whatever the reason, a refused expiry is an error reply, which the
    client raises as a [ResponseError]. *)
Lemma set_refused key octets ex σ :
  expiry_accepted (now σ) ex = false →
  ∃ message, server (SET key octets ex) σ = (Error message, σ).
Proof.
  intros Hex. cbn [server]. rewrite Hex.
  destruct ((ex <? - LLONG_MAX - 1) || (LLONG_MAX <? ex)); by eexists.
Qed.

Lemma set_run key value expiration v octets σ :
  reachable σ = true →
  stored_form value = Some v →
  wire v = Some octets →
  set REDIS_DECODE_RESPONSES REDIS_CACHE_EXPIRATION key value expiration σ
  = if expiry_accepted (now σ) (or_default REDIS_CACHE_EXPIRATION expiration)
    then (Returns (PBool true),
          set_db (<[key := mkEntry octets (now σ + or_default REDIS_CACHE_EXPIRATION expiration)]>
                    (db σ))
            (set__client true σ))
    else (Returns (PBool false), set__client true σ).
Proof.
  intros Hr Hv Ho. unfold RedisManager.set, try_except.
  unfold mbind at 1, M_bind at 1. rewrite serialize_value, Hv.
  rewrite client_ready by auto.
  unfold send, mbind, M_bind. rewrite Ho. cbn [mret M_ret].
  unfold execute_command.
  change (reachable (set__client true σ)) with (reachable σ). rewrite Hr.
  destruct (expiry_accepted (now σ) (or_default REDIS_CACHE_EXPIRATION expiration)) eqn:Hex.
  - cbn [server]. change (now (set__client true σ)) with (now σ).
    by rewrite Hex.
  - destruct (set_refused key octets (or_default REDIS_CACHE_EXPIRATION expiration)
                (set__client true σ) Hex) as [message ->]. done.
Qed.

Lemma truthy_count_live σ key :
  truthy (PInt (count_live σ key)) = bool_decide (is_Some (live σ key)).
Proof.
  unfold count_live. destruct (live σ key).
  - by rewrite bool_decide_eq_true_2.
  - rewrite bool_decide_eq_false_2; [done|]. by intros [? ?].
Qed.

Lemma delete_run key σ :
  reachable σ = true →
  delete REDIS_DECODE_RESPONSES key σ
  = (Returns (bool_decide (is_Some (live σ key))),
     set_db (base.delete key (db σ)) (set__client true σ)).
Proof.
  intros Hr. unfold RedisManager.delete, try_except.
  rewrite client_ready by auto.
  unfold mbind, M_bind, execute_command.
  change (reachable (set__client true σ)) with (reachable σ). rewrite Hr.
  cbn [server parse_reply mret M_ret].
  change (count_live (set__client true σ) key) with (count_live σ key).
  by rewrite truthy_count_live.
Qed.

Lemma exists_run key σ :
  reachable σ = true →
  exists_ REDIS_DECODE_RESPONSES key σ
  = (Returns (bool_decide (is_Some (live σ key))), set__client true σ).
Proof.
  intros Hr. unfold RedisManager.exists_, try_except.
  rewrite client_ready by auto.
  unfold mbind, M_bind, execute_command.
  change (reachable (set__client true σ)) with (reachable σ). rewrite Hr.
  cbn [server parse_reply mret M_ret].
  change (count_live (set__client true σ) key) with (count_live σ key).
  by rewrite truthy_count_live.
Qed.

Lemma flush_all_run σ :
  reachable σ = true →
  flush_all REDIS_DECODE_RESPONSES σ = (Returns true, set_db ∅ (set__client true σ)).
Proof.
  intros Hr. unfold RedisManager.flush_all, try_except.
  rewrite client_ready by auto.
  unfold mbind, M_bind, execute_command.
  change (reachable (set__client true σ)) with (reachable σ). by rewrite Hr.
Qed.

Lemma live_written key octets seconds t σ :
  live (advance seconds
          (set_db (<[key := mkEntry octets (now σ + t)]> (db σ))
             (set__client true σ))) key
  = if seconds <? t then Some octets else None.
Proof.
  unfold live, advance. cbn [db now set_db set__client].
  rewrite lookup_insert_eq. cbn [expires_at payload].
  destruct (seconds <? t) eqn:Hlt.
  - apply Z.ltb_lt in Hlt. rewrite (proj2 (Z.ltb_lt _ _)); [done|lia].
  - apply Z.ltb_ge in Hlt. rewrite (proj2 (Z.ltb_ge _ _)); [done|lia].
Qed.

(** X9: a value written with a time to live the server accepts is
    gone once more than that many seconds have passed: [set] reports
    [True], and from then on [get] returns the caller's default and
    [exists] returns [False]. *)
Theorem expired_key_reads_as_default key value expiration default seconds σ :
  reachable σ = true →
  is_Some (stored_form value) →
  expiry_accepted (now σ) (or_default REDIS_CACHE_EXPIRATION expiration) = true →
  or_default REDIS_CACHE_EXPIRATION expiration < seconds →
  (set REDIS_DECODE_RESPONSES REDIS_CACHE_EXPIRATION key value expiration σ).1 = Returns (PBool true) ∧
  set_then_get REDIS_DECODE_RESPONSES REDIS_CACHE_EXPIRATION key value expiration default seconds σ = Returns default ∧
  (exists_ REDIS_DECODE_RESPONSES key
     (advance seconds (set REDIS_DECODE_RESPONSES REDIS_CACHE_EXPIRATION key value expiration σ).2)).1
  = Returns false.
Proof.
  intros Hr (v & octets & Hv & Ho & _)%sent_octets_some Hex Hlt.
  unfold set_then_get. rewrite (set_run _ _ _ v octets) by done.
  rewrite Hex. cbn [fst snd].
  split; [done|].
  rewrite get_run, exists_run by done. rewrite live_written.
  rewrite (proj2 (Z.ltb_ge _ _)) by lia. cbn [fst]. split; [done|].
  rewrite bool_decide_eq_false_2; [done|]. by intros [? ?].
Qed.

Lemma queue_sets_commands mapping items expiration σ :
  stored_items mapping = Some items →
  queue_sets REDIS_CACHE_EXPIRATION items expiration σ
  = (Returns ((λ '(k, v), SET k (default "" (sent_octets v))
                            (or_default REDIS_CACHE_EXPIRATION expiration)) <$> mapping), σ).
Proof.
  unfold stored_items. revert items.
  induction mapping as [|[k v] mapping IH]; intros items.
  - by intros [= <-].
  - simpl. destruct (stored_form v) as [v'|] eqn:Hv; simpl; [|done].
    destruct (mapM _ mapping) as [rest|]; simpl; [|done].
    intros [= <-]. simpl.
    destruct (stored_form_wire _ _ Hv) as [octets Ho].
    unfold send, mbind, M_bind. rewrite Ho. cbn [mret M_ret].
    rewrite (IH rest eq_refl). unfold sent_octets. rewrite Hv. simpl.
    by rewrite Ho.
Qed.

Lemma write_all_octets now_ t mapping items d :
  stored_items mapping = Some items →
  write_all now_ t mapping d
  = foldl (λ d kv, <[kv.1 := mkEntry (default "" (sent_octets kv.2)) (now_ + t)]> d)
      d mapping.
Proof.
  unfold stored_items, write_all. revert items d.
  induction mapping as [|[k v] mapping IH]; intros items d; [done|].
  simpl. destruct (stored_form v) as [v'|] eqn:Hv; simpl; [|done].
  destruct (mapM _ mapping) as [rest|] eqn:Hrest; simpl; [|done].
  intros _. destruct (sent_octets_some v) as (v1 & octets & _ & _ & ->); [by eauto|].
  simpl. by apply (IH rest).
Qed.

Lemma run_all_sets (o : string * pyval → string) t mapping σ :
  ∃ message,
    run_all ((λ kv, SET kv.1 (o kv) t) <$> mapping) σ
    = if expiry_accepted (now σ) t
      then ((λ _, Status_OK) <$> mapping,
            set_db (foldl (λ d kv, <[kv.1 := mkEntry (o kv) (now σ + t)]> d)
                      (db σ) mapping) σ)
      else ((λ _, Error message) <$> mapping, σ).
Proof.
  exists (if (t <? - LLONG_MAX - 1) || (LLONG_MAX <? t)
          then "ERR value is not an integer or out of range"
          else "ERR invalid expire time in 'set' command").
  revert σ. induction mapping as [|kv mapping IH]; intros σ.
  - simpl. destruct (expiry_accepted (now σ) t); [by destruct σ|done].
  - rewrite fmap_cons. cbn [run_all server].
    destruct (expiry_accepted (now σ) t) eqn:Ht.
    + rewrite IH. cbn [now set_db db]. rewrite Ht. by destruct σ.
    + destruct ((t <? - LLONG_MAX - 1) || (LLONG_MAX <? t));
        rewrite IH, Ht; reflexivity.
Qed.

Lemma parse_all_ok {B} (l : list B) :
  parse_all REDIS_DECODE_RESPONSES ((λ _, Status_OK) <$> l)
  = Returns ((λ _, PBool true) <$> l).
Proof.
  induction l as [|x l IH]; [done|].
  rewrite !fmap_cons. cbn [parse_all parse_reply]. by rewrite IH.
Qed.

Lemma set_many_run mapping expiration σ :
  reachable σ = true →
  is_Some (stored_items mapping) →
  set_many REDIS_DECODE_RESPONSES REDIS_CACHE_EXPIRATION mapping expiration σ
  = if expiry_accepted (now σ) (or_default REDIS_CACHE_EXPIRATION expiration)
    then (Returns true,
          set_db (write_all (now σ) (or_default REDIS_CACHE_EXPIRATION expiration) mapping (db σ))
            (set__client true σ))
    else (Returns (bool_decide (mapping = [])), set__client true σ).
Proof.
  intros Hr [items Hitems]. unfold RedisManager.set_many, try_except.
  unfold mbind at 1, M_bind at 1. rewrite serialize_all_run, Hitems.
  rewrite client_ready by auto.
  unfold mbind at 1, M_bind at 1. rewrite (queue_sets_commands mapping) by done.
  unfold mbind at 1, M_bind at 1. unfold pipeline_execute.
  destruct mapping as [|kv0 mapping0] eqn:Hmapping.
  { cbn [fmap list_fmap write_all foldl mret M_ret].
    destruct (expiry_accepted _ _); by destruct σ. }
  rewrite <- Hmapping in *. 
  assert (Hcons : ∀ B (f : string * pyval → command) (a b : B),
             match f <$> mapping with [] => a | _ :: _ => b end = b)
    by (intros; by rewrite Hmapping).
  rewrite Hcons.
  change (reachable (set__client true σ)) with (reachable σ). rewrite Hr.
  assert (Hcs : (λ '(k, v), SET k (default "" (sent_octets v))
                              (or_default REDIS_CACHE_EXPIRATION expiration)) <$> mapping
                = (λ kv, SET kv.1 (default "" (sent_octets kv.2))
                           (or_default REDIS_CACHE_EXPIRATION expiration)) <$> mapping).
  { apply list_fmap_ext. by intros i [k v] _. }
  rewrite Hcs.
  destruct (run_all_sets (λ kv, default "" (sent_octets kv.2))
              (or_default REDIS_CACHE_EXPIRATION expiration) mapping (set__client true σ))
    as [message ->].
  change (now (set__client true σ)) with (now σ).
  rewrite (write_all_octets _ _ _ items) by done.
  destruct (expiry_accepted (now σ) (or_default REDIS_CACHE_EXPIRATION expiration)).
  - rewrite parse_all_ok. cbn [mret M_ret].
    change (db (set__client true σ)) with (db σ).
    reflexivity.
  - rewrite Hmapping. rewrite bool_decide_eq_false_2 by done. reflexivity.
Qed.

Lemma set_each_run mapping expiration σ :
  reachable σ = true →
  is_Some (stored_items mapping) →
  mapping ≠ [] →
  set_each REDIS_DECODE_RESPONSES REDIS_CACHE_EXPIRATION mapping expiration σ
  = if expiry_accepted (now σ) (or_default REDIS_CACHE_EXPIRATION expiration)
    then set_db (write_all (now σ) (or_default REDIS_CACHE_EXPIRATION expiration) mapping (db σ))
           (set__client true σ)
    else set__client true σ.
Proof.
  intros Hr [items Hitems] Hne. unfold set_each, write_all.
  assert (Hgen : ∀ σ0, reachable σ0 = true →
            foldl (λ s '(k, v), (RedisManager.set REDIS_DECODE_RESPONSES REDIS_CACHE_EXPIRATION k v expiration s).2)
              σ0 mapping
            = if expiry_accepted (now σ0) (or_default REDIS_CACHE_EXPIRATION expiration)
              then set_db (foldl (λ d '(k, v),
                                    match sent_octets v with
                                    | Some octets =>
                                        <[k := mkEntry octets
                                                 (now σ0 + or_default REDIS_CACHE_EXPIRATION expiration)]> d
                                    | None => d
                                    end) (db σ0) mapping)
                     (if mapping is [] then σ0 else set__client true σ0)
              else if mapping is [] then σ0 else set__client true σ0).
  { clear Hne. revert items Hitems. unfold stored_items.
    induction mapping as [|[k v] mapping IH]; intros items Hitems σ0 Hr0.
    - simpl. destruct (expiry_accepted _ _); [by destruct σ0|done].
    - simpl in Hitems. destruct (stored_form v) as [v'|] eqn:Hv; [|done].
      simpl in Hitems. destruct (mapM _ mapping) as [rest|] eqn:Hrest; [|done].
      destruct (sent_octets_some v) as (v1 & octets & Hv1 & Ho & Hs); [by eauto|].
      cbn [foldl]. rewrite (set_run _ _ _ v1 octets) by done. rewrite Hs.
      destruct (expiry_accepted (now σ0) (or_default REDIS_CACHE_EXPIRATION expiration)) eqn:Ht;
        cbn [snd].
      + rewrite (IH rest eq_refl) by done.
        cbn [db now set_db set__client]. rewrite Ht.
        destruct mapping; [done|]. by destruct σ0.
      + rewrite (IH rest eq_refl) by done.
        cbn [now set__client]. rewrite Ht.
        destruct mapping; [done|]. by destruct σ0. }
  rewrite Hgen by done. destruct mapping; [done|]. done.
Qed.

(** X10: for a mapping whose values can all be serialized, and with the
    store reachable, [set_many] leaves the store as one [set] per item,
    in order, would; with a time to live the server accepts it returns
    [True] and the store holds every item's octets with that time to
    live. *)
Theorem set_many_writes_like_sets mapping expiration σ :
  reachable σ = true →
  NoDup mapping.*1 →
  is_Some (stored_items mapping) →
  same_store (set_many REDIS_DECODE_RESPONSES REDIS_CACHE_EXPIRATION mapping expiration σ).2
    (set_each REDIS_DECODE_RESPONSES REDIS_CACHE_EXPIRATION mapping expiration σ) ∧
  (expiry_accepted (now σ) (or_default REDIS_CACHE_EXPIRATION expiration) = true →
   (set_many REDIS_DECODE_RESPONSES REDIS_CACHE_EXPIRATION mapping expiration σ).1 = Returns true ∧
   db (set_many REDIS_DECODE_RESPONSES REDIS_CACHE_EXPIRATION mapping expiration σ).2
   = write_all (now σ) (or_default REDIS_CACHE_EXPIRATION expiration) mapping (db σ)).
Proof.
  intros Hr _ Hitems. rewrite set_many_run by done.
  destruct mapping as [|kv mapping].
  - unfold set_each, write_all. simpl. by destruct (expiry_accepted _ _).
  - rewrite set_each_run by done.
    destruct (expiry_accepted (now σ) (or_default REDIS_CACHE_EXPIRATION expiration)) eqn:Ht;
      cbn [fst snd]; done.
Qed.

(** X11: an expiration that is zero or negative - passed in, or the
    configured default when none is passed - stores nothing: [set]
    returns [False] and [set_many], for a mapping that is not empty,
    returns [False], and the store is unchanged.  An explicit [0] is not
    replaced by the default. *)
Theorem non_positive_expiration_stores_nothing key value mapping expiration σ :
  reachable σ = true →
  or_default REDIS_CACHE_EXPIRATION expiration ≤ 0 →
  (is_Some (stored_form value) →
   set REDIS_DECODE_RESPONSES REDIS_CACHE_EXPIRATION key value expiration σ = (Returns (PBool false), set__client true σ)) ∧
  (is_Some (stored_items mapping) → mapping ≠ [] →
   set_many REDIS_DECODE_RESPONSES REDIS_CACHE_EXPIRATION mapping expiration σ = (Returns false, set__client true σ)).
Proof.
  intros Hr Hle. pose proof (expiry_refused (now σ) _ Hle) as Hex. split.
  - intros (v & octets & Hv & Ho & _)%sent_octets_some.
    by rewrite (set_run _ _ _ v octets), Hex.
  - intros Hitems Hne. rewrite set_many_run, Hex by done.
    by rewrite bool_decide_eq_false_2.
Qed.

(** The handlers of the manager return a fallback: they leave the
    state as the body left it. *)
Lemma try_except_state {B} (body : M state exn B) (fallback : B) σ :
  (try_except body (λ e, if handled e then Some (mret fallback) else None) σ).2
  = (body σ).2.
Proof.
  unfold try_except. destruct (body σ) as [[b|e|] σ']; [done| |done].
  by destruct (handled e).
Qed.

Lemma client_then {B} (k : M state exn B) σ :
  (client;; k) σ = k (set__client true σ) ∨
  (client;; k) σ = (Raises ConnectionError, σ).
Proof.
  destruct (_client σ) eqn:Hc; [left; apply client_ready; auto|].
  destruct (reachable σ) eqn:Hr; [left; apply client_ready; auto|].
  right. by apply client_unreachable.
Qed.

Lemma same_store_refl σ : same_store σ σ.
Proof. done. Qed.

Lemma same_store_set__client b σ : same_store (set__client b σ) σ.
Proof. done. Qed.

Lemma get_result key default σ :
  (get REDIS_DECODE_RESPONSES key default σ).1
  = if reachable σ
    then match live σ key with
         | Some octets => read_back REDIS_DECODE_RESPONSES octets
         | None => Returns default
         end
    else Returns default.
Proof.
  destruct (reachable σ) eqn:Hr.
  - by rewrite get_run.
  - by apply get_unreachable.
Qed.

Lemma set_state (P : state → Prop) key value expiration σ :
  P σ →
  P (set__client true σ) →
  (∀ octets,
     P (set_db (<[key := mkEntry octets (now σ + or_default REDIS_CACHE_EXPIRATION expiration)]> (db σ))
          (set__client true σ))) →
  P (set REDIS_DECODE_RESPONSES REDIS_CACHE_EXPIRATION key value expiration σ).2.
Proof.
  intros Hsame Hclient Hwrite.
  unfold RedisManager.set. rewrite try_except_state.
  unfold mbind at 1, M_bind at 1. rewrite serialize_value.
  destruct (stored_form value) as [v|] eqn:Hv; [|done].
  destruct (client_then
              (octets ← send v;
               execute_command REDIS_DECODE_RESPONSES (SET key octets (or_default REDIS_CACHE_EXPIRATION expiration))) σ)
    as [-> | ->]; [|done].
  destruct (stored_form_wire _ _ Hv) as [octets Ho].
  unfold send, mbind, M_bind. rewrite Ho. cbn [mret M_ret].
  unfold execute_command.
  destruct (reachable (set__client true σ)) eqn:Hr; [|done].
  destruct (expiry_accepted (now (set__client true σ))
              (or_default REDIS_CACHE_EXPIRATION expiration)) eqn:Hex.
  - cbn [server]. rewrite Hex. apply Hwrite.
  - destruct (set_refused key octets (or_default REDIS_CACHE_EXPIRATION expiration)
                (set__client true σ) Hex) as [message ->]. done.
Qed.

Lemma set_effect key value expiration σ :
  reachable (set REDIS_DECODE_RESPONSES REDIS_CACHE_EXPIRATION key value expiration σ).2 = reachable σ ∧
  now (set REDIS_DECODE_RESPONSES REDIS_CACHE_EXPIRATION key value expiration σ).2 = now σ ∧
  ∀ key', key' ≠ key →
    db (set REDIS_DECODE_RESPONSES REDIS_CACHE_EXPIRATION key value expiration σ).2 !! key' = db σ !! key'.
Proof.
  apply (set_state (λ σ', reachable σ' = reachable σ ∧ now σ' = now σ ∧
                          ∀ key', key' ≠ key → db σ' !! key' = db σ !! key'));
    [done|done|].
  intros octets. repeat split. intros key' Hne. cbn [db set_db].
  by rewrite lookup_insert_ne.
Qed.

(** X12: [set] on one key never changes what [get] returns for another
    key, at any later instant, whether the write went through or not. *)
Theorem set_leaves_other_keys key key' value expiration default seconds σ :
  key' ≠ key →
  (get REDIS_DECODE_RESPONSES key' default
     (advance seconds (set REDIS_DECODE_RESPONSES REDIS_CACHE_EXPIRATION key value expiration σ).2)).1
  = (get REDIS_DECODE_RESPONSES key' default (advance seconds σ)).1.
Proof.
  intros Hne. rewrite !get_result.
  destruct (set_effect key value expiration σ) as (Hr & Hn & Hdb).
  unfold live, advance. cbn [reachable now db].
  by rewrite Hr, Hn, (Hdb key' Hne).
Qed.

(** X13: the last write wins: after two [set]s on the same key, the
    second with a time to live the server accepts, [get] returns what
    it would return had only the second been made, whatever the first
    value and its expiration were. *)
Theorem last_write_wins key value1 expiration1 value2 expiration2 default
    seconds σ :
  reachable σ = true →
  is_Some (stored_form value2) →
  expiry_accepted (now σ) (or_default REDIS_CACHE_EXPIRATION expiration2) = true →
  (get REDIS_DECODE_RESPONSES key default
     (advance seconds
        (set REDIS_DECODE_RESPONSES REDIS_CACHE_EXPIRATION key value2 expiration2
           (set REDIS_DECODE_RESPONSES REDIS_CACHE_EXPIRATION key value1 expiration1 σ).2).2)).1
  = set_then_get REDIS_DECODE_RESPONSES REDIS_CACHE_EXPIRATION key value2 expiration2 default seconds σ.
Proof.
  intros Hr (v & octets & Hv & Ho & _)%sent_octets_some Hex.
  destruct (set_effect key value1 expiration1 σ) as (Hr1 & Hn1 & _).
  unfold set_then_get.
  rewrite (set_run key value2 expiration2 v octets σ) by done.
  rewrite (set_run key value2 expiration2 v octets
             (set REDIS_DECODE_RESPONSES REDIS_CACHE_EXPIRATION key value1 expiration1 σ).2) by congruence.
  assert (Hex1 : expiry_accepted
                   (now (set REDIS_DECODE_RESPONSES REDIS_CACHE_EXPIRATION key
                           value1 expiration1 σ).2)
                   (or_default REDIS_CACHE_EXPIRATION expiration2) = true)
    by by rewrite Hn1.
  rewrite Hex1, Hex. cbn [snd].
  rewrite !get_result, !live_written.
  change (reachable (advance seconds (set_db ?d (set__client true ?s))))
    with (reachable s).
  by rewrite Hr1, Hr.
Qed.

(** X14: [delete] returns [True] exactly when the key was live; after
    it [get] returns the default, [exists] returns [False] and a second
    [delete] returns [False]; the other keys are as they were. *)
Theorem delete_removes_the_key key σ :
  reachable σ = true →
  (delete REDIS_DECODE_RESPONSES key σ).1 = Returns (bool_decide (is_Some (live σ key))) ∧
  (∀ default, (get REDIS_DECODE_RESPONSES key default (delete REDIS_DECODE_RESPONSES key σ).2).1 = Returns default) ∧
  (exists_ REDIS_DECODE_RESPONSES key (delete REDIS_DECODE_RESPONSES key σ).2).1 = Returns false ∧
  (delete REDIS_DECODE_RESPONSES key (delete REDIS_DECODE_RESPONSES key σ).2).1 = Returns false ∧
  (∀ key', key' ≠ key → live (delete REDIS_DECODE_RESPONSES key σ).2 key' = live σ key').
Proof.
  intros Hr. rewrite (delete_run key σ) by done. cbn [fst snd].
  set (σ' := set_db _ _).
  assert (Hr' : reachable σ' = true) by done.
  assert (Hgone : live σ' key = None).
  { unfold live. subst σ'. cbn [db set_db]. by rewrite lookup_delete_eq. }
  split; [done|]. split; [|split; [|split]].
  - intros default. by rewrite get_result, Hr', Hgone.
  - rewrite exists_run, Hgone by done. cbn [fst].
    rewrite bool_decide_eq_false_2; [done|]. by intros [? ?].
  - rewrite delete_run, Hgone by done. cbn [fst].
    rewrite bool_decide_eq_false_2; [done|]. by intros [? ?].
  - intros key' Hne. unfold live. subst σ'. cbn [db now set_db set__client].
    by rewrite lookup_delete_ne.
Qed.


Lemma collect_state values keys :
  ∀ i result σ0, (collect values i keys result σ0).2 = σ0.
Proof.
  induction keys as [|key keys IH]; intros i result σ0; [done|].
  cbn [collect]. destruct (values !! i) as [value|]; [|done].
  assert (Hstep : ∀ value',
            ((decoded ← lift (from_json_if_it_looks_like_json value');
              collect values (S i) keys (<[key := decoded]> result)) σ0).2 = σ0).
  { intros value'. unfold mbind, M_bind, lift.
    destruct (from_json_if_it_looks_like_json value'); [apply IH|done..]. }
  destruct value; first [apply IH | apply Hstep].
Qed.

(** X16: the read operations [get], [exists] and [get_many] never
    change the store: same keys, same values, same expiry, whether they
    succeed, fall back or raise. *)
Theorem reads_do_not_write key default keys σ :
  same_store (get REDIS_DECODE_RESPONSES key default σ).2 σ ∧
  same_store (exists_ REDIS_DECODE_RESPONSES key σ).2 σ ∧
  same_store (get_many REDIS_DECODE_RESPONSES keys σ).2 σ.
Proof.
  unfold RedisManager.get, RedisManager.exists_, RedisManager.get_many.
  rewrite !try_except_state.
  split; [|split].
  - match goal with |- context [(client;; ?k) σ] =>
      destruct (client_then k σ) as [-> | ->]; [|done] end.
    unfold mbind, M_bind, execute_command.
    destruct (reachable (set__client true σ)); [|done].
    cbn [server].
    destruct (parse_reply REDIS_DECODE_RESPONSES _) as [value| |]; [|done..].
    unfold lift. by destruct value.
  - match goal with |- context [(client;; ?k) σ] =>
      destruct (client_then k σ) as [-> | ->]; [|done] end.
    unfold mbind, M_bind, execute_command.
    destruct (reachable (set__client true σ)); [|done].
    cbn [server]. destruct (parse_reply REDIS_DECODE_RESPONSES _) as [| |]; done.
  - match goal with |- context [(client;; ?k) σ] =>
      destruct (client_then k σ) as [-> | ->]; [|done] end.
    unfold mbind at 1, M_bind at 1, pipeline_execute.
    destruct keys as [|k0 keys0] eqn:Hkeys; [done|]. rewrite <- Hkeys.
    assert (Hcons : ∀ B (a b : B),
               match GET <$> keys with [] => a | _ :: _ => b end = b)
      by (intros; by rewrite Hkeys).
    rewrite Hcons.
    destruct (reachable (set__client true σ)); [|done].
    rewrite run_all_gets.
    destruct (parse_all REDIS_DECODE_RESPONSES _) as [values| |]; [|done..].
    by rewrite collect_state.
Qed.

(** X17: [get_many] and [get] agree: with the store reachable and the
    stored octets readable, the mapping [get_many] returns holds, for
    each requested key, exactly the value [get] returns for it, and
    nothing for a key that is absent, expired or not requested - where
    [get] returns the default. *)
Theorem get_many_agrees_with_get keys σ :
  reachable σ = true →
  Forall (λ k, ∀ octets, live σ k = Some octets → readable REDIS_DECODE_RESPONSES octets) keys →
  ∃ m,
    (get_many REDIS_DECODE_RESPONSES keys σ).1 = Returns m ∧
    (∀ k, m !! k = if decide (k ∈ keys) then cached REDIS_DECODE_RESPONSES σ k else None) ∧
    (∀ k default, k ∈ keys →
       (get REDIS_DECODE_RESPONSES k default σ).1 = Returns (option.default default (m !! k))).
Proof.
  intros Hr Hread. destruct (get_many_run _ keys σ Hr Hread) as (m & -> & Hm).
  exists m. split; [done|]. split; [done|].
  intros k default Hk. rewrite Hm, decide_True by done.
  rewrite get_result, Hr. unfold cached.
  destruct (live σ k) as [octets|] eqn:Hlive; [|done]. simpl.
  rewrite Forall_forall in Hread.
  by destruct (Hread k Hk octets Hlive) as [v ->].
Qed.

(** X18: [flush_all] returns [True] and leaves no key: afterwards
    [get] returns the default for every key, [exists] returns [False],
    and [get_many] returns an empty mapping. *)
Theorem flush_all_empties_the_store σ :
  reachable σ = true →
  (flush_all REDIS_DECODE_RESPONSES σ).1 = Returns true ∧
  (∀ key default, (get REDIS_DECODE_RESPONSES key default (flush_all REDIS_DECODE_RESPONSES σ).2).1 = Returns default) ∧
  (∀ key, (exists_ REDIS_DECODE_RESPONSES key (flush_all REDIS_DECODE_RESPONSES σ).2).1 = Returns false) ∧
  (∀ keys, (get_many REDIS_DECODE_RESPONSES keys (flush_all REDIS_DECODE_RESPONSES σ).2).1 = Returns ∅).
Proof.
  intros Hr. rewrite flush_all_run by done. cbn [fst snd].
  set (σ' := set_db _ _).
  assert (Hr' : reachable σ' = true) by done.
  assert (Hgone : ∀ key, live σ' key = None).
  { intros key. unfold live. subst σ'. cbn [db set_db]. by rewrite lookup_empty. }
  split; [done|]. split; [|split].
  - intros key default. by rewrite get_result, Hr', Hgone.
  - intros key. rewrite exists_run, Hgone by done. cbn [fst].
    rewrite bool_decide_eq_false_2; [done|]. by intros [? ?].
  - intros keys.
    destruct (get_many_run REDIS_DECODE_RESPONSES keys σ' Hr') as (m & -> & Hm).
    + apply Forall_forall. intros k _ octets. by rewrite Hgone.
    + cbn [fst]. f_equal. apply map_eq. intros k. rewrite Hm, lookup_empty.
      unfold cached. rewrite Hgone. by destruct (decide _).
Qed.

Lemma stored_items_none mapping k v :
  (k, v) ∈ mapping → stored_form v = None → stored_items mapping = None.
Proof.
  intros Hin Hv. unfold stored_items.
  destruct (mapM _ mapping) as [items|] eqn:Hitems; [|done].
  assert (Hsome : is_Some (mapM (λ '(k, v), pair k <$> stored_form v) mapping))
    by by rewrite Hitems.
  apply mapM_is_Some in Hsome. rewrite Forall_forall in Hsome.
  specialize (Hsome _ Hin). simpl in Hsome. rewrite Hv in Hsome.
  by destruct Hsome.
Qed.

(** X19: one value that [json.dumps] refuses makes [set_many] raise
    [TypeError] before anything is sent: no item of the mapping is
    written, not even those that come before it, and the manager does
    not connect; [set] on that value raises the same way. *)
Theorem unserializable_item_writes_nothing mapping expiration k v σ :
  (k, v) ∈ mapping →
  stored_form v = None →
  set_many REDIS_DECODE_RESPONSES REDIS_CACHE_EXPIRATION mapping expiration σ = (Raises TypeError, σ) ∧
  (∀ key, set REDIS_DECODE_RESPONSES REDIS_CACHE_EXPIRATION key v expiration σ = (Raises TypeError, σ)).
Proof.
  intros Hin Hv. split.
  - unfold RedisManager.set_many, try_except.
    unfold mbind at 1, M_bind at 1.
    by rewrite serialize_all_run, (stored_items_none _ _ _ Hin Hv).
  - intros key. by apply set_unserializable.
Qed.

(** X20: closing the manager does not disable it: with the store
    reachable, every operation after [close] reconnects and gives the
    same result, and leaves the same state, as it would have without the
    [close] - [set] and [set_many] on values that can be serialized, the
    others always. *)
Theorem closed_manager_reconnects σ :
  reachable σ = true →
  (∀ key default,
     get REDIS_DECODE_RESPONSES key default (close σ).2 = get REDIS_DECODE_RESPONSES key default σ) ∧
  (∀ key value expiration, is_Some (stored_form value) →
     set REDIS_DECODE_RESPONSES REDIS_CACHE_EXPIRATION key value expiration (close σ).2 = set REDIS_DECODE_RESPONSES REDIS_CACHE_EXPIRATION key value expiration σ) ∧
  (∀ key, delete REDIS_DECODE_RESPONSES key (close σ).2 = delete REDIS_DECODE_RESPONSES key σ) ∧
  (∀ key, exists_ REDIS_DECODE_RESPONSES key (close σ).2 = exists_ REDIS_DECODE_RESPONSES key σ) ∧
  flush_all REDIS_DECODE_RESPONSES (close σ).2 = flush_all REDIS_DECODE_RESPONSES σ ∧
  (∀ mapping expiration, is_Some (stored_items mapping) →
     set_many REDIS_DECODE_RESPONSES REDIS_CACHE_EXPIRATION mapping expiration (close σ).2
     = set_many REDIS_DECODE_RESPONSES REDIS_CACHE_EXPIRATION mapping expiration σ) ∧
  (∀ keys, get_many REDIS_DECODE_RESPONSES keys (close σ).2 = get_many REDIS_DECODE_RESPONSES keys σ).
Proof.
  intros Hr.
  assert (Hclose : ∃ b, (close σ).2 = set__client b σ).
  { unfold close, modify. cbn [snd]. destruct (_client σ) eqn:Hc.
    - by exists false.
    - exists false. destruct σ; simpl in *; by subst. }
  destruct Hclose as [b ->].
  assert (Hr' : reachable (set__client b σ) = true) by done.
  split; [|split; [|split; [|split; [|split; [|split]]]]].
  - intros key default. by rewrite !get_run.
  - intros key value expiration (v & octets & Hv & Ho & _)%sent_octets_some.
    by rewrite !(set_run _ _ _ v octets).
  - intros key. by rewrite !delete_run.
  - intros key. by rewrite !exists_run.
  - by rewrite !flush_all_run.
  - intros mapping expiration Hitems. by rewrite !set_many_run.
  - intros keys. unfold RedisManager.get_many, try_except.
    by rewrite !client_ready by auto.
Qed.

Lemma stored_items_item mapping k v :
  is_Some (stored_items mapping) → (k, v) ∈ mapping → is_Some (stored_form v).
Proof.
  unfold stored_items. intros Hsome%mapM_is_Some Hin.
  rewrite Forall_forall in Hsome. specialize (Hsome _ Hin). simpl in Hsome.
  destruct (stored_form v); [by eauto|]. by destruct Hsome.
Qed.

Lemma write_all_lookup_ne now_ t mapping k :
  ∀ d, k ∉ mapping.*1 → write_all now_ t mapping d !! k = d !! k.
Proof.
  unfold write_all. induction mapping as [|[k' v'] mapping IH]; intros d Hk;
    [done|].
  rewrite fmap_cons in Hk. apply not_elem_of_cons in Hk as [Hne Hk].
  cbn [foldl]. rewrite IH by done.
  destruct (sent_octets v'); [|done]. by rewrite lookup_insert_ne.
Qed.

Lemma write_all_lookup now_ t mapping k v octets :
  ∀ d, NoDup mapping.*1 → (k, v) ∈ mapping → sent_octets v = Some octets →
       write_all now_ t mapping d !! k = Some (mkEntry octets (now_ + t)).
Proof.
  induction mapping as [|[k' v'] mapping IH]; intros d Hnodup Hin Ho.
  - by apply elem_of_nil in Hin.
  - rewrite fmap_cons in Hnodup. apply NoDup_cons in Hnodup as [Hfresh Hnodup].
    apply elem_of_cons in Hin as [[= <- <-]|Hin].
    + unfold write_all. cbn [foldl]. rewrite Ho.
      fold (write_all now_ t mapping (<[k := mkEntry octets (now_ + t)]> d)).
      rewrite write_all_lookup_ne by done. by rewrite lookup_insert_eq.
    + unfold write_all. cbn [foldl].
      match goal with
      | |- foldl ?f ?d' mapping !! k = _ =>
          change (foldl f d' mapping) with (write_all now_ t mapping d')
      end.
      by apply IH.
Qed.

(** X21: each item written by [set_many] reads back as if it had been
    written alone: for a mapping with values that can be serialized and
    a positive time to live, [get] on a key of the mapping, before the
    time to live has passed, returns what it would return after a
    single [set] of that key's value. *)
Theorem set_many_items_read_back mapping expiration seconds k v default σ :
  reachable σ = true →
  NoDup mapping.*1 →
  is_Some (stored_items mapping) →
  seconds < or_default REDIS_CACHE_EXPIRATION expiration →
  0 < or_default REDIS_CACHE_EXPIRATION expiration →
  (k, v) ∈ mapping →
  (get REDIS_DECODE_RESPONSES k default
     (advance seconds (set_many REDIS_DECODE_RESPONSES REDIS_CACHE_EXPIRATION mapping expiration σ).2)).1
  = set_then_get REDIS_DECODE_RESPONSES REDIS_CACHE_EXPIRATION k v expiration default seconds σ.
Proof.
  intros Hr Hnodup Hitems Hs Hpos Hin.
  destruct (sent_octets_some v) as (v' & octets & Hv & Ho & Hsent);
    [by eapply stored_items_item|].
  rewrite set_many_run by done.
  destruct (expiry_accepted (now σ) (or_default REDIS_CACHE_EXPIRATION expiration))
    eqn:Hex.
  - rewrite (set_then_get_reads _ _ _ _ _ _ _ v' octets) by done.
    cbn [snd]. rewrite get_result.
    change (reachable (advance seconds (set_db ?d (set__client true ?s))))
      with (reachable s).
    rewrite Hr. unfold live, advance. cbn [db now set_db set__client].
    rewrite (write_all_lookup _ _ _ _ v octets) by done.
    cbn [expires_at payload].
    rewrite (proj2 (Z.ltb_lt _ _)); [done|lia].
  - unfold set_then_get. rewrite (set_run _ _ _ v' octets) by done.
    by rewrite Hex.
Qed.

End cache_more.

Lemma expired_key_reads_as_default_witness :
  (RedisManager.set true 3600 "k" (PInt 42) (Some 60) empty_store).1
  = Returns (PBool true) ∧
  set_then_get true 3600 "k" (PInt 42) (Some 60) PNone 61 empty_store
  = Returns PNone ∧
  (RedisManager.exists_ true "k"
     (RedisManager.advance 61
        (RedisManager.set true 3600 "k" (PInt 42) (Some 60) empty_store).2)).1
  = Returns false.
Proof.
  apply (expired_key_reads_as_default true 3600 "k" (PInt 42) (Some 60) PNone 61
           empty_store).
  - reflexivity.
  - eexists. reflexivity.
  - reflexivity.
  - simpl. lia.
Defined.

Lemma set_many_writes_like_sets_witness :
  same_store
    (RedisManager.set_many true 3600 [("a", PInt 1); ("b", PStr "x")] None
       empty_store).2
    (set_each true 3600 [("a", PInt 1); ("b", PStr "x")] None empty_store) ∧
  (RedisManager.expiry_accepted (RedisManager.now empty_store)
     (RedisManager.or_default 3600 None) = true →
   (RedisManager.set_many true 3600 [("a", PInt 1); ("b", PStr "x")] None
      empty_store).1 = Returns true ∧
   RedisManager.db
     (RedisManager.set_many true 3600 [("a", PInt 1); ("b", PStr "x")] None
        empty_store).2
   = write_all (RedisManager.now empty_store) (RedisManager.or_default 3600 None)
       [("a", PInt 1); ("b", PStr "x")] (RedisManager.db empty_store)).
Proof.
  apply (set_many_writes_like_sets true 3600 [("a", PInt 1); ("b", PStr "x")]
           None empty_store).
  - reflexivity.
  - compute_done.
  - eexists. vm_compute. reflexivity.
Defined.

Lemma non_positive_expiration_stores_nothing_witness :
  (is_Some (stored_form (PStr "v")) →
   RedisManager.set true 3600 "k" (PStr "v") (Some 0) empty_store
   = (Returns (PBool false), RedisManager.set__client true empty_store)) ∧
  (is_Some (stored_items [("a", PInt 1)]) → [("a", PInt 1)] ≠ [] →
   RedisManager.set_many true 3600 [("a", PInt 1)] (Some 0) empty_store
   = (Returns false, RedisManager.set__client true empty_store)).
Proof.
  apply (non_positive_expiration_stores_nothing true 3600 "k" (PStr "v")
           [("a", PInt 1)] (Some 0) empty_store).
  - reflexivity.
  - simpl. lia.
Defined.

Lemma set_leaves_other_keys_witness :
  (RedisManager.get true "k1" PNone
     (RedisManager.advance 10
        (RedisManager.set true 3600 "k3" (PStr "new") None three_keys_store).2)).1
  = (RedisManager.get true "k1" PNone
       (RedisManager.advance 10 three_keys_store)).1.
Proof.
  apply (set_leaves_other_keys true 3600 "k3" "k1" (PStr "new") None PNone 10
           three_keys_store).
  discriminate.
Defined.

Lemma last_write_wins_witness :
  (RedisManager.get true "k" PNone
     (RedisManager.advance 5
        (RedisManager.set true 3600 "k" (PStr "second") None
           (RedisManager.set true 3600 "k" (PStr "first") None empty_store).2).2)).1
  = set_then_get true 3600 "k" (PStr "second") None PNone 5 empty_store.
Proof.
  apply (last_write_wins true 3600 "k" (PStr "first") None (PStr "second") None
           PNone 5 empty_store).
  - reflexivity.
  - eexists. reflexivity.
  - reflexivity.
Defined.

Lemma delete_removes_the_key_witness :
  (RedisManager.delete true "k1" three_keys_store).1
  = Returns (bool_decide (is_Some (RedisManager.live three_keys_store "k1"))) ∧
  (∀ default,
     (RedisManager.get true "k1" default
        (RedisManager.delete true "k1" three_keys_store).2).1 = Returns default) ∧
  (RedisManager.exists_ true "k1"
     (RedisManager.delete true "k1" three_keys_store).2).1 = Returns false ∧
  (RedisManager.delete true "k1"
     (RedisManager.delete true "k1" three_keys_store).2).1 = Returns false ∧
  (∀ key', key' ≠ "k1" →
     RedisManager.live (RedisManager.delete true "k1" three_keys_store).2 key'
     = RedisManager.live three_keys_store key').
Proof.
  apply (delete_removes_the_key true "k1" three_keys_store).
  reflexivity.
Defined.


Lemma get_many_agrees_with_get_witness :
  ∃ m,
    (RedisManager.get_many true ["k1"; "k2"; "k3"; "k4"] three_keys_store).1
    = Returns m ∧
    (∀ k, m !! k = if decide (k ∈ ["k1"; "k2"; "k3"; "k4"])
                   then cached true three_keys_store k else None) ∧
    (∀ k default, k ∈ ["k1"; "k2"; "k3"; "k4"] →
       (RedisManager.get true k default three_keys_store).1
       = Returns (option.default default (m !! k))).
Proof.
  apply (get_many_agrees_with_get true ["k1"; "k2"; "k3"; "k4"] three_keys_store).
  - reflexivity.
  - repeat (apply Forall_cons_2); [..|apply Forall_nil_2];
      intros octets Hlive; vm_compute in Hlive;
      first [ discriminate Hlive
            | injection Hlive as <-; eexists; vm_compute; reflexivity ].
Defined.

Lemma flush_all_empties_the_store_witness :
  (RedisManager.flush_all true three_keys_store).1 = Returns true ∧
  (∀ key default,
     (RedisManager.get true key default
        (RedisManager.flush_all true three_keys_store).2).1 = Returns default) ∧
  (∀ key,
     (RedisManager.exists_ true key
        (RedisManager.flush_all true three_keys_store).2).1 = Returns false) ∧
  (∀ keys,
     (RedisManager.get_many true keys
        (RedisManager.flush_all true three_keys_store).2).1 = Returns ∅).
Proof.
  apply (flush_all_empties_the_store true three_keys_store).
  reflexivity.
Defined.

Lemma unserializable_item_writes_nothing_witness :
  RedisManager.set_many true 3600
    [("a", PInt 1); ("b", PList [PBytes "x"])] None empty_store
  = (Raises RedisManager.TypeError, empty_store) ∧
  (∀ key, RedisManager.set true 3600 key (PList [PBytes "x"]) None empty_store
          = (Raises RedisManager.TypeError, empty_store)).
Proof.
  apply (unserializable_item_writes_nothing true 3600
           [("a", PInt 1); ("b", PList [PBytes "x"])] None "b"
           (PList [PBytes "x"]) empty_store).
  - apply list_elem_of_further, list_elem_of_here.
  - reflexivity.
Defined.

Lemma closed_manager_reconnects_witness :
  (∀ key default,
     RedisManager.get true key default (RedisManager.close three_keys_store).2
     = RedisManager.get true key default three_keys_store) ∧
  (∀ key value expiration, is_Some (stored_form value) →
     RedisManager.set true 3600 key value expiration
       (RedisManager.close three_keys_store).2
     = RedisManager.set true 3600 key value expiration three_keys_store) ∧
  (∀ key, RedisManager.delete true key (RedisManager.close three_keys_store).2
          = RedisManager.delete true key three_keys_store) ∧
  (∀ key, RedisManager.exists_ true key (RedisManager.close three_keys_store).2
          = RedisManager.exists_ true key three_keys_store) ∧
  RedisManager.flush_all true (RedisManager.close three_keys_store).2
  = RedisManager.flush_all true three_keys_store ∧
  (∀ mapping expiration, is_Some (stored_items mapping) →
     RedisManager.set_many true 3600 mapping expiration
       (RedisManager.close three_keys_store).2
     = RedisManager.set_many true 3600 mapping expiration three_keys_store) ∧
  (∀ keys,
     RedisManager.get_many true keys (RedisManager.close three_keys_store).2
     = RedisManager.get_many true keys three_keys_store).
Proof.
  apply (closed_manager_reconnects true 3600 three_keys_store).
  reflexivity.
Defined.

Lemma set_many_items_read_back_witness :
  (RedisManager.get true "b" PNone
     (RedisManager.advance 10
        (RedisManager.set_many true 3600
           [("a", PInt 1); ("b", PList [PInt 2])] None empty_store).2)).1
  = set_then_get true 3600 "b" (PList [PInt 2]) None PNone 10 empty_store.
Proof.
  apply (set_many_items_read_back true 3600
           [("a", PInt 1); ("b", PList [PInt 2])] None 10 "b" (PList [PInt 2])
           PNone empty_store).
  - reflexivity.
  - compute_done.
  - eexists. vm_compute. reflexivity.
  - simpl. lia.
  - simpl. lia.
  - apply list_elem_of_further, list_elem_of_here.
Defined.

(** ** More on [build_key] *)

Section build_key_more.

Lemma str_join_app sep (a b : list string) :
  a ≠ [] → b ≠ [] →
  str_join sep (a ++ b) = str_join sep a +:+ sep +:+ str_join sep b.
Proof.
  induction a as [|s a IH]; [done|]. intros _ Hb.
  destruct a as [|s' a].
  - destruct b as [|t b]; [done|]. reflexivity.
  - change (str_join sep ((s :: s' :: a) ++ b))
      with (s +:+ sep +:+ str_join sep ((s' :: a) ++ b)).
    rewrite IH by done.
    change (str_join sep (s :: s' :: a))
      with (s +:+ sep +:+ str_join sep (s' :: a)).
    by rewrite !app_assoc_s.
Qed.

Lemma str_join_empty sep (l : list string) :
  Forall (λ s, s ≠ "") l → str_join sep l = "" → l = [].
Proof.
  destruct l as [|s l]; [done|]. intros [Hs _]%Forall_cons Hjoin.
  destruct s as [|c s]; [done|]. destruct l; discriminate Hjoin.
Qed.

Lemma atom_str_nonempty (p : atom) : truthy p = true → py_str p ≠ "".
Proof.
  destruct p as [|[]|n|[|c s]]; try done.
  intros _ Hempty. destruct (pretty_Z_head n "") as (c & r & Heq & _).
  unfold py_str, atom_str in Hempty. rewrite Hempty in Heq. discriminate Heq.
Qed.

Lemma kept_parts_nonempty (parts : list atom) :
  Forall (λ s, s ≠ "") (kept_parts parts).
Proof.
  unfold kept_parts. apply Forall_fmap, Forall_forall.
  intros p [_ Hp]%list_elem_of_In%List.filter_In.
  by apply atom_str_nonempty.
Qed.

Lemma kept_parts_app (xs ys : list atom) :
  kept_parts (xs ++ ys) = kept_parts xs ++ kept_parts ys.
Proof. unfold kept_parts. by rewrite List.filter_app, fmap_app. Qed.

Lemma build_key_kept (parts : list atom) :
  RedisManager.build_key parts = str_join ":" (kept_parts parts).
Proof. unfold RedisManager.build_key. by rewrite generator_kept_parts. Qed.

Lemma build_key_pair (a b : string) :
  RedisManager.build_key [AStr a; AStr b]
  = match a, b with
    | "", _ => b
    | _, "" => a
    | _, _ => a +:+ ":" +:+ b
    end.
Proof. by destruct a, b. Qed.

(** X22: keys nest: building a key from two built keys gives the key
    built from all the parts at once, and a built key is empty exactly
    when every part is falsy. *)
Theorem build_key_nests (xs ys : list atom) :
  RedisManager.build_key
    [AStr (RedisManager.build_key xs); AStr (RedisManager.build_key ys)]
  = RedisManager.build_key (xs ++ ys) ∧
  (RedisManager.build_key xs = "" ↔ Forall (λ p, truthy p = false) xs).
Proof.
  split.
  - rewrite build_key_pair.
    rewrite !(build_key_kept xs), !(build_key_kept ys), (build_key_kept (xs ++ ys)).
    rewrite kept_parts_app.
    pose proof (kept_parts_nonempty xs) as Hxs.
    pose proof (kept_parts_nonempty ys) as Hys.
    destruct (kept_parts xs) as [|x kx] eqn:Hkx;
      destruct (kept_parts ys) as [|y ky] eqn:Hky.
    + reflexivity.
    + reflexivity.
    + assert (Hne : str_join ":" (x :: kx) ≠ "")
        by (intros Hj; by apply str_join_empty in Hj).
      rewrite app_nil_r.
      by destruct (str_join ":" (x :: kx)).
    + assert (Hnx : str_join ":" (x :: kx) ≠ "")
        by (intros Hj; by apply str_join_empty in Hj).
      assert (Hny : str_join ":" (y :: ky) ≠ "")
        by (intros Hj; by apply str_join_empty in Hj).
      rewrite str_join_app by done.
      destruct (str_join ":" (x :: kx)) as [|c s] eqn:Hjx; [done|].
      by destruct (str_join ":" (y :: ky)) as [|c' s'] eqn:Hjy.
  - rewrite build_key_kept. split.
    + intros Hj. apply str_join_empty in Hj; [|apply kept_parts_nonempty].
      unfold kept_parts in Hj. apply fmap_nil_inv in Hj.
      apply Forall_forall. intros p Hp.
      destruct (truthy p) eqn:Ht; [|done].
      assert (Hin : p ∈ List.filter truthy xs)
        by (apply list_elem_of_In, List.filter_In; split;
            [by apply list_elem_of_In|done]).
      rewrite Hj in Hin. by apply elem_of_nil in Hin.
    + intros Hall. unfold kept_parts.
      assert (List.filter truthy xs = []) as ->; [|done].
      induction Hall as [|p xs Hp _ IH]; [done|]. simpl. by rewrite Hp.
Qed.

End build_key_more.
